(** * pandapower.control.util.auxiliary

    A shallow embedding of the controller query engine and of the
    tap-characteristic manager of [pandapower/control/util/auxiliary.py],
    together with the properties of its specification.

    Python values, the comparison operators of pandas and the logger are
    modelled explicitly; every function of the module is written in a small
    state-and-exception monad over the network model and the log.

    The data is typed as the module uses it:
    - attribute values, parameter values and table cells are scalars
      ([None], booleans, integers, strings), Python lists of scalars or
      one-dimensional pandas [Index] objects of scalars;
    - the controller table has distinct integer labels, an [object] column
      of controller objects and scalar columns;
    - a transformer table has integer labels, a [tap_dependent_impedance]
      column, when it has one, that is a boolean at every row, and columns
      of characteristic ids whose value type (dtype) is recorded;
    - the characteristic registry maps integer ids to spline
      characteristics; sample points are rationals, stored and never
      computed with.
    [asarray] and [plot_characteristic] compute with floating-point arrays
    and are left out. *)

From Stdlib Require Import ZArith List String Ascii Bool Lia QArith Permutation.
Import ListNotations.

Local Open Scope Z_scope.
Local Open Scope string_scope.

Set Implicit Arguments.


(** ** Python values *)

Module Py.

(** Scalars held by controller attributes, table cells and parameters. *)
Inductive scalar : Type :=
| SNone
| SBool (b : bool)
| SInt (z : Z)
| SStr (s : string).

(** A value is a scalar, a Python [list] of scalars or a one-dimensional
    pandas [Index] of scalars. *)
Inductive value : Type :=
| VScalar (s : scalar)
| VList (l : list scalar)
| VIndex (l : list scalar).

(** The exceptions that the modelled operations can raise.  The last one is
    no Python exception: it marks a statement whose effect leads out of the
    data model, where the embedding has no state to continue in. *)
Inductive exn : Type :=
| ValueError
| TypeError
| KeyError
| AttributeError
| UserWarning
| OutsideDataModel.

Inductive res (A : Type) : Type :=
| Ok (a : A)
| Raise (e : exn).
Arguments Ok {A} a.
Arguments Raise {A} e.

Definition rbind {A B} (c : res A) (k : A -> res B) : res B :=
  match c with
  | Ok a => k a
  | Raise e => Raise e
  end.

(** [try: c except ValueError: h] *)
Definition except_ValueError {A} (c : res A) (h : res A) : res A :=
  match c with
  | Raise ValueError => h
  | other => other
  end.

Definition int_of_bool (b : bool) : Z := if b then 1%Z else 0%Z.

(** [x == y] on scalars: [bool] is a subclass of [int], so [True == 1]. *)
Definition scalar_eq (x y : scalar) : bool :=
  match x, y with
  | SNone, SNone => true
  | SBool a, SBool b => Bool.eqb a b
  | SInt a, SInt b => Z.eqb a b
  | SBool a, SInt b => Z.eqb (int_of_bool a) b
  | SInt a, SBool b => Z.eqb a (int_of_bool b)
  | SStr a, SStr b => String.eqb a b
  | _, _ => false
  end.

Definition is_null (x : scalar) : bool :=
  match x with SNone => true | _ => false end.

(** Element-wise [==] of pandas: a missing entry equals nothing. *)
Definition pd_eq (x y : scalar) : bool :=
  if is_null x || is_null y then false else scalar_eq x y.

(** [l1 == l2] on Python lists. *)
Fixpoint list_eq (l1 l2 : list scalar) : bool :=
  match l1, l2 with
  | [], [] => true
  | x :: r1, y :: r2 => scalar_eq x y && list_eq r1 r2
  | _, _ => false
  end.

Fixpoint zip_with {A B C} (f : A -> B -> C) (l1 : list A) (l2 : list B) : list C :=
  match l1, l2 with
  | x :: r1, y :: r2 => f x y :: zip_with f r1 r2
  | _, _ => []
  end.

(** The result of [a == b]: a Python [bool] or an array of booleans. *)
Inductive cmp : Type :=
| CBool (b : bool)
| CArray (bs : list bool).

(** Comparing an [Index] with a list-like of another length raises
    ValueError ("Lengths must match to compare"). *)
Definition elementwise (l1 l2 : list scalar) : res cmp :=
  if Nat.eqb (List.length l1) (List.length l2)
  then Ok (CArray (zip_with pd_eq l1 l2))
  else Raise ValueError.

(** [a == b] *)
Definition py_eq (a b : value) : res cmp :=
  match a, b with
  | VScalar x, VScalar y => Ok (CBool (scalar_eq x y))
  | VScalar _, VList _ => Ok (CBool false)
  | VList _, VScalar _ => Ok (CBool false)
  | VList l1, VList l2 => Ok (CBool (list_eq l1 l2))
  | VIndex l, VScalar y => Ok (CArray (map (fun x => pd_eq x y) l))
  | VScalar x, VIndex l => Ok (CArray (map (fun y => pd_eq x y) l))
  | VIndex l1, VList l2 => elementwise l1 l2
  | VList l1, VIndex l2 => elementwise l1 l2
  | VIndex l1, VIndex l2 => elementwise l1 l2
  end.

(** [bool(c)]: the truth value of an array with more than one element is
    ambiguous (ValueError); an empty array is false (the numpy releases
    that pandas' [Int64Index] goes with only warn about it). *)
Definition py_bool (c : cmp) : res bool :=
  match c with
  | CBool b => Ok b
  | CArray [] => Ok false
  | CArray [b] => Ok b
  | CArray _ => Raise ValueError
  end.

(** [all(c)]: a plain [bool] is not iterable. *)
Definition py_all (c : cmp) : res bool :=
  match c with
  | CBool _ => Raise TypeError
  | CArray bs => Ok (forallb (fun b => b) bs)
  end.

Definition chars (s : string) : list scalar :=
  map (fun c => SStr (String c EmptyString)) (list_ascii_of_string s).

(** The elements that [set(v)] iterates over. *)
Definition py_iter (v : value) : res (list scalar) :=
  match v with
  | VScalar (SStr s) => Ok (chars s)
  | VScalar _ => Raise TypeError
  | VList l => Ok l
  | VIndex l => Ok l
  end.

Definition mem (x : scalar) (l : list scalar) : bool := existsb (scalar_eq x) l.

(** [set(l)], kept as a list without repetitions. *)
Fixpoint py_set (l : list scalar) : list scalar :=
  match l with
  | [] => []
  | x :: r => if mem x r then py_set r else x :: py_set r
  end.

(** [s1 & s2] *)
Definition set_inter (s1 s2 : list scalar) : list scalar :=
  filter (fun x => mem x s2) s1.

(** [s1 - s2] *)
Definition set_diff (s1 s2 : list scalar) : list scalar :=
  filter (fun x => negb (mem x s2)) s1.

(** [bool(len(l))] *)
Definition nonempty {A} (l : list A) : bool :=
  negb (Nat.eqb (List.length l) 0).

(** [str.lower()] on ASCII letters. *)
Definition lower_ascii (c : ascii) : ascii :=
  let n := nat_of_ascii c in
  if (Nat.leb 65 n && Nat.leb n 90)%bool then ascii_of_nat (n + 32) else c.

Fixpoint lower (s : string) : string :=
  match s with
  | EmptyString => EmptyString
  | String c r => String (lower_ascii c) (lower r)
  end.

(** [s.split(" ")[0]]: the text before the first space character. *)
Fixpoint split_space_first (s : string) : string :=
  match s with
  | EmptyString => EmptyString
  | String c r =>
      if Ascii.eqb c " "%char then EmptyString else String c (split_space_first r)
  end.

(** [d.get(key)] on a dictionary kept in insertion order. *)
Fixpoint lookup {V} (key : string) (d : list (string * V)) : option V :=
  match d with
  | [] => None
  | (k, v) :: r => if String.eqb k key then Some v else lookup key r
  end.

(** [key in d] *)
Definition has_key {V} (key : string) (d : list (string * V)) : bool :=
  match lookup key d with Some _ => true | None => false end.

(** [d.keys()] *)
Definition keys {V} (d : list (string * V)) : list string := map fst d.

End Py.
Import Py.

Notation "'let?' x ':=' c 'in' k" := (rbind c (fun x => k))
  (at level 10, x name, c at level 100, k at level 200).

(** ** The network model *)

(** A controller object: the names of its class and of the base classes
    (what [isinstance] inspects), its display name [str(controller)], its
    [index] and its instance attributes [controller.__dict__]. *)
Record Controller : Type := {
  ctrl_classes : list string;
  ctrl_str : string;
  ctrl_index : Z;
  ctrl_dict : list (string * value)
}.

(** A row of [net.controller]: its label, the [object] column and the
    remaining columns ([in_service], [order], [level], ...). *)
Record ctrl_row : Type := {
  row_index : Z;
  row_object : Controller;
  row_cells : list (string * scalar)
}.

Record ctrl_table : Type := {
  ct_columns : list string;
  ct_rows : list ctrl_row
}.

Inductive dtype : Type := dtype_object | dtype_float64 | dtype_int64 | dtype_bool.

(** A column of a transformer table that holds characteristic ids: its
    value type and, per row label, an id or a null entry. *)
Record column : Type := {
  col_dtype : dtype;
  col_at : Z -> option Z
}.

(** A transformer table: its index, the boolean [tap_dependent_impedance]
    column when there is one, and its other columns by name. *)
Record trafo_table : Type := {
  tt_index : list Z;
  tt_tap_dependent_impedance : option (Z -> bool);
  tt_columns : list (string * column)
}.

Inductive Characteristic : Type :=
| SplineCharacteristic (x_points y_points : list Q).

Record pp_net : Type := {
  controller : ctrl_table;
  trafo : trafo_table;
  trafo3w : trafo_table;
  characteristic : list (Z * Characteristic)
}.

(** The two transformer tables, ["trafo"] and ["trafo3w"]. *)
Inductive trafotable : Type := TTrafo | TTrafo3w.

Definition table_name (t : trafotable) : string :=
  match t with TTrafo => "trafo" | TTrafo3w => "trafo3w" end.

(** [net[trafotable]] *)
Definition net_table (net : pp_net) (t : trafotable) : trafo_table :=
  match t with TTrafo => trafo net | TTrafo3w => trafo3w net end.

Definition set_table (net : pp_net) (t : trafotable) (tbl : trafo_table) : pp_net :=
  match t with
  | TTrafo => {| controller := controller net; trafo := tbl;
                 trafo3w := trafo3w net; characteristic := characteristic net |}
  | TTrafo3w => {| controller := controller net; trafo := trafo net;
                   trafo3w := tbl; characteristic := characteristic net |}
  end.

Definition set_controller (net : pp_net) (c : ctrl_table) : pp_net :=
  {| controller := c; trafo := trafo net; trafo3w := trafo3w net;
     characteristic := characteristic net |}.

Definition set_characteristic (net : pp_net) (r : list (Z * Characteristic)) : pp_net :=
  {| controller := controller net; trafo := trafo net; trafo3w := trafo3w net;
     characteristic := r |}.

(** ** The logger *)

Inductive level : Type := DEBUG | INFO.

(** The type specifier of a query: a class name given as a string or a
    class object. *)
Inductive type_spec : Type :=
| TypeName (typename : string)
| TypeClass (cls : string).

(** The log lines of the module, by the statement that emits them. *)
Inductive message : Type :=
| NoAttribute (key : string) (ctrl : string)
| ElementIndexIntersection (intersect_elms : list scalar) (index : Z)
| SameTypeExisting (index : option Z) (same : list Z)
| CreatingController (index : option Z) (this_ctrl_type : option type_spec)
| NoMatchingParameters
| ControllersRemoved (same : list Z) (index : option Z)
| CreatingNoDrop (index : option Z) (this_ctrl_type : option type_spec)
| CheckingTrafoCharacteristics
| NoTapDependent (table : string)
| FoundTapDependent (table : string) (n : nat)
| ColumnMissing (table col : string)
| ColumnNotObject (table col : string)
| ColumnMissingForSome (table col : string)
| ColumnInvalidIndices (table col : string)
| ColumnHas (table col : string) (n : nat).

Record log_record : Type := { lvl : level; msg : message }.

(** ** The monad: the network model and the log, with exceptions *)

Record world : Type := { w_net : pp_net; w_log : list log_record }.

Definition M (A : Type) : Type := world -> res A * world.

Definition ret {A} (a : A) : M A := fun w => (Ok a, w).

Definition bind {A B} (c : M A) (k : A -> M B) : M B :=
  fun w =>
    match c w with
    | (Ok a, w') => k a w'
    | (Raise e, w') => (Raise e, w')
    end.

Notation "x <- c ;; k" := (bind c (fun x => k))
  (at level 61, c at next level, right associativity).
Notation "c ;; k" := (bind c (fun _ => k))
  (at level 61, right associativity).

Definition raise {A} (e : exn) : M A := fun w => (Raise e, w).

Definition lift {A} (r : res A) : M A := fun w => (r, w).

Definition get_net : M pp_net := fun w => (Ok (w_net w), w).

Definition put_net (net : pp_net) : M unit :=
  fun w => (Ok tt, {| w_net := net; w_log := w_log w |}).

Definition logger (l : level) (m : message) : M unit :=
  fun w => (Ok tt, {| w_net := w_net w; w_log := w_log w ++ [{| lvl := l; msg := m |}] |}).

Definition when (b : bool) (c : M unit) : M unit := if b then c else ret tt.

(** [[i for i in l if p(i)]] *)
Fixpoint filterM {A} (p : A -> M bool) (l : list A) : M (list A) :=
  match l with
  | [] => ret []
  | x :: r =>
      b <- p x ;;
      r' <- filterM p r ;;
      ret (if b then x :: r' else r')
  end.

(** [for x in l: acc = f(acc, x)] *)
Fixpoint foldM {A B} (f : B -> A -> M B) (l : list A) (acc : B) : M B :=
  match l with
  | [] => ret acc
  | x :: r => acc' <- f acc x ;; foldM f r acc'
  end.

(** [for x in l: f(x)] *)
Fixpoint forM_ {A} (f : A -> M unit) (l : list A) : M unit :=
  match l with
  | [] => ret tt
  | x :: r => f x ;; forM_ f r
  end.

(** ** Accessors of the network model *)

(** [net.controller.index] *)
Definition ctrl_index_of (t : ctrl_table) : list Z := map row_index (ct_rows t).

(** [net.controller.columns] *)
Definition columns (t : ctrl_table) : list string := "object" :: ct_columns t.

Definition is_column (t : ctrl_table) (k : string) : bool :=
  existsb (String.eqb k) (columns t).

Definition find_row (t : ctrl_table) (i : Z) : option ctrl_row :=
  find (fun r => Z.eqb (row_index r) i) (ct_rows t).

(** [net.controller.object.at[i]] and [net.controller.object.loc[i]]:
    KeyError on a label that is not in the index. *)
Definition object_at (net : pp_net) (i : Z) : res Controller :=
  match find_row (controller net) i with
  | Some r => Ok (row_object r)
  | None => Raise KeyError
  end.

(** A cell of [net.controller]: a controller object in the [object] column,
    a scalar (null where the row has no entry) in the others. *)
Inductive cell : Type :=
| CellObj (c : Controller)
| CellVal (s : scalar).

Definition row_cell (r : ctrl_row) (k : string) : cell :=
  if String.eqb k "object" then CellObj (row_object r)
  else match lookup k (row_cells r) with
       | Some s => CellVal s
       | None => CellVal SNone
       end.

(** [net.controller[k]] *)
Definition series (t : ctrl_table) (k : string) : list cell :=
  map (fun r => row_cell r k) (ct_rows t).

(** One entry of [series == v]: a controller object equals no scalar. *)
Definition cell_eq (c : cell) (s : scalar) : bool :=
  match c with
  | CellObj _ => false
  | CellVal x => pd_eq x s
  end.

(** [series == v]: against a scalar every row is compared with it; against
    a list-like the rows are compared by position, and another length
    raises ValueError. *)
Definition series_eq (cells : list cell) (v : value) : res (list bool) :=
  match v with
  | VScalar s => Ok (map (fun c => cell_eq c s) cells)
  | VList l | VIndex l =>
      if Nat.eqb (List.length cells) (List.length l)
      then Ok (zip_with cell_eq cells l)
      else Raise ValueError
  end.

(** [index[mask]] *)
Fixpoint mask_select (index : list Z) (mask : list bool) : list Z :=
  match index, mask with
  | i :: r, b :: m => if b then i :: mask_select r m else mask_select r m
  | _, _ => []
  end.

Definition memZ (i : Z) (l : list Z) : bool := existsb (Z.eqb i) l.

Fixpoint uniqueZ (l : list Z) : list Z :=
  match l with
  | [] => []
  | x :: r => x :: filter (fun y => negb (Z.eqb y x)) (uniqueZ r)
  end.

(** [Index.intersection]: the distinct labels of [a] that are in [b], in
    the order of [a]. *)
Definition intersection (a b : list Z) : list Z :=
  uniqueZ (filter (fun i => memZ i b) a).

(** [isinstance(controller, ctrl_type)] *)
Definition isinstance (c : Controller) (ctrl_type : string) : bool :=
  existsb (String.eqb ctrl_type) (ctrl_classes c).

(** [controller.__getattribute__(key)] *)
Definition getattribute (c : Controller) (key : string) : res value :=
  match lookup key (ctrl_dict c) with
  | Some v => Ok v
  | None => Raise AttributeError
  end.

(** [parameters[key]] *)
Definition getitem (parameters : list (string * value)) (key : string) : res value :=
  match lookup key parameters with
  | Some v => Ok v
  | None => Raise KeyError
  end.

(** Modelled from the spec: [ensure_iterability] of [pandapower.toolbox]
    is not part of this module; it "normalizes a scalar or sequence into an
    iterable". *)
Definition ensure_iterability (v : value) : list scalar :=
  match v with
  | VScalar s => [s]
  | VList l => l
  | VIndex l => l
  end.

(** ** The controller query engine *)

(** Lines 52-57. *)
Definition get_controller_index_by_type (ctrl_type : string) (idx : list Z) : M (list Z) :=
  net <- get_net ;;
  let idx := if nonempty idx then idx else ctrl_index_of (controller net) in
  filterM (fun i => o <- lift (object_at net i) ;; ret (isinstance o ctrl_type)) idx.

(** Lines 60-69. *)
Definition get_controller_index_by_typename (typename : string) (idx : list Z)
    (case_sensitive : bool) : M (list Z) :=
  net <- get_net ;;
  let idx := if nonempty idx then idx else ctrl_index_of (controller net) in
  if case_sensitive then
    filterM (fun i => o <- lift (object_at net i) ;;
                      ret (String.eqb (split_space_first (ctrl_str o)) typename)) idx
  else
    filterM (fun i => o <- lift (object_at net i) ;;
                      ret (String.eqb (lower (split_space_first (ctrl_str o)))
                                      (lower typename))) idx.

(** Line 83: [bool(a == p)] *)
Definition direct_equality (a p : value) : res bool :=
  let? c := py_eq a p in py_bool c.

(** Line 86: [all(a == p)] *)
Definition all_equal (a p : value) : res bool :=
  let? c := py_eq a p in py_all c.

(** Line 88: [bool(len(set(a) & set(p)))] *)
Definition sets_intersect (a p : value) : res bool :=
  let? sa := py_iter a in
  let? sp := py_iter p in
  Ok (nonempty (set_inter (py_set sa) (py_set sp))).

(** Lines 82-88: the match of one key, with its two fallbacks. *)
Definition attr_match (a p : value) : res bool :=
  except_ValueError (direct_equality a p)
    (except_ValueError (all_equal a p) (sets_intersect a p)).

(** Lines 94-101: what follows the loop. *)
Definition query_finish (controller : Controller) (parameters : list (string * value))
    (complete_match element_index_match : bool) : M bool :=
  (if complete_match && negb element_index_match then
     a <- lift (getattribute controller "element_index") ;;
     p <- lift (getitem parameters "element_index") ;;
     let intersect_elms :=
       set_inter (py_set (ensure_iterability a)) (py_set (ensure_iterability p)) in
     when (nonempty intersect_elms)
          (logger INFO (ElementIndexIntersection intersect_elms (ctrl_index controller)))
   else ret tt) ;;
  ret (complete_match && element_index_match).

(** Lines 78-93: the loop over [parameters.keys()]. *)
Fixpoint query_loop (controller : Controller) (parameters : list (string * value))
    (ks : list string) (complete_match element_index_match : bool) : M bool :=
  match ks with
  | [] => query_finish controller parameters complete_match element_index_match
  | key :: rest =>
      if negb (has_key key (ctrl_dict controller)) then
        logger DEBUG (NoAttribute key (ctrl_str controller)) ;;
        ret false
      else
        a <- lift (getattribute controller key) ;;
        p <- lift (getitem parameters key) ;;
        match_ <- lift (attr_match a p) ;;
        if String.eqb key "element_index"
        then query_loop controller parameters rest complete_match match_
        else query_loop controller parameters rest (complete_match && match_)
                        element_index_match
  end.

(** Lines 72-101. *)
Definition _controller_attributes_query (controller : Controller)
    (parameters : list (string * value)) : M bool :=
  query_loop controller parameters (keys parameters) true true.

(** Lines 125-129: the narrowing by the type specifier. *)
Definition narrow_by_type (ctrl_type : option type_spec) (idx : list Z) : M (list Z) :=
  match ctrl_type with
  | None => ret idx
  | Some (TypeName typename) => get_controller_index_by_typename typename idx false
  | Some (TypeClass cls) => get_controller_index_by_type cls idx
  end.

(** Line 137: the body of the loop over the column keys. *)
Definition narrow_by_column (net : pp_net) (parameters : list (string * value))
    (idx : list Z) (df_key : string) : M (list Z) :=
  p <- lift (getitem parameters df_key) ;;
  mask <- lift (series_eq (series (controller net) df_key) p) ;;
  ret (intersection idx (mask_select (ctrl_index_of (controller net)) mask)).

(** Lines 104-141.  [attributes_keys] is built from a set in the source, so
    the order in which the attribute keys are visited is not fixed there;
    here they keep the order of the dictionary. *)
Definition get_controller_index (ctrl_type : option type_spec)
    (parameters : option (list (string * value))) (idx : list Z) : M (list Z) :=
  net <- get_net ;;
  let idx := if nonempty idx then idx else ctrl_index_of (controller net) in
  idx <- narrow_by_type ctrl_type idx ;;
  match parameters with
  | Some parameters =>
      let df_keys := filter (is_column (controller net)) (keys parameters) in
      let attributes_keys :=
        filter (fun k => negb (existsb (String.eqb k) df_keys)) (keys parameters) in
      let attributes_dict :=
        filter (fun kv => existsb (String.eqb (fst kv)) attributes_keys) parameters in
      idx <- foldM (narrow_by_column net parameters) df_keys idx ;;
      filterM (fun i => o <- lift (object_at net i) ;;
                        _controller_attributes_query o attributes_dict) idx
  | None => ret idx
  end.

(** Lines 144-171. *)
Definition log_same_type_existing_controllers (this_ctrl_type : option type_spec)
    (index : option Z) (matching_params : option (list (string * value))) : M unit :=
  match matching_params with
  | Some _ =>
      same_type_existing_ctrl <- get_controller_index this_ctrl_type matching_params [] ;;
      when (nonempty same_type_existing_ctrl)
           (logger INFO (SameTypeExisting index same_type_existing_ctrl))
  | None =>
      logger INFO (CreatingController index this_ctrl_type) ;;
      logger DEBUG NoMatchingParameters
  end.

(** [net.controller.drop(labels, inplace=True)] *)
Definition drop (labels : list Z) : M unit :=
  net <- get_net ;;
  let t := controller net in
  if forallb (fun l => memZ l (ctrl_index_of t)) labels then
    put_net (set_controller net
               {| ct_columns := ct_columns t;
                  ct_rows := filter (fun r => negb (memZ (row_index r) labels)) (ct_rows t) |})
  else raise KeyError.

(** Lines 174-203. *)
Definition drop_same_type_existing_controllers (this_ctrl_type : option type_spec)
    (index : option Z) (matching_params : option (list (string * value))) : M unit :=
  match matching_params with
  | Some _ =>
      same_type_existing_ctrl <- get_controller_index this_ctrl_type matching_params [] ;;
      when (nonempty same_type_existing_ctrl)
           (drop same_type_existing_ctrl ;;
            logger DEBUG (ControllersRemoved same_type_existing_ctrl index))
  | None =>
      logger INFO (CreatingNoDrop index this_ctrl_type)
  end.

(** ** The tap-characteristic manager *)

Definition dtype_is_object (d : dtype) : bool :=
  match d with dtype_object => true | _ => false end.

(** [col in net[trafotable]] for a column other than the flag column. *)
Definition get_column (tbl : trafo_table) (col : string) : option column :=
  lookup col (tt_columns tbl).

(** [d[key] = v] on a dictionary kept in insertion order. *)
Fixpoint dict_set {V} (key : string) (v : V) (d : list (string * V)) : list (string * V) :=
  match d with
  | [] => [(key, v)]
  | (k, x) :: r => if String.eqb k key then (k, v) :: r else (k, x) :: dict_set key v r
  end.

(** [net[trafotable][col] = c] *)
Definition set_column (tbl : trafo_table) (col : string) (c : column) : trafo_table :=
  {| tt_index := tt_index tbl;
     tt_tap_dependent_impedance := tt_tap_dependent_impedance tbl;
     tt_columns := dict_set col c (tt_columns tbl) |}.

(** [net[trafotable]['tap_dependent_impedance'] = f] *)
Definition set_flag_column (tbl : trafo_table) (f : Z -> bool) : trafo_table :=
  {| tt_index := tt_index tbl;
     tt_tap_dependent_impedance := Some f;
     tt_columns := tt_columns tbl |}.

(** [net[trafotable].loc[labels, 'tap_dependent_impedance'] = v]: when
    setting, a label that is not in the index raises KeyError.  On a table
    without the column pandas creates it, null at the rows outside
    [labels]; the data model has no such table (the flag, once introduced,
    is a boolean at every row), so that there the embedding stops with
    [OutsideDataModel].  The caller creates the column first (lines
    223-224). *)
Definition loc_set_flag (t : trafotable) (labels : list Z) (v : bool) : M unit :=
  net <- get_net ;;
  let tbl := net_table net t in
  if forallb (fun l => memZ l (tt_index tbl)) labels then
    match tt_tap_dependent_impedance tbl with
    | Some f =>
        put_net (set_table net t
                   (set_flag_column tbl (fun i => if memZ i labels then v else f i)))
    | None => raise OutsideDataModel
    end
  else raise KeyError.

(** [net[trafotable].at[tid, col] = v].  Setting through [.at] enlarges the
    table on a label or a column that does not exist yet. *)
Definition at_set (t : trafotable) (tid : Z) (col : string) (v : Z) : M unit :=
  net <- get_net ;;
  let tbl := net_table net t in
  let c := match get_column tbl col with
           | Some c => c
           | None => {| col_dtype := dtype_object; col_at := fun _ => None |}
           end in
  let c' := {| col_dtype := col_dtype c;
               col_at := fun i => if Z.eqb i tid then Some v else col_at c i |} in
  put_net (set_table net t
             {| tt_index := if memZ tid (tt_index tbl) then tt_index tbl
                            else tt_index tbl ++ [tid];
                tt_tap_dependent_impedance := tt_tap_dependent_impedance tbl;
                tt_columns := dict_set col c' (tt_columns tbl) |}).

(** Modelled from the spec: [get_free_id], used by [add_to_net], is not part
    of this module; the registry is "append-only via a registration call
    that returns the new id".  The new id is one more than the largest id,
    and 0 in an empty registry. *)
Definition get_free_id (registry : list (Z * Characteristic)) : Z :=
  match registry with
  | [] => 0
  | (i, _) :: r => fold_left Z.max (map fst r) i + 1
  end.

(** Modelled from the spec: [SplineCharacteristic.add_to_net] is defined in
    [characteristic.py], which is not part of this module; it returns "the
    new integer id after appending itself to the named registry table". *)
Definition add_to_net (s : Characteristic) : M Z :=
  net <- get_net ;;
  let index := get_free_id (characteristic net) in
  put_net (set_characteristic net (characteristic net ++ [(index, s)])) ;;
  ret index.

(** [zip(a, b, c)] *)
Fixpoint zip3 {A B C} (a : list A) (b : list B) (c : list C) : list (A * B * C) :=
  match a, b, c with
  | x :: a', y :: b', z :: c' => (x, y, z) :: zip3 a' b' c'
  | _, _, _ => []
  end.

Definition tdi_name : string := "tap_dependent_impedance".

(** [f"{variable}_characteristic"] *)
Definition characteristic_column (variable : string) : string :=
  variable ++ "_characteristic".

(** Lines 235-236: the body of the loop. *)
Definition create_one (trafotable : trafotable) (col : string)
    (t : Z * list Q * list Q) : M unit :=
  let '(tid, x_p, y_p) := t in
  let s := SplineCharacteristic x_p y_p in
  id <- add_to_net s ;;
  at_set trafotable tid col id.

(** Lines 223-224: the flag column is created, all false, when the table
    has none. *)
Definition ensure_flag_column (trafotable : trafotable) : M unit :=
  net <- get_net ;;
  match tt_tap_dependent_impedance (net_table net trafotable) with
  | None => put_net (set_table net trafotable
                       (set_flag_column (net_table net trafotable) (fun _ => false)))
  | Some _ => ret tt
  end.

(** Lines 229-232: the characteristic column is created, all null, when the
    table has none, and converted to the object type when it has another. *)
Definition ensure_object_column (trafotable : trafotable) (col : string) : M unit :=
  net <- get_net ;;
  match get_column (net_table net trafotable) col with
  | None =>
      put_net (set_table net trafotable
                 (set_column (net_table net trafotable) col
                    {| col_dtype := dtype_object; col_at := fun _ => None |}))
  | Some c =>
      if negb (dtype_is_object (col_dtype c)) then
        put_net (set_table net trafotable
                   (set_column (net_table net trafotable) col
                      {| col_dtype := dtype_object; col_at := col_at c |}))
      else ret tt
  end.

(** Lines 223-232: what precedes the loop. *)
Definition prepare_columns (trafotable : trafotable) (trafo_index : list Z)
    (col : string) : M unit :=
  ensure_flag_column trafotable ;;
  loc_set_flag trafotable trafo_index true ;;
  ensure_object_column trafotable col.

(** Lines 219-236. *)
Definition create_trafo_characteristics (trafotable : trafotable) (trafo_index : list Z)
    (variable : string) (x_points y_points : list (list Q)) : M unit :=
  if negb (Nat.eqb (List.length trafo_index) (List.length x_points))
     || negb (Nat.eqb (List.length trafo_index) (List.length y_points))
  then raise UserWarning
  else
    let col := characteristic_column variable in
    prepare_columns trafotable trafo_index col ;;
    forM_ (create_one trafotable col) (zip3 trafo_index x_points y_points).

Definition cols2w : list string :=
  ["vk_percent_characteristic"; "vkr_percent_characteristic"].

Definition cols3w : list string :=
  flat_map (fun side =>
              map (fun r => "vk" ++ r ++ "_" ++ side ++ "_percent_characteristic")
                  [EmptyString; "r"])
           ["hv"; "mv"; "lv"].

Definition is_some {A} (o : option A) : bool :=
  match o with Some _ => true | None => false end.

Definition opt_memZ (o : option Z) (ids : list Z) : bool :=
  match o with Some z => memZ z ids | None => false end.

(** Lines 253-262: the checks of one column; [tap_dependent_impedance] is
    the boolean mask read at line 250. *)
Definition check_column (trafo_table : trafotable) (tap_dependent_impedance : Z -> bool)
    (col : string) : M unit :=
  net <- get_net ;;
  let tbl := net_table net trafo_table in
  let name := table_name trafo_table in
  match get_column tbl col with
  | None => logger INFO (ColumnMissing name col)
  | Some c =>
      let masked := map (col_at c) (filter tap_dependent_impedance (tt_index tbl)) in
      if negb (dtype_is_object (col_dtype c)) then
        logger INFO (ColumnNotObject name col)
      else if existsb (fun v => negb (is_some v)) masked then
        logger INFO (ColumnMissingForSome name col)
      else if nonempty (filter (fun v => negb (opt_memZ v (map fst (characteristic net))))
                               masked) then
        logger INFO (ColumnInvalidIndices name col)
      else
        logger INFO (ColumnHas name col
                       (List.length (filter is_some (map (col_at c) (tt_index tbl)))))
  end.

(** Lines 244-262: the body of the loop over the two tables. *)
Definition check_table (tc : trafotable * list string) : M unit :=
  let '(trafo_table, cols) := tc in
  net <- get_net ;;
  let tbl := net_table net trafo_table in
  match tt_tap_dependent_impedance tbl with
  | None => logger INFO (NoTapDependent (table_name trafo_table))
  | Some tap_dependent_impedance =>
      if Nat.eqb (List.length (tt_index tbl)) 0
         || negb (existsb tap_dependent_impedance (tt_index tbl))
      then logger INFO (NoTapDependent (table_name trafo_table))
      else
        logger INFO (FoundTapDependent (table_name trafo_table)
                       (List.length (filter tap_dependent_impedance (tt_index tbl)))) ;;
        forM_ (check_column trafo_table tap_dependent_impedance) cols
  end.

(** Lines 239-262. *)
Definition trafo_characteristics_diagnostic : M unit :=
  logger INFO CheckingTrafoCharacteristics ;;
  forM_ check_table [(TTrafo, cols2w); (TTrafo3w, cols3w)].

(** ** Notions used by the statements *)

Definition info (m : message) : log_record := {| lvl := INFO; msg := m |}.
Definition debug (m : message) : log_record := {| lvl := DEBUG; msg := m |}.

(** The world after some more log lines, the network model untouched. *)
Definition add_log (w : world) (l : list log_record) : world :=
  {| w_net := w_net w; w_log := w_log w ++ l |}.

(** The index subset that a query searches: [idx], or every label when
    [idx] is empty. *)
Definition searched (net : pp_net) (idx : list Z) : list Z :=
  if nonempty idx then idx else ctrl_index_of (controller net).

(** The three tiers of a key match, as a boolean: the direct equality, or
    else the element-wise test, or else the intersection test. *)
Definition three_tier (a p : value) : bool :=
  match direct_equality a p with
  | Ok m => m
  | Raise _ =>
      match all_equal a p with
      | Ok m => m
      | Raise _ =>
          match sets_intersect a p with
          | Ok m => m
          | Raise _ => false
          end
      end
  end.

(** *** The three tiers in the words of the specification *)

(** The elements of a list or of an [Index]. *)
Definition elements (v : value) : list scalar :=
  match v with
  | VScalar _ => []
  | VList l | VIndex l => l
  end.

(** An array-like value. *)
Definition is_index (v : value) : bool :=
  match v with VIndex _ => true | _ => false end.

(** The equality of two entries of an array comparison, as a pair. *)
Definition same_entry (xy : scalar * scalar) : bool := pd_eq (fst xy) (snd xy).

(** The entries of the array that the comparison with an array-like value
    is: every element against the scalar, or the elements at the same
    positions of two sequences of one length.  There is none when the
    lengths differ, and none between values that are not array-like. *)
Definition array_entries (a p : value) : option (list bool) :=
  match a, p with
  | VIndex l, VScalar y => Some (map (fun x => same_entry (x, y)) l)
  | VScalar x, VIndex l => Some (map (fun y => same_entry (x, y)) l)
  | VIndex l1, VList l2 | VList l1, VIndex l2 | VIndex l1, VIndex l2 =>
      if Nat.eqb (List.length l1) (List.length l2)
      then Some (map same_entry (combine l1 l2))
      else None
  | _, _ => None
  end.

(** The first tier, the direct boolean equality.  Between scalars and
    Python lists it is their equality (a scalar equals no list).  With an
    array-like value the comparison is an array, whose truth value is its
    only entry, false when it has none, and ambiguous with two entries or
    more; there is no answer either when the two cannot be compared. *)
Definition tier_direct (a p : value) : option bool :=
  if is_index a || is_index p then
    match array_entries a p with
    | Some [] => Some false
    | Some [b] => Some b
    | _ => None
    end
  else
    match a, p with
    | VScalar x, VScalar y => Some (scalar_eq x y)
    | VList l1, VList l2 => Some (list_eq l1 l2)
    | _, _ => Some false
    end.

(** The second tier, the element-wise test: every entry of the array
    comparison is true; no answer when the two cannot be compared. *)
Definition tier_all (a p : value) : option bool :=
  option_map (forallb (fun b => b)) (array_entries a p).

(** The third tier, the intersection test: the two values have an element
    in common. *)
Definition tier_common (a p : value) : bool :=
  existsb (fun x => existsb (scalar_eq x) (elements p)) (elements a).

(** The fallback: the first tier that has an answer. *)
Definition fallback (a p : value) : bool :=
  match tier_direct a p with
  | Some m => m
  | None =>
      match tier_all a p with
      | Some m => m
      | None => tier_common a p
      end
  end.

(** What a tier of the code answers when the tier of the specification
    has the answer [o]: the value, or the ambiguity error. *)
Definition answers (o : option bool) : res bool :=
  match o with
  | Some m => Ok m
  | None => Raise ValueError
  end.

(** The match of one key of [parameters] on a controller. *)
Definition key_match (controller : Controller) (parameters : list (string * value))
    (key : string) : bool :=
  match lookup key (ctrl_dict controller), lookup key parameters with
  | Some a, Some p => three_tier a p
  | _, _ => false
  end.

Definition is_element_index (k : string) : bool := String.eqb k "element_index".

(** Every key of [parameters] is an attribute of the controller. *)
Definition all_present (controller : Controller) (parameters : list (string * value)) : bool :=
  forallb (fun k => has_key k (ctrl_dict controller)) (keys parameters).

(** The conjunction of the matches of the keys other than [element_index]. *)
Definition others_match (controller : Controller) (parameters : list (string * value)) : bool :=
  forallb (key_match controller parameters)
          (filter (fun k => negb (is_element_index k)) (keys parameters)).

(** The match of [element_index], true when the key is not asked for. *)
Definition element_index_match (controller : Controller)
    (parameters : list (string * value)) : bool :=
  if existsb is_element_index (keys parameters)
  then key_match controller parameters "element_index"
  else true.

(** The elements common to the requested and the actual [element_index]. *)
Definition overlap (controller : Controller) (parameters : list (string * value)) : list scalar :=
  match lookup "element_index" (ctrl_dict controller), lookup "element_index" parameters with
  | Some a, Some p => set_inter (py_set (ensure_iterability a)) (py_set (ensure_iterability p))
  | _, _ => []
  end.

(** The Python equality [cell == v] of a table cell and a value, as a truth
    value. *)
Definition py_cell_eq (c : cell) (v : value) : bool :=
  match c with
  | CellObj _ => false
  | CellVal x =>
      match direct_equality (VScalar x) v with
      | Ok b => b
      | Raise _ => false
      end
  end.

(** The type specifier accepts the controller. *)
Definition type_matches (ctrl_type : option type_spec) (o : Controller) : bool :=
  match ctrl_type with
  | None => true
  | Some (TypeName typename) =>
      String.eqb (lower (split_space_first (ctrl_str o))) (lower typename)
  | Some (TypeClass cls) => isinstance o cls
  end.

(** The keys of [parameters] that are columns of the controller table. *)
Definition column_keys (t : ctrl_table) (parameters : list (string * value)) : list string :=
  filter (is_column t) (keys parameters).

(** The entries of [parameters] under the other keys. *)
Definition attribute_part (t : ctrl_table) (parameters : list (string * value))
    : list (string * value) :=
  filter (fun kv => negb (is_column t (fst kv))) parameters.

(** The cells of a row equal the values of [parameters] under every column
    key. *)
Definition columns_equal (t : ctrl_table) (parameters : list (string * value))
    (r : ctrl_row) : bool :=
  forallb (fun k => match lookup k parameters with
                    | Some v => py_cell_eq (row_cell r k) v
                    | None => false
                    end)
          (column_keys t parameters).

(** [_controller_attributes_query] returns true. *)
Definition query_true (o : Controller) (d : list (string * value)) (w : world) : bool :=
  match fst (_controller_attributes_query o d w) with
  | Ok true => true
  | _ => false
  end.

(** The row labelled [i] passes the type specifier, the column keys and the
    attribute keys of a query. *)
Definition selected (w : world) (ctrl_type : option type_spec)
    (parameters : list (string * value)) (i : Z) : bool :=
  let t := controller (w_net w) in
  match find_row t i with
  | Some r =>
      type_matches ctrl_type (row_object r)
      && columns_equal t parameters r
      && query_true (row_object r) (attribute_part t parameters) w
  | None => false
  end.

(** What the specification states of a query result [l]. *)
Definition query_spec (w : world) (ctrl_type : option type_spec)
    (parameters : list (string * value)) (idx : list Z) (l : list Z) : Prop :=
  forall i, In i l <-> In i (searched (w_net w) idx) /\ selected w ctrl_type parameters i = true.

(** The values of [parameters] under column keys are scalars other than
    [None]. *)
Definition plain_scalar (v : value) : bool :=
  match v with
  | VScalar s => negb (is_null s)
  | _ => false
  end.

Definition column_values_scalar (t : ctrl_table) (parameters : list (string * value)) : bool :=
  forallb (fun k => match lookup k parameters with
                    | Some v => plain_scalar v
                    | None => true
                    end)
          (column_keys t parameters).

(** Whitespace characters: space, tab, line feed, vertical tab, form feed
    and carriage return. *)
Definition is_whitespace (c : ascii) : bool :=
  let n := nat_of_ascii c in
  Nat.eqb n 32 || (Nat.leb 9 n && Nat.leb n 13).

Fixpoint skip_whitespace (s : string) : string :=
  match s with
  | EmptyString => EmptyString
  | String c r => if is_whitespace c then skip_whitespace r else s
  end.

Fixpoint until_whitespace (s : string) : string :=
  match s with
  | EmptyString => EmptyString
  | String c r => if is_whitespace c then EmptyString else String c (until_whitespace r)
  end.

(** The first whitespace-delimited token of a string, in the words of the
    specification. *)
Definition first_whitespace_token (s : string) : string :=
  until_whitespace (skip_whitespace s).

(** The match on a type name as the specification words it. *)
Definition typename_matches_spec (case_sensitive : bool) (typename : string)
    (o : Controller) : bool :=
  if case_sensitive
  then String.eqb (first_whitespace_token (ctrl_str o)) typename
  else String.eqb (lower (first_whitespace_token (ctrl_str o))) (lower typename).

(** The match on a type name as the code computes it. *)
Definition typename_matches (case_sensitive : bool) (typename : string)
    (o : Controller) : bool :=
  if case_sensitive
  then String.eqb (split_space_first (ctrl_str o)) typename
  else String.eqb (lower (split_space_first (ctrl_str o))) (lower typename).

(** A string whose only whitespace is the space character and which does
    not begin with one. *)
Fixpoint only_spaces (s : string) : bool :=
  match s with
  | EmptyString => true
  | String c r => (negb (is_whitespace c) || Ascii.eqb c " "%char) && only_spaces r
  end.

Definition plain_display_name (s : string) : bool :=
  only_spaces s
  && match s with
     | EmptyString => true
     | String c _ => negb (Ascii.eqb c " "%char)
     end.

(** The controller object of the row labelled [i], if any. *)
Definition object_of (net : pp_net) (i : Z) : option Controller :=
  option_map row_object (find_row (controller net) i).

(** The entry of a characteristic column at a row, null when there is no
    such column. *)
Definition cell_at (net : pp_net) (t : trafotable) (col : string) (i : Z) : option Z :=
  match get_column (net_table net t) col with
  | Some c => col_at c i
  | None => None
  end.

(** The first components of the triples of the loop. *)
Definition triple_tid (t : Z * list Q * list Q) : Z := fst (fst t).

Definition spline_of (t : Z * list Q * list Q) : Characteristic :=
  SplineCharacteristic (snd (fst t)) (snd t).

(** The condition under which the diagnostic skips a table. *)
Definition no_tap_dependent (tbl : trafo_table) : bool :=
  Nat.eqb (List.length (tt_index tbl)) 0
  || match tt_tap_dependent_impedance tbl with
     | None => true
     | Some f => negb (existsb f (tt_index tbl))
     end.

(** A list or an [Index]. *)
Definition is_sequence (v : value) : bool :=
  match v with VScalar _ => false | _ => true end.

(** The value that [_controller_attributes_query] returns. *)
Definition query_value (controller : Controller) (parameters : list (string * value)) : bool :=
  all_present controller parameters
  && (others_match controller parameters && element_index_match controller parameters).

(** The log lines that [_controller_attributes_query] emits when every key
    is present. *)
Definition query_info (controller : Controller) (parameters : list (string * value))
    : list log_record :=
  if others_match controller parameters
     && negb (element_index_match controller parameters)
     && nonempty (overlap controller parameters)
  then [info (ElementIndexIntersection (overlap controller parameters)
                                       (ctrl_index controller))]
  else [].

(** A test on controller objects, asked of the row labelled [i]. *)
Definition accepts (net : pp_net) (f : Controller -> bool) (i : Z) : bool :=
  match object_of net i with
  | Some o => f o
  | None => false
  end.

(** A computation that leaves the network model as it was, whatever it
    returns or raises. *)
Definition net_preserving {A} (m : M A) : Prop :=
  forall w r w', m w = (r, w') -> w_net w' = w_net w.

(** A computation that does not raise the validation error. *)
Definition no_user_warning {A} (m : M A) : Prop :=
  forall w, fst (m w) <> Raise UserWarning.

(** The ids that [n] registrations obtain, the first one being [id0]. *)
Definition new_ids (id0 : Z) (n : nat) : list Z :=
  map (fun j => id0 + Z.of_nat j) (seq 0 n).

(** The entries of a characteristic column after the loop has written the
    ids [id0], [id0 + 1], ... at the rows of the triples [zs], over the
    entries [f]. *)
Fixpoint writes (zs : list (Z * list Q * list Q)) (id0 : Z) (f : Z -> option Z)
    : Z -> option Z :=
  match zs with
  | [] => f
  | z :: rest =>
      writes rest (id0 + 1) (fun i => if Z.eqb i (triple_tid z) then Some id0 else f i)
  end.

(** The flag column of a table, false where there is none. *)
Definition flag_at (tbl : trafo_table) (i : Z) : bool :=
  match tt_tap_dependent_impedance tbl with
  | Some f => f i
  | None => false
  end.

(** The number of elements of a list-like value. *)
Definition seq_length (v : value) : option nat :=
  match v with
  | VScalar _ => None
  | VList l | VIndex l => Some (List.length l)
  end.

(** A string with a space character in it. *)
Fixpoint contains_space (s : string) : bool :=
  match s with
  | EmptyString => false
  | String c r => Ascii.eqb c " "%char || contains_space r
  end.

(** Two dictionaries without a common key. *)
Definition disjoint_keys (A B : list (string * value)) : Prop :=
  forall k, In k (keys A) -> ~ In k (keys B).

(** The other transformer table. *)
Definition other_table (t : trafotable) : trafotable :=
  match t with TTrafo => TTrafo3w | TTrafo3w => TTrafo end.

(** The characteristic columns that the diagnostic looks for in a table
    (line 243). *)
Definition expected_columns (t : trafotable) : list string :=
  match t with TTrafo => cols2w | TTrafo3w => cols3w end.

(** Every row of the table that is flagged as tap-dependent, the rows
    labelled in [except] apart, holds in the column [col] the id of a
    registered characteristic. *)
Definition valid_refs (net : pp_net) (t : trafotable) (col : string) (except : list Z)
    : Prop :=
  forall i, In i (tt_index (net_table net t)) ->
            flag_at (net_table net t) i = true ->
            ~ In i except ->
            exists id, cell_at net t col i = Some id
                       /\ In id (map fst (characteristic net)).

(** Two states agree on the other transformer table, on the controller
    table, on the log and on every column of the table [t] other than
    [col] and the flag column. *)
Definition same_elsewhere (t : trafotable) (col : string) (w w' : world) : Prop :=
  net_table (w_net w') (other_table t) = net_table (w_net w) (other_table t)
  /\ controller (w_net w') = controller (w_net w)
  /\ w_log w' = w_log w
  /\ forall col', col' <> col ->
                  get_column (net_table (w_net w') t) col'
                  = get_column (net_table (w_net w) t) col'.

(** The number of entries of a column that are not null. *)
Definition count_entries (net : pp_net) (t : trafotable) (col : string) : nat :=
  List.length (filter is_some (map (cell_at net t col) (tt_index (net_table net t)))).

(** The line that the diagnostic writes on one expected column of a table,
    in the words of the specification, exactly one of: the column is
    missing; it is not of the object type; it is null at a tap-dependent
    row; it holds, at a tap-dependent row, an id that the registry does not
    have; or else its number of entries. *)
Definition column_report (net : pp_net) (t : trafotable) (col : string) : message :=
  let tbl := net_table net t in
  let name := table_name t in
  let flagged := filter (flag_at tbl) (tt_index tbl) in
  match get_column tbl col with
  | None => ColumnMissing name col
  | Some c =>
      if negb (dtype_is_object (col_dtype c)) then ColumnNotObject name col
      else if existsb (fun i => negb (is_some (col_at c i))) flagged
      then ColumnMissingForSome name col
      else if existsb (fun i => negb (opt_memZ (col_at c i)
                                        (map fst (characteristic net)))) flagged
      then ColumnInvalidIndices name col
      else ColumnHas name col (count_entries net t col)
  end.

(** The lines of the diagnostic on a table that it does not skip: the
    number of tap-dependent rows, then the line of each expected column. *)
Definition table_report (net : pp_net) (t : trafotable) (cols : list string)
    : list log_record :=
  info (FoundTapDependent (table_name t)
          (List.length (filter (flag_at (net_table net t)) (tt_index (net_table net t)))))
  :: map (fun col => info (column_report net t col)) cols.

(** ** A small network used in the examples *)

Module Fixture.

Definition const_control : Controller :=
  {| ctrl_classes := ["ConstControl"; "Controller"; "JSONSerializableClass"; "object"];
     ctrl_str := "ConstControl [gen.p_mw]";
     ctrl_index := 0;
     ctrl_dict := [("element", VScalar (SStr "gen"));
                   ("variable", VScalar (SStr "p_mw"));
                   ("element_index", VIndex [SInt 0; SInt 1; SInt 2]);
                   ("profile_name", VScalar SNone)] |}.

Definition tap_control : Controller :=
  {| ctrl_classes := ["DiscreteTapControl"; "TrafoController"; "Controller";
                      "JSONSerializableClass"; "object"];
     ctrl_str := "DiscreteTapControl of trafo 1";
     ctrl_index := 1;
     ctrl_dict := [("side", VScalar (SStr "lv"));
                   ("element_index", VScalar (SInt 1))] |}.

Definition controllers : ctrl_table :=
  {| ct_columns := ["in_service"; "order"; "level"; "recycle"];
     ct_rows := [ {| row_index := 0; row_object := const_control;
                     row_cells := [("in_service", SBool true); ("order", SInt 0);
                                   ("level", SInt 0)] |};
                  {| row_index := 1; row_object := tap_control;
                     row_cells := [("in_service", SBool false); ("order", SInt 1);
                                   ("level", SInt 0)] |} ] |}.

Definition trafos : trafo_table :=
  {| tt_index := [1; 3; 7];
     tt_tap_dependent_impedance := None;
     tt_columns := [] |}.

Definition no_trafos : trafo_table :=
  {| tt_index := []; tt_tap_dependent_impedance := None; tt_columns := [] |}.

Definition net : pp_net :=
  {| controller := controllers; trafo := trafos; trafo3w := no_trafos;
     characteristic := [] |}.

Definition start : world := {| w_net := net; w_log := [] |}.

(** The other keys match and [element_index] overlaps without matching. *)
Definition overlapping : list (string * value) :=
  [("element", VScalar (SStr "gen"));
   ("element_index", VList [SInt 1; SInt 2; SInt 3])].

(** The other keys match and [element_index] is disjoint. *)
Definition disjoint : list (string * value) :=
  [("side", VScalar (SStr "lv")); ("element_index", VScalar (SInt 2))].

(** A key that no controller has. *)
Definition unknown_key : list (string * value) :=
  [("element", VScalar (SStr "gen")); ("gain", VScalar (SInt 1))].

End Fixture.

Module Tabbed.

(** A controller whose display name separates the class name from the
    rest with a tab character. *)
Definition tab_control : Controller :=
  {| ctrl_classes := ["ConstControl"; "Controller"; "JSONSerializableClass"; "object"];
     ctrl_str := "ConstControl" ++ String (ascii_of_nat 9) "[gen.p_mw]";
     ctrl_index := 0;
     ctrl_dict := [] |}.

Definition net : pp_net :=
  {| controller := {| ct_columns := ["in_service"];
                      ct_rows := [ {| row_index := 0; row_object := tab_control;
                                      row_cells := [("in_service", SBool true)] |} ] |};
     trafo := Fixture.no_trafos; trafo3w := Fixture.no_trafos;
     characteristic := [] |}.

Definition start : world := {| w_net := net; w_log := [] |}.

End Tabbed.

Module Positional.

(** A list under a column key, as long as the controller table. *)
Definition by_position : list (string * value) :=
  [("in_service", VList [SBool true; SBool false])].

(** A list under a column key, of another length than the table. *)
Definition too_long : list (string * value) :=
  [("in_service", VList [SBool true; SBool false; SBool true])].

(** None under a column key; no row of the fixture has an entry there. *)
Definition recycle_none : list (string * value) :=
[("recycle", VScalar SNone)].

(** A scalar under a column key and an attribute key. *)
Definition in_service_gen : list (string * value) :=
  [("in_service", VScalar (SBool true)); ("element", VScalar (SStr "gen"))].

End Positional.

Module Example.

(** The example of the specification: transformers 3 and 7, variable
    [vk_percent]. *)
Definition trafo_index : list Z := [3; 7].

Definition x_points : list (list Q) := [[0; 1; 2]; [0; 1; 2]]%Q.

Definition y_points : list (list Q) := [[5; 26 # 5; 11 # 2]; [4; 41 # 10; 43 # 10]]%Q.

(** The same transformer twice. *)
Definition twice : list Z := [3; 3].

End Example.

Module Labels.

(** A restriction that names a label the fixture does not have. *)
Definition with_unknown : list Z := [0; 5].

(** A type name that no controller of the fixture has. *)
Definition no_such_type : type_spec := TypeName "NoSuchControl".

(** A column key alone. *)
Definition in_service : list (string * value) :=
[("in_service", VScalar (SBool true))].

(** An attribute key alone. *)
Definition element_gen : list (string * value) :=
[("element", VScalar (SStr "gen"))].

End Labels.

Module Merge.

(** Two parameter dictionaries with different keys, and the second one
    with its entries in the other order. *)
Definition first : list (string * value) :=
[("in_service", VScalar (SBool true)); ("element", VScalar (SStr "gen"))].

Definition second : list (string * value) :=
[("order", VScalar (SInt 0)); ("variable", VScalar (SStr "p_mw"))].

Definition second_reversed : list (string * value) :=
[("variable", VScalar (SStr "p_mw")); ("order", VScalar (SInt 0))].

End Merge.

(** * Properties *)

(** ** Dictionaries and the monad *)

Lemma lookup_keys {V} (d : list (string * V)) (k : string) :
  In k (keys d) -> exists v, lookup k d = Some v.
Proof.
  induction d as [|[k' v'] d IH]; simpl; [tauto|].
  intros [E | H].
  - subst. rewrite String.eqb_refl. eauto.
  - destruct (String.eqb k' k); eauto.
Qed.

Lemma has_key_lookup {V} (d : list (string * V)) (k : string) :
  has_key k d = true -> exists v, lookup k d = Some v.
Proof.
  unfold has_key. destruct (lookup k d); [eauto | discriminate].
Qed.

Lemma lookup_has_key {V} (d : list (string * V)) (k : string) (v : V) :
  lookup k d = Some v -> has_key k d = true.
Proof. unfold has_key. now intros ->. Qed.

Lemma add_log_nil (w : world) : add_log w [] = w.
Proof. destruct w. unfold add_log. simpl. now rewrite app_nil_r. Qed.

Lemma add_log_app (w : world) (l1 l2 : list log_record) :
  add_log (add_log w l1) l2 = add_log w (l1 ++ l2).
Proof. unfold add_log. simpl. now rewrite app_assoc. Qed.

Lemma logger_add_log (l : level) (m : message) (w : world) :
  logger l m w = (Ok tt, add_log w [{| lvl := l; msg := m |}]).
Proof. reflexivity. Qed.

(** ** The match of one key *)

Lemma py_eq_cases (a p : value) :
  (exists c, py_eq a p = Ok c)
  \/ (py_eq a p = Raise ValueError /\ is_sequence a = true /\ is_sequence p = true).
Proof.
  destruct a, p; simpl; eauto; unfold elementwise;
    destruct (Nat.eqb _ _); eauto.
Qed.

Lemma py_bool_cases (c : cmp) :
  (exists b, py_bool c = Ok b)
  \/ (py_bool c = Raise ValueError /\ exists bs, c = CArray bs).
Proof.
  destruct c as [b | [|b [|b' bs]]]; simpl; eauto.
Qed.

Lemma sets_intersect_sequences (a p : value) :
  is_sequence a = true -> is_sequence p = true ->
  exists m, sets_intersect a p = Ok m.
Proof.
  destruct a, p; simpl; try discriminate; intros _ _;
    unfold sets_intersect; simpl; eauto.
Qed.

Lemma direct_equality_raise (a p : value) (e : exn) :
  direct_equality a p = Raise e ->
  e = ValueError
  /\ ((exists m, all_equal a p = Ok m)
      \/ (all_equal a p = Raise ValueError /\ exists m, sets_intersect a p = Ok m)).
Proof.
  unfold direct_equality, all_equal.
  destruct (py_eq_cases a p) as [[c E] | (E & Ha & Hp)]; rewrite E; simpl.
  - destruct (py_bool_cases c) as [[b B] | (B & bs & ->)]; rewrite B; [discriminate|].
    intros [= <-]. simpl. eauto.
  - intros [= <-]. split; [reflexivity|]. right. split; [reflexivity|].
    now apply sets_intersect_sequences.
Qed.

Lemma attr_match_ok (a p : value) : attr_match a p = Ok (three_tier a p).
Proof.
  unfold attr_match, three_tier.
  destruct (direct_equality a p) as [m | e] eqn:D; [reflexivity|].
  destruct (direct_equality_raise _ _ D) as [-> [[m A] | [A [m S]]]];
    simpl; rewrite A; simpl; [reflexivity|].
  now rewrite S.
Qed.

(** ** The loop of [_controller_attributes_query] *)

Lemma query_finish_quiet (controller : Controller) (parameters : list (string * value))
    (cm em : bool) (w : world) :
  cm && negb em = false ->
  query_finish controller parameters cm em w = (Ok (cm && em), w).
Proof.
  intros H. unfold query_finish. rewrite H. reflexivity.
Qed.

Lemma query_finish_mismatch (controller : Controller) (parameters : list (string * value))
    (a p : value) (w : world) :
  lookup "element_index" (ctrl_dict controller) = Some a ->
  lookup "element_index" parameters = Some p ->
  query_finish controller parameters true false w =
  (Ok false,
   add_log w (if nonempty (overlap controller parameters)
              then [info (ElementIndexIntersection (overlap controller parameters)
                                                   (ctrl_index controller))]
              else [])).
Proof.
  intros Ha Hp. unfold query_finish, overlap, getattribute, getitem, bind, lift, when.
  simpl. rewrite Ha, Hp. simpl.
  destruct (nonempty _); simpl; [reflexivity|].
  now rewrite add_log_nil.
Qed.

Lemma key_match_step (controller : Controller) (parameters : list (string * value))
    (key : string) (a p : value) :
  lookup key (ctrl_dict controller) = Some a ->
  lookup key parameters = Some p ->
  key_match controller parameters key = three_tier a p.
Proof. unfold key_match. now intros -> ->. Qed.

Lemma query_loop_present (controller : Controller) (parameters : list (string * value)) :
  forall (ks : list string) (cm em : bool) (w : world),
    (forall k, In k ks -> In k (keys parameters)) ->
    forallb (fun k => has_key k (ctrl_dict controller)) ks = true ->
    query_loop controller parameters ks cm em w =
    query_finish controller parameters
      (cm && forallb (key_match controller parameters)
                     (filter (fun k => negb (is_element_index k)) ks))
      (if existsb is_element_index ks
       then key_match controller parameters "element_index" else em) w.
Proof.
  induction ks as [|key rest IH]; intros cm em w Hin Hall.
  - simpl. now rewrite andb_true_r.
  - simpl in Hall. apply andb_true_iff in Hall as [Hk Hrest].
    destruct (has_key_lookup _ _ Hk) as [a Ha].
    destruct (lookup_keys parameters key (Hin key (or_introl eq_refl))) as [p Hp].
    assert (Hin' : forall k, In k rest -> In k (keys parameters))
      by (intros k H; apply Hin; now right).
    cbn [query_loop]. rewrite Hk. cbn [negb].
    unfold bind at 1, lift at 1, getattribute. rewrite Ha.
    unfold bind at 1, lift at 1, getitem. rewrite Hp.
    unfold bind at 1, lift at 1. rewrite attr_match_ok.
    rewrite <- (key_match_step controller parameters key Ha Hp).
    unfold is_element_index in *. cbn [filter existsb].
    destruct (String.eqb key "element_index") eqn:E.
    + apply String.eqb_eq in E. subst key. rewrite IH by assumption.
      cbn [negb orb]. now destruct (existsb _ rest).
    + rewrite IH by assumption. cbn [negb orb forallb].
      now rewrite andb_assoc.
Qed.

Lemma query_loop_absent (controller : Controller) (parameters : list (string * value)) :
  forall (ks : list string) (cm em : bool) (w : world),
    (forall k, In k ks -> In k (keys parameters)) ->
    forallb (fun k => has_key k (ctrl_dict controller)) ks = false ->
    exists k, In k ks /\ has_key k (ctrl_dict controller) = false /\
              query_loop controller parameters ks cm em w =
              (Ok false, add_log w [debug (NoAttribute k (ctrl_str controller))]).
Proof.
  induction ks as [|key rest IH]; intros cm em w Hin Hall; [discriminate|].
  simpl in Hall. cbn [query_loop].
  destruct (has_key key (ctrl_dict controller)) eqn:Hk.
  - simpl in Hall.
    destruct (has_key_lookup _ _ Hk) as [a Ha].
    destruct (lookup_keys parameters key (Hin key (or_introl eq_refl))) as [p Hp].
    assert (Hin' : forall k, In k rest -> In k (keys parameters))
      by (intros k H; apply Hin; now right).
    cbn [negb].
    unfold bind at 1, lift at 1, getattribute. rewrite Ha.
    unfold bind at 1, lift at 1, getitem. rewrite Hp.
    unfold bind at 1, lift at 1. rewrite attr_match_ok.
    destruct (String.eqb key "element_index");
      edestruct IH as (k & Hk' & Hab & ->); eauto;
      exists k; (split; [now right | split; [assumption | reflexivity]]).
  - exists key. split; [now left | split; [assumption | reflexivity]].
Qed.

Lemma existsb_element_index (ks : list string) :
  existsb is_element_index ks = true -> In "element_index" ks.
Proof.
  intros H. apply existsb_exists in H as (k & Hk & E).
  apply String.eqb_eq in E. now subst.
Qed.

Lemma query_present (controller : Controller) (parameters : list (string * value))
    (w : world) :
  all_present controller parameters = true ->
  _controller_attributes_query controller parameters w =
  (Ok (others_match controller parameters && element_index_match controller parameters),
   add_log w (query_info controller parameters)).
Proof.
  intros Hall. unfold _controller_attributes_query.
  rewrite query_loop_present by (auto; exact Hall). cbn [andb].
  fold (others_match controller parameters).
  fold (element_index_match controller parameters).
  unfold query_info.
  destruct (others_match controller parameters) eqn:Ho;
    destruct (element_index_match controller parameters) eqn:He; cbn [andb negb];
    try (rewrite query_finish_quiet by reflexivity; now rewrite add_log_nil).
  unfold element_index_match in He.
  destruct (existsb is_element_index (keys parameters)) eqn:Hex; [|discriminate].
  apply existsb_element_index in Hex.
  destruct (lookup_keys parameters _ Hex) as [p Hp].
  unfold all_present in Hall. rewrite forallb_forall in Hall.
  destruct (has_key_lookup _ _ (Hall _ Hex)) as [a Ha].
  now rewrite (query_finish_mismatch controller parameters w Ha Hp).
Qed.

Lemma query_absent (controller : Controller) (parameters : list (string * value))
    (w : world) :
  all_present controller parameters = false ->
  exists k, In k (keys parameters) /\ has_key k (ctrl_dict controller) = false /\
            _controller_attributes_query controller parameters w =
            (Ok false, add_log w [debug (NoAttribute k (ctrl_str controller))]).
Proof.
  intros Hall. unfold _controller_attributes_query.
  now apply query_loop_absent.
Qed.

(** The query never raises, returns [query_value] and only adds log lines. *)
Lemma query_total (controller : Controller) (parameters : list (string * value))
    (w : world) :
  exists logs,
    _controller_attributes_query controller parameters w =
    (Ok (query_value controller parameters), add_log w logs).
Proof.
  unfold query_value.
  destruct (all_present controller parameters) eqn:Hall.
  - rewrite query_present by assumption. eauto.
  - destruct (query_absent controller parameters w Hall) as (k & _ & _ & ->). eauto.
Qed.

(** *** The three tiers on the shapes of values *)

Lemma three_tier_scalars (x y : scalar) :
  three_tier (VScalar x) (VScalar y) = scalar_eq x y.
Proof. reflexivity. Qed.

Lemma three_tier_lists (l1 l2 : list scalar) :
  three_tier (VList l1) (VList l2) = list_eq l1 l2.
Proof. reflexivity. Qed.

Lemma three_tier_index_same_length (l1 l2 : list scalar) :
  List.length l1 = List.length l2 -> (2 <= List.length l1)%nat ->
  three_tier (VIndex l1) (VList l2) = forallb (fun b => b) (zip_with pd_eq l1 l2).
Proof.
  intros Hlen Hge. unfold three_tier, direct_equality, all_equal. simpl.
  unfold elementwise. rewrite Hlen, Nat.eqb_refl. simpl.
  destruct l1 as [|x [|x' l1]]; simpl in Hge; try lia.
  destruct l2 as [|y [|y' l2]]; simpl in Hlen; try discriminate.
  reflexivity.
Qed.

Lemma three_tier_index_other_length (l1 l2 : list scalar) :
  List.length l1 <> List.length l2 ->
  three_tier (VIndex l1) (VList l2) = nonempty (set_inter (py_set l1) (py_set l2)).
Proof.
  intros Hlen. unfold three_tier, direct_equality, all_equal. simpl.
  unfold elementwise. apply Nat.eqb_neq in Hlen. now rewrite Hlen.
Qed.

(** One pair of values per tier: equal scalars are matched directly; an
    [Index] and a list of its length are matched element-wise, the direct
    test being ambiguous; an [Index] and a shorter list cannot be compared
    and are matched by their common elements. *)
Lemma three_tier_examples :
  direct_equality (VScalar (SStr "gen")) (VScalar (SStr "gen")) = Ok true
  /\ direct_equality (VIndex [SInt 1; SInt 2; SInt 3]) (VList [SInt 1; SInt 2; SInt 3])
     = Raise ValueError
  /\ all_equal (VIndex [SInt 1; SInt 2; SInt 3]) (VList [SInt 1; SInt 2; SInt 3]) = Ok true
  /\ direct_equality (VIndex [SInt 1; SInt 2; SInt 3]) (VList [SInt 3; SInt 4])
     = Raise ValueError
  /\ all_equal (VIndex [SInt 1; SInt 2; SInt 3]) (VList [SInt 3; SInt 4]) = Raise ValueError
  /\ sets_intersect (VIndex [SInt 1; SInt 2; SInt 3]) (VList [SInt 3; SInt 4]) = Ok true
  /\ attr_match (VIndex [SInt 1; SInt 2; SInt 3]) (VList [SInt 3; SInt 4]) = Ok true.
Proof. repeat split. Qed.

(** *** The tiers of the specification *)

Lemma zip_with_entries (l1 l2 : list scalar) :
  zip_with pd_eq l1 l2 = map same_entry (combine l1 l2).
Proof.
  revert l2. induction l1 as [|x l1 IH]; intros [|y l2]; cbn; try reflexivity.
  unfold same_entry at 1. cbn [fst snd]. now rewrite IH.
Qed.

Lemma direct_equality_tier (a p : value) :
  direct_equality a p = answers (tier_direct a p).
Proof.
  unfold direct_equality, tier_direct.
  destruct a as [x | l1 | l1], p as [y | l2 | l2];
    cbn [py_eq rbind is_index orb array_entries py_bool answers]; try reflexivity.
  - destruct l2 as [|y1 [|y2 l2]]; reflexivity.
  - unfold elementwise. destruct (Nat.eqb _ _); cbn [rbind answers]; [|reflexivity].
    rewrite zip_with_entries.
    destruct (map same_entry (combine l1 l2)) as [|b [|b' bs]]; reflexivity.
  - destruct l1 as [|x1 [|x2 l1]]; reflexivity.
  - unfold elementwise. destruct (Nat.eqb _ _); cbn [rbind answers]; [|reflexivity].
    rewrite zip_with_entries.
    destruct (map same_entry (combine l1 l2)) as [|b [|b' bs]]; reflexivity.
  - unfold elementwise. destruct (Nat.eqb _ _); cbn [rbind answers]; [|reflexivity].
    rewrite zip_with_entries.
    destruct (map same_entry (combine l1 l2)) as [|b [|b' bs]]; reflexivity.
Qed.

Lemma all_equal_tier (a p : value) :
  tier_direct a p = None -> all_equal a p = answers (tier_all a p).
Proof.
  unfold all_equal, tier_direct, tier_all.
  destruct a as [x | l1 | l1], p as [y | l2 | l2];
    cbn [py_eq rbind is_index orb array_entries py_all answers option_map];
    try discriminate; intros _; try reflexivity;
    unfold elementwise; destruct (Nat.eqb _ _);
    cbn [rbind py_all answers option_map]; try reflexivity;
    now rewrite zip_with_entries.
Qed.

Lemma scalar_eq_congruent (x y z : scalar) :
  scalar_eq x y = true -> scalar_eq x z = scalar_eq y z.
Proof.
  destruct x as [|a|a|a], y as [|b|b|b]; cbn [scalar_eq]; try discriminate;
    intros H; try reflexivity.
  - apply Bool.eqb_prop in H. now subst.
  - apply Z.eqb_eq in H. subst b.
    destruct z as [|c|c|c]; cbn [scalar_eq]; try reflexivity.
    now destruct a, c.
  - apply Z.eqb_eq in H. subst a.
    destruct z as [|c|c|c]; cbn [scalar_eq]; try reflexivity.
    now destruct b, c.
  - apply Z.eqb_eq in H. now subst.
  - apply String.eqb_eq in H. now subst.
Qed.

Lemma scalar_eq_sym (x y : scalar) : scalar_eq x y = scalar_eq y x.
Proof.
  destruct x as [|a|a|a], y as [|b|b|b]; cbn [scalar_eq]; try reflexivity.
  - now destruct a, b.
  - apply Z.eqb_sym.
  - apply Z.eqb_sym.
  - apply Z.eqb_sym.
  - apply String.eqb_sym.
Qed.

Lemma mem_congruent (x y : scalar) (l : list scalar) :
  scalar_eq x y = true -> mem x l = mem y l.
Proof.
  intros H. unfold mem. induction l as [|z l IH]; [reflexivity|].
  cbn [existsb]. now rewrite (@scalar_eq_congruent x y z H), IH.
Qed.

Lemma existsb_py_set (f : scalar -> bool) (l : list scalar) :
  (forall x y, scalar_eq x y = true -> f x = f y) ->
  existsb f (py_set l) = existsb f l.
Proof.
  intros Hf. induction l as [|y r IH]; [reflexivity|]. cbn [py_set existsb].
  destruct (mem y r) eqn:M; cbn [existsb]; rewrite IH; [|reflexivity].
  destruct (f y) eqn:F; [|reflexivity]. cbn [orb].
  unfold mem in M. apply existsb_exists in M as (z & Hz & E).
  apply existsb_exists. exists z. split; [assumption|]. now rewrite <- (Hf y z E).
Qed.

Lemma mem_py_set (x : scalar) (l : list scalar) : mem x (py_set l) = mem x l.
Proof.
  unfold mem. apply existsb_py_set. intros y z H.
  rewrite (scalar_eq_sym x y), (scalar_eq_sym x z).
  exact (@scalar_eq_congruent y z x H).
Qed.

Lemma nonempty_filter {A} (f : A -> bool) (l : list A) :
  nonempty (filter f l) = existsb f l.
Proof.
  induction l as [|x l IH]; [reflexivity|]. cbn [filter existsb].
  destruct (f x); [reflexivity | exact IH].
Qed.

Lemma sets_intersect_common (l1 l2 : list scalar) :
  nonempty (set_inter (py_set l1) (py_set l2))
  = existsb (fun x => existsb (scalar_eq x) l2) l1.
Proof.
  unfold set_inter. rewrite nonempty_filter.
  rewrite existsb_py_set.
  - induction l1 as [|x l1 IH]; [reflexivity|]. cbn [existsb].
    rewrite IH. f_equal. apply mem_py_set.
  - intros x y H. rewrite !mem_py_set. now apply mem_congruent.
Qed.

Lemma sets_intersect_tier (a p : value) :
  tier_direct a p = None -> tier_all a p = None ->
  sets_intersect a p = Ok (tier_common a p).
Proof.
  unfold tier_direct, tier_all, tier_common, sets_intersect.
  destruct a as [x | l1 | l1], p as [y | l2 | l2];
    cbn [is_index orb array_entries option_map py_iter rbind elements];
    try discriminate; intros _ _; now rewrite sets_intersect_common.
Qed.

Lemma attr_match_fallback (a p : value) : attr_match a p = Ok (fallback a p).
Proof.
  unfold attr_match, fallback. rewrite direct_equality_tier.
  destruct (tier_direct a p) as [m|] eqn:D; [reflexivity|]. cbn [answers except_ValueError].
  rewrite (all_equal_tier _ _ D).
  destruct (tier_all a p) as [m|] eqn:A; [reflexivity|]. cbn [answers except_ValueError].
  now apply sets_intersect_tier.
Qed.

Lemma tier_common_element (a p : value) :
  tier_common a p = true <->
  exists x y, In x (elements a) /\ In y (elements p) /\ scalar_eq x y = true.
Proof.
  unfold tier_common. rewrite existsb_exists. split.
  - intros (x & Hx & E). apply existsb_exists in E as (y & Hy & E). eauto.
  - intros (x & y & Hx & Hy & E). exists x. split; [assumption|].
    apply existsb_exists. eauto.
Qed.

(** *** The claims on [_controller_attributes_query] *)

(** C4.  The match of a present key is computed by the three-tier fallback
    of the specification.  The direct equality of the code answers what the
    first tier says: the equality of scalars and of Python lists, the only
    entry of an array comparison, and the ambiguity error (ValueError) when
    the array has two entries or more or the two values cannot be compared.
    When it raises, the element-wise test of the code answers what the
    second tier says: whether all entries of the array are true, and
    ValueError when the lengths differ.  When that raises as well, the
    intersection test of the code answers what the third tier says: whether
    the two values have an element in common.  The match is the answer of
    the first tier that has one; it never raises, and it is what a query on
    that single key returns. *)
Theorem attr_match_three_tier_fallback :
  forall a p : value,
    attr_match a p = Ok (fallback a p)
    /\ direct_equality a p = answers (tier_direct a p)
    /\ (tier_direct a p = None -> all_equal a p = answers (tier_all a p))
    /\ (tier_direct a p = None -> tier_all a p = None ->
        sets_intersect a p = Ok (tier_common a p))
    /\ (tier_common a p = true <->
        exists x y, In x (elements a) /\ In y (elements p) /\ scalar_eq x y = true)
    /\ attr_match a p = Ok (three_tier a p)
    /\ (forall m, direct_equality a p = Ok m -> attr_match a p = Ok m)
    /\ (forall e, direct_equality a p = Raise e ->
          e = ValueError
          /\ (forall m, all_equal a p = Ok m -> attr_match a p = Ok m)
          /\ (forall e', all_equal a p = Raise e' ->
                e' = ValueError
                /\ exists m, sets_intersect a p = Ok m /\ attr_match a p = Ok m))
    /\ (forall (controller : Controller) (key : string) (w : world),
          lookup key (ctrl_dict controller) = Some a ->
          fst (_controller_attributes_query controller [(key, p)] w) = Ok (fallback a p)).
Proof.
  intros a p.
  split; [apply attr_match_fallback|]. split; [apply direct_equality_tier|].
  split; [apply all_equal_tier|]. split; [apply sets_intersect_tier|].
  split; [apply tier_common_element|].
  split; [apply attr_match_ok|]. split; [|split].
  - intros m D. unfold attr_match. now rewrite D.
  - intros e D. destruct (direct_equality_raise _ _ D) as [-> Hall].
    split; [reflexivity|]. split.
    + intros m A. unfold attr_match. rewrite D. simpl. now rewrite A.
    + intros e' A. destruct Hall as [[m A'] | [A' [m S]]]; [congruence|].
      rewrite A' in A. injection A as <-. split; [reflexivity|].
      exists m. split; [assumption|].
      unfold attr_match. rewrite D. simpl. rewrite A'. simpl. assumption.
  - intros controller key w Ha.
    assert (Hall : all_present controller [(key, p)] = true).
    { unfold all_present. simpl. now rewrite (lookup_has_key _ _ Ha). }
    assert (Hsame : three_tier a p = fallback a p).
    { pose proof (attr_match_ok a p) as H1. rewrite attr_match_fallback in H1.
      now injection H1. }
    rewrite <- Hsame.
    rewrite query_present by assumption. simpl.
    unfold others_match, element_index_match, key_match, is_element_index. simpl.
    destruct (String.eqb key "element_index") eqn:E; simpl.
    + apply String.eqb_eq in E. subst key. now rewrite Ha.
    + rewrite Ha, String.eqb_refl. now rewrite !andb_true_r.
Qed.

(** C5.  A parameter mapping with a key that is not an attribute of the
    controller makes the query return false: nothing is raised, whatever
    the other keys are, and the network model is left as it was. *)
Theorem controller_attributes_query_missing_key :
  forall (controller : Controller) (parameters : list (string * value)) (w : world),
    (exists k, In k (keys parameters) /\ has_key k (ctrl_dict controller) = false) ->
    fst (_controller_attributes_query controller parameters w) = Ok false
    /\ w_net (snd (_controller_attributes_query controller parameters w)) = w_net w.
Proof.
  intros controller parameters w (k & Hin & Hk).
  assert (Hall : all_present controller parameters = false).
  { unfold all_present. apply not_true_is_false. intros H.
    rewrite forallb_forall in H. specialize (H k Hin). congruence. }
  destruct (query_absent controller parameters w Hall) as (k' & _ & _ & ->).
  split; reflexivity.
Qed.

Lemma controller_attributes_query_missing_key_witness :
  (exists k, In k (keys Fixture.unknown_key)
             /\ has_key k (ctrl_dict Fixture.const_control) = false)
  /\ fst (_controller_attributes_query Fixture.const_control Fixture.unknown_key
            Fixture.start) = Ok false.
Proof.
  assert (H : exists k, In k (keys Fixture.unknown_key)
                        /\ has_key k (ctrl_dict Fixture.const_control) = false).
  { exists "gain". split; [simpl; tauto | reflexivity]. }
  split; [exact H|].
  exact (proj1 (controller_attributes_query_missing_key
                  Fixture.const_control Fixture.unknown_key Fixture.start H)).
Defined.

(** C2 (amended).  When every key is an attribute of the controller, the
    query returns the conjunction of the matches of the keys other than
    [element_index] and of the match of [element_index].  One info line
    reporting the common elements is logged exactly when the other keys
    match, [element_index] does not, and the requested and actual
    [element_index] values have an element in common; nothing else is
    logged, and the line does not change the result. *)
Theorem controller_attributes_query_conjunction :
  forall (controller : Controller) (parameters : list (string * value)) (w : world),
    all_present controller parameters = true ->
    _controller_attributes_query controller parameters w =
    (Ok (others_match controller parameters && element_index_match controller parameters),
     add_log w
       (if others_match controller parameters
           && negb (element_index_match controller parameters)
           && nonempty (overlap controller parameters)
        then [info (ElementIndexIntersection (overlap controller parameters)
                                             (ctrl_index controller))]
        else [])).
Proof.
  intros controller parameters w Hall. exact (query_present controller parameters w Hall).
Qed.

Lemma controller_attributes_query_conjunction_witness :
  all_present Fixture.const_control Fixture.overlapping = true
  /\ _controller_attributes_query Fixture.const_control Fixture.overlapping Fixture.start =
     (Ok false,
      add_log Fixture.start
        [info (ElementIndexIntersection [SInt 1; SInt 2] 0)]).
Proof.
  split; [reflexivity|].
  exact (controller_attributes_query_conjunction
           Fixture.const_control Fixture.overlapping Fixture.start eq_refl).
Defined.

(** C2 as stated fails: the other keys match and [element_index] does not,
    yet no line is logged, because the two values have no common element. *)
Lemma element_index_mismatch_without_log :
  all_present Fixture.tap_control Fixture.disjoint = true
  /\ others_match Fixture.tap_control Fixture.disjoint = true
  /\ element_index_match Fixture.tap_control Fixture.disjoint = false
  /\ _controller_attributes_query Fixture.tap_control Fixture.disjoint Fixture.start =
     (Ok false, Fixture.start).
Proof. repeat split. Qed.

(** ** Comprehensions and loops in the monad *)

Lemma filterM_quiet {A} (p : A -> M bool) (f : A -> bool) (l : list A) (w : world) :
  (forall x, In x l -> p x w = (Ok (f x), w)) ->
  filterM p l w = (Ok (filter f l), w).
Proof.
  induction l as [|x l IH]; intros H; [reflexivity|].
  cbn [filterM filter]. unfold bind at 1. rewrite (H x (or_introl eq_refl)).
  unfold bind at 1. rewrite IH by (intros y Hy; apply H; now right).
  reflexivity.
Qed.

Lemma filterM_logging {A} (p : A -> M bool) (f : A -> bool) (l : list A) :
  (forall x w, In x l -> exists logs, p x w = (Ok (f x), add_log w logs)) ->
  forall w, exists logs, filterM p l w = (Ok (filter f l), add_log w logs).
Proof.
  induction l as [|x l IH]; intros H w.
  - exists []. now rewrite add_log_nil.
  - destruct (H x w (or_introl eq_refl)) as [l1 E1].
    destruct (IH (fun y w' Hy => H y w' (or_intror Hy)) (add_log w l1)) as [l2 E2].
    exists (l1 ++ l2)%list. cbn [filterM filter]. unfold bind at 1. rewrite E1.
    unfold bind at 1. rewrite E2. now rewrite add_log_app.
Qed.

Lemma filterM_incl {A} (p : A -> M bool) (l : list A) :
  forall w l' w', filterM p l w = (Ok l', w') -> incl l' l.
Proof.
  induction l as [|x l IH]; intros w l' w'; cbn [filterM].
  - intros [= <- _]. apply incl_refl.
  - unfold bind at 1. destruct (p x w) as [[b | e] w1]; [|discriminate].
    unfold bind at 1. destruct (filterM p l w1) as [[r | e] w2] eqn:E; [|discriminate].
    intros [= <- _]. specialize (IH _ _ _ E).
    destruct b; [apply incl_cons; [now left | now apply incl_tl] | now apply incl_tl].
Qed.

(** *** Computations that keep the network model *)

Lemma preserving_ret {A} (a : A) : net_preserving (ret a).
Proof. now intros w r w' [= _ <-]. Qed.

Lemma preserving_lift {A} (r : res A) : net_preserving (lift r).
Proof. now intros w r' w' [= _ <-]. Qed.

Lemma preserving_raise {A} (e : exn) : net_preserving (@raise A e).
Proof. now intros w r' w' [= _ <-]. Qed.

Lemma preserving_get_net : net_preserving get_net.
Proof. now intros w r' w' [= _ <-]. Qed.

Lemma preserving_logger (l : level) (m : message) : net_preserving (logger l m).
Proof. now intros w r' w' [= _ <-]. Qed.

Lemma preserving_bind {A B} (c : M A) (k : A -> M B) :
  net_preserving c -> (forall a, net_preserving (k a)) -> net_preserving (bind c k).
Proof.
  intros Hc Hk w r w'. unfold bind.
  destruct (c w) as [[a | e] w1] eqn:E.
  - intros H. rewrite (Hk a _ _ _ H). exact (Hc _ _ _ E).
  - intros [= _ <-]. exact (Hc _ _ _ E).
Qed.

Lemma preserving_when (b : bool) (c : M unit) :
  net_preserving c -> net_preserving (when b c).
Proof. destruct b; [trivial | intros _; apply preserving_ret]. Qed.

Lemma preserving_filterM {A} (p : A -> M bool) (l : list A) :
  (forall x, net_preserving (p x)) -> net_preserving (filterM p l).
Proof.
  intros H. induction l as [|x l IH]; cbn [filterM].
  - apply preserving_ret.
  - apply preserving_bind; [apply H|]. intros b.
    apply preserving_bind; [apply IH|]. intros r. apply preserving_ret.
Qed.

Lemma preserving_foldM {A B} (f : B -> A -> M B) (l : list A) :
  (forall b x, net_preserving (f b x)) -> forall acc, net_preserving (foldM f l acc).
Proof.
  intros H. induction l as [|x l IH]; intros acc; cbn [foldM].
  - apply preserving_ret.
  - apply preserving_bind; [apply H | apply IH].
Qed.

Lemma preserving_forM_ {A} (f : A -> M unit) (l : list A) :
  (forall x, net_preserving (f x)) -> net_preserving (forM_ f l).
Proof.
  intros H. induction l as [|x l IH]; cbn [forM_].
  - apply preserving_ret.
  - apply preserving_bind; [apply H | intros _; apply IH].
Qed.

Create HintDb preserving.
#[export] Hint Resolve preserving_ret preserving_lift preserving_raise preserving_get_net
  preserving_logger preserving_when : preserving.

Ltac preserve :=
  repeat first
    [ apply preserving_bind; [|intros ?]
    | apply preserving_filterM; intros ?
    | apply preserving_foldM; intros ? ?
    | apply preserving_forM_; intros ?
    | solve [auto with preserving]
    | match goal with
      | |- net_preserving (if ?b then _ else _) => destruct b
      | |- net_preserving (match ?x with _ => _ end) => destruct x
      end ].

Lemma preserving_query_finish (controller : Controller)
    (parameters : list (string * value)) (cm em : bool) :
  net_preserving (query_finish controller parameters cm em).
Proof. unfold query_finish. preserve. Qed.

Lemma preserving_query_loop (controller : Controller) (parameters : list (string * value))
    (ks : list string) :
  forall cm em, net_preserving (query_loop controller parameters ks cm em).
Proof.
  induction ks as [|key rest IH]; intros cm em; cbn [query_loop].
  - apply preserving_query_finish.
  - destruct (negb _); [preserve|].
    repeat (apply preserving_bind; [auto with preserving | intros ?]).
    destruct (String.eqb key "element_index"); apply IH.
Qed.

Lemma preserving_query (controller : Controller) (parameters : list (string * value)) :
  net_preserving (_controller_attributes_query controller parameters).
Proof. apply preserving_query_loop. Qed.

Lemma preserving_by_type (ctrl_type : string) (idx : list Z) :
  net_preserving (get_controller_index_by_type ctrl_type idx).
Proof. unfold get_controller_index_by_type. preserve. Qed.

Lemma preserving_by_typename (typename : string) (idx : list Z) (case_sensitive : bool) :
  net_preserving (get_controller_index_by_typename typename idx case_sensitive).
Proof. unfold get_controller_index_by_typename. preserve. Qed.

Lemma preserving_get_controller_index (ctrl_type : option type_spec)
    (parameters : option (list (string * value))) (idx : list Z) :
  net_preserving (get_controller_index ctrl_type parameters idx).
Proof.
  unfold get_controller_index.
  apply preserving_bind; [auto with preserving | intros net].
  apply preserving_bind.
  - unfold narrow_by_type. destruct ctrl_type as [[typename | cls]|];
      [apply preserving_by_typename | apply preserving_by_type | auto with preserving].
  - intros idx1. destruct parameters as [parameters|]; [|auto with preserving].
    apply preserving_bind.
    + apply preserving_foldM. intros acc k. unfold narrow_by_column. preserve.
    + intros idx2. apply preserving_filterM. intros i.
      apply preserving_bind; [auto with preserving | intros o; apply preserving_query].
Qed.

(** ** Rows and labels of the controller table *)

Lemma find_row_some (t : ctrl_table) (i : Z) (r : ctrl_row) :
  find_row t i = Some r -> In r (ct_rows t) /\ row_index r = i.
Proof.
  intros H. apply find_some in H as [Hin E]. split; [assumption|].
  now apply Z.eqb_eq in E.
Qed.

Lemma find_row_in (t : ctrl_table) (i : Z) :
  In i (ctrl_index_of t) -> exists r, find_row t i = Some r.
Proof.
  unfold ctrl_index_of, find_row. intros H.
  apply in_map_iff in H as (r & E & Hin).
  destruct (find _ (ct_rows t)) as [r'|] eqn:F; [eauto|].
  apply (find_none _ _ F) in Hin. apply Z.eqb_neq in Hin. contradiction.
Qed.

Lemma find_row_unique (t : ctrl_table) (r : ctrl_row) :
  NoDup (ctrl_index_of t) -> In r (ct_rows t) -> find_row t (row_index r) = Some r.
Proof.
  unfold ctrl_index_of, find_row. induction (ct_rows t) as [|r' rows IH]; simpl;
    [tauto|].
  intros Hnd [-> | Hin].
  - now rewrite Z.eqb_refl.
  - inversion Hnd as [|? ? Hnot Hnd']; subst.
    destruct (Z.eqb (row_index r') (row_index r)) eqn:E; [|now apply IH].
    apply Z.eqb_eq in E. exfalso. apply Hnot. rewrite E. now apply in_map.
Qed.

Lemma object_at_in (net : pp_net) (i : Z) :
  In i (ctrl_index_of (controller net)) ->
  exists o, object_at net i = Ok o /\ object_of net i = Some o.
Proof.
  intros H. destruct (find_row_in _ _ H) as [r E].
  unfold object_at, object_of. rewrite E. simpl. eauto.
Qed.

Lemma searched_incl (net : pp_net) (idx : list Z) :
  incl idx (ctrl_index_of (controller net)) ->
  incl (searched net idx) (ctrl_index_of (controller net)).
Proof.
  unfold searched. destruct (nonempty idx); [trivial | intros _; apply incl_refl].
Qed.

Lemma searched_idem (net : pp_net) (idx : list Z) :
  (if nonempty (searched net idx) then searched net idx
   else ctrl_index_of (controller net)) = searched net idx.
Proof.
  unfold searched. destruct (nonempty idx) eqn:E; [now rewrite E|].
  now destruct (nonempty (ctrl_index_of (controller net))).
Qed.

Lemma searched_nil (net : pp_net) : searched net [] = ctrl_index_of (controller net).
Proof. reflexivity. Qed.

Lemma searched_full (net : pp_net) :
  searched net (ctrl_index_of (controller net)) = ctrl_index_of (controller net).
Proof. unfold searched. now destruct (nonempty _). Qed.

(** ** Narrowing by type *)

Lemma accept_filter (net : pp_net) (f : Controller -> bool) (l : list Z) (w : world) :
  incl l (ctrl_index_of (controller net)) ->
  filterM (fun i => o <- lift (object_at net i) ;; ret (f o)) l w =
  (Ok (filter (accepts net f) l), w).
Proof.
  intros Hl. apply filterM_quiet. intros i Hi.
  destruct (object_at_in net i (Hl i Hi)) as (o & E & E').
  unfold bind, lift, ret, accepts. now rewrite E, E'.
Qed.

Lemma by_type_filter (ctrl_type : string) (idx : list Z) (w : world) :
  incl idx (ctrl_index_of (controller (w_net w))) ->
  get_controller_index_by_type ctrl_type idx w =
  (Ok (filter (accepts (w_net w) (fun o => isinstance o ctrl_type))
              (searched (w_net w) idx)), w).
Proof.
  intros Hidx. unfold get_controller_index_by_type, bind at 1, get_net.
  fold (searched (w_net w) idx).
  apply (accept_filter (w_net w) (fun o => isinstance o ctrl_type)).
  now apply searched_incl.
Qed.

Lemma by_typename_filter (typename : string) (idx : list Z) (case_sensitive : bool)
    (w : world) :
  incl idx (ctrl_index_of (controller (w_net w))) ->
  get_controller_index_by_typename typename idx case_sensitive w =
  (Ok (filter (accepts (w_net w) (typename_matches case_sensitive typename))
              (searched (w_net w) idx)), w).
Proof.
  intros Hidx. unfold get_controller_index_by_typename, bind at 1, get_net.
  fold (searched (w_net w) idx).
  apply searched_incl in Hidx.
  destruct case_sensitive;
    [apply (accept_filter (w_net w) (typename_matches true typename))
    |apply (accept_filter (w_net w) (typename_matches false typename))];
    assumption.
Qed.

(** The narrowing step of [get_controller_index], lines 125-129. *)
Lemma narrow_filter (ctrl_type : option type_spec) (idx : list Z) (w : world) :
  incl idx (ctrl_index_of (controller (w_net w))) ->
  narrow_by_type ctrl_type (searched (w_net w) idx) w =
  (Ok (filter (accepts (w_net w) (type_matches ctrl_type)) (searched (w_net w) idx)), w).
Proof.
  intros Hidx. pose proof (searched_incl _ Hidx) as Hs.
  unfold narrow_by_type. destruct ctrl_type as [[typename | cls]|].
  - rewrite by_typename_filter by assumption.
    unfold searched at 1. fold (searched (w_net w) idx). now rewrite searched_idem.
  - rewrite by_type_filter by assumption.
    unfold searched at 1. fold (searched (w_net w) idx). now rewrite searched_idem.
  - unfold ret. f_equal. f_equal. symmetry. apply forallb_filter_id.
    apply forallb_forall. intros i Hi.
    destruct (object_at_in _ i (Hs i Hi)) as (o & _ & E).
    unfold accepts. now rewrite E.
Qed.

(** ** The first token of a display name *)

Lemma space_is_whitespace (c : ascii) : Ascii.eqb c " "%char = true -> is_whitespace c = true.
Proof. intros H. apply Ascii.eqb_eq in H. now subst. Qed.

Lemma until_whitespace_only_spaces (s : string) :
  only_spaces s = true -> until_whitespace s = split_space_first s.
Proof.
  induction s as [|c s IH]; [reflexivity|]. cbn [only_spaces until_whitespace split_space_first].
  intros H. apply andb_true_iff in H as [Hc Hs].
  destruct (Ascii.eqb c " "%char) eqn:E.
  - now rewrite (space_is_whitespace c E).
  - rewrite orb_false_r in Hc. apply negb_true_iff in Hc. rewrite Hc.
    now rewrite IH.
Qed.

Lemma first_token_plain (s : string) :
  plain_display_name s = true -> first_whitespace_token s = split_space_first s.
Proof.
  unfold plain_display_name, first_whitespace_token. intros H.
  apply andb_true_iff in H as [Ho Hc].
  destruct s as [|c s]; [reflexivity|].
  apply negb_true_iff in Hc.
  assert (Hw : is_whitespace c = false).
  { cbn [only_spaces] in Ho. apply andb_true_iff in Ho as [Ho _].
    rewrite Hc, orb_false_r in Ho. now apply negb_true_iff in Ho. }
  cbn [skip_whitespace]. rewrite Hw. now apply until_whitespace_only_spaces.
Qed.

(** On display names whose only whitespace is the space character and that
    do not begin with one, the wording of the specification and the code
    agree. *)
Lemma typename_matches_plain (case_sensitive : bool) (typename : string) (o : Controller) :
  plain_display_name (ctrl_str o) = true ->
  typename_matches_spec case_sensitive typename o = typename_matches case_sensitive typename o.
Proof.
  intros H. unfold typename_matches_spec, typename_matches.
  now rewrite (first_token_plain _ H).
Qed.

(** *** The claim on the type specifier *)

(** C9 (amended).  With a string as type specifier the labels kept are
    exactly the searched ones whose display name, cut at its first space
    character, equals the string: compared in lower case by default (and
    always so through [get_controller_index]), as written when
    [case_sensitive] is set.  With a class the labels kept are exactly those
    whose controller is an instance of it. *)
Theorem type_specifier_narrowing :
  forall (w : world) (typename cls : string) (idx : list Z) (case_sensitive : bool),
    incl idx (ctrl_index_of (controller (w_net w))) ->
    get_controller_index_by_typename typename idx case_sensitive w =
      (Ok (filter (accepts (w_net w) (typename_matches case_sensitive typename))
                  (searched (w_net w) idx)), w)
    /\ get_controller_index (Some (TypeName typename)) None idx w =
      (Ok (filter (accepts (w_net w) (typename_matches false typename))
                  (searched (w_net w) idx)), w)
    /\ get_controller_index_by_type cls idx w =
      (Ok (filter (accepts (w_net w) (fun o => isinstance o cls))
                  (searched (w_net w) idx)), w)
    /\ get_controller_index (Some (TypeClass cls)) None idx w =
      (Ok (filter (accepts (w_net w) (fun o => isinstance o cls))
                  (searched (w_net w) idx)), w).
Proof.
  intros w typename cls idx case_sensitive Hidx.
  split; [now apply by_typename_filter|].
  split; [|split; [now apply by_type_filter|]].
  - unfold get_controller_index, bind at 1, get_net. fold (searched (w_net w) idx).
    unfold bind. rewrite (narrow_filter (Some (TypeName typename)) w Hidx).
    reflexivity.
  - unfold get_controller_index, bind at 1, get_net. fold (searched (w_net w) idx).
    unfold bind. rewrite (narrow_filter (Some (TypeClass cls)) w Hidx).
    reflexivity.
Qed.

Lemma type_specifier_narrowing_witness :
  incl [0; 1] (ctrl_index_of (controller (w_net Fixture.start)))
  /\ get_controller_index (Some (TypeName "constcontrol")) None [0; 1] Fixture.start =
     (Ok [0], Fixture.start).
Proof.
  assert (H : incl [0; 1] (ctrl_index_of (controller (w_net Fixture.start))))
    by (intros i Hi; exact Hi).
  split; [exact H|].
  exact (proj1 (proj2 (type_specifier_narrowing
                         Fixture.start "constcontrol" "ConstControl" false H))).
Defined.

(** C9 as stated fails: a tab is whitespace, so the first
    whitespace-delimited token of the display name is the type name, yet the
    controller is not kept, because the code cuts at spaces only. *)
Lemma tab_delimited_name_not_matched :
  typename_matches_spec false "ConstControl" Tabbed.tab_control = true
  /\ get_controller_index_by_typename "ConstControl" [] false Tabbed.start =
     (Ok [], Tabbed.start)
  /\ get_controller_index (Some (TypeName "ConstControl")) None [] Tabbed.start =
     (Ok [], Tabbed.start).
Proof. repeat split. Qed.

(** ** Narrowing by the column keys *)

Lemma memZ_In (i : Z) (l : list Z) : memZ i l = true <-> In i l.
Proof.
  unfold memZ. rewrite existsb_exists. split.
  - intros (x & Hx & E). apply Z.eqb_eq in E. now subst.
  - intros H. exists i. split; [assumption | apply Z.eqb_refl].
Qed.

Lemma in_uniqueZ (i : Z) (l : list Z) : In i (uniqueZ l) <-> In i l.
Proof.
  induction l as [|x l IH]; [reflexivity|]. cbn [uniqueZ In].
  rewrite filter_In, IH. split.
  - intros [E | [H _]]; auto.
  - intros [E | H]; [now left|].
    destruct (Z.eq_dec x i) as [E | N]; [now left|].
    right. split; [assumption|]. apply negb_true_iff, Z.eqb_neq. congruence.
Qed.

Lemma in_intersection (i : Z) (a b : list Z) :
  In i (intersection a b) <-> In i a /\ In i b.
Proof.
  unfold intersection. now rewrite in_uniqueZ, filter_In, memZ_In.
Qed.

Lemma mask_select_rows {R} (f : R -> Z) (g : R -> bool) (rows : list R) (i : Z) :
  In i (mask_select (map f rows) (map g rows)) <->
  exists r, In r rows /\ f r = i /\ g r = true.
Proof.
  induction rows as [|r rows IH]; cbn [map mask_select].
  - split; [intros [] | intros (r & [] & _)].
  - destruct (g r) eqn:G.
    + cbn [In]. rewrite IH. split.
      * intros [E | (r' & Hin & E & G')]; [exists r | exists r']; simpl; auto.
      * intros (r' & [-> | Hin] & E & G'); [now left | right; eauto].
    + rewrite IH. split.
      * intros (r' & Hin & E & G'). exists r'. simpl. auto.
      * intros (r' & [-> | Hin] & E & G'); [congruence | eauto].
Qed.

Lemma narrow_by_column_scalar (net : pp_net) (parameters : list (string * value))
    (idx : list Z) (k : string) (s : scalar) (w : world) :
  lookup k parameters = Some (VScalar s) ->
  exists idx',
    narrow_by_column net parameters idx k w = (Ok idx', w)
    /\ forall i, In i idx' <->
         In i idx /\ exists r, In r (ct_rows (controller net)) /\ row_index r = i
                               /\ cell_eq (row_cell r k) s = true.
Proof.
  intros Hk. unfold narrow_by_column, bind, lift, ret, getitem. rewrite Hk.
  cbn [series_eq]. eexists. split; [reflexivity|].
  intros i. rewrite in_intersection. unfold ctrl_index_of, series.
  rewrite map_map. now rewrite mask_select_rows.
Qed.

Lemma column_fold (net : pp_net) (parameters : list (string * value)) :
  forall (ks : list string) (idx : list Z) (w : world),
    (forall k, In k ks -> exists s, lookup k parameters = Some (VScalar s)) ->
    exists idx',
      foldM (narrow_by_column net parameters) ks idx w = (Ok idx', w)
      /\ forall i, In i idx' <->
           In i idx
           /\ forall k, In k ks ->
                exists r s, In r (ct_rows (controller net)) /\ row_index r = i
                            /\ lookup k parameters = Some (VScalar s)
                            /\ cell_eq (row_cell r k) s = true.
Proof.
  induction ks as [|k ks IH]; intros idx w Hks.
  - exists idx. split; [reflexivity|]. intros i. split; [|tauto].
    intros H. split; [assumption | intros k []].
  - destruct (Hks k (or_introl eq_refl)) as [s Hs].
    destruct (narrow_by_column_scalar net parameters idx k w Hs) as (idx1 & E1 & H1).
    destruct (IH idx1 w (fun k' Hk' => Hks k' (or_intror Hk'))) as (idx2 & E2 & H2).
    exists idx2. split.
    + cbn [foldM]. unfold bind. now rewrite E1.
    + intros i. rewrite H2, H1. split.
      * intros [[Hi (r & Hr & Er & Hc)] Hrest]. split; [assumption|].
        intros k' [<- | Hk']; [exists r, s; auto | now apply Hrest].
      * intros [Hi Hall]. split; [split; [assumption|] |].
        -- destruct (Hall k (or_introl eq_refl)) as (r & s' & Hr & Er & Hl & Hc).
           rewrite Hs in Hl. injection Hl as <-. eauto.
        -- intros k' Hk'. apply Hall. now right.
Qed.

Lemma foldM_narrow_incl (net : pp_net) (parameters : list (string * value)) :
  forall (ks : list string) (idx : list Z) (w : world) (idx' : list Z) (w' : world),
    foldM (narrow_by_column net parameters) ks idx w = (Ok idx', w') -> incl idx' idx.
Proof.
  induction ks as [|k ks IH]; intros idx w idx' w'; cbn [foldM].
  - intros [= <- _]. apply incl_refl.
  - unfold bind at 1.
    destruct (narrow_by_column net parameters idx k w) as [[idx1 | e] w1] eqn:E;
      [|discriminate].
    intros H. apply IH in H. intros i Hi. specialize (H i Hi).
    unfold narrow_by_column, bind, lift, ret in E.
    destruct (getitem parameters k) as [p|]; [|discriminate].
    destruct (series_eq _ p) as [mask|]; [|discriminate].
    injection E as <- _. now apply in_intersection in H.
Qed.

Lemma cell_eq_plain (c : cell) (s : scalar) :
  is_null s = false -> cell_eq c s = py_cell_eq c (VScalar s).
Proof.
  intros Hs. destruct c as [o | x]; [reflexivity|].
  unfold cell_eq, py_cell_eq, direct_equality, pd_eq. cbn [py_eq rbind py_bool].
  rewrite Hs, orb_false_r. destruct x, s; try reflexivity; discriminate.
Qed.

Lemma attributes_dict_part (t : ctrl_table) (parameters : list (string * value)) :
  filter (fun kv => existsb (String.eqb (fst kv))
                      (filter (fun k => negb (existsb (String.eqb k)
                                                (filter (is_column t) (keys parameters))))
                              (keys parameters)))
         parameters
  = attribute_part t parameters.
Proof.
  unfold attribute_part. apply filter_ext_in. intros [k v] Hkv. cbn [fst].
  assert (Hk : In k (keys parameters)) by (apply in_map_iff; now exists (k, v)).
  destruct (is_column t k) eqn:C; cbn [negb].
  - apply not_true_is_false. intros H. apply existsb_exists in H as (k' & Hk' & E).
    apply String.eqb_eq in E. subst k'. apply filter_In in Hk' as [_ Hn].
    apply negb_true_iff in Hn. assert (Hd : existsb (String.eqb k)
      (filter (is_column t) (keys parameters)) = true); [|congruence].
    apply existsb_exists. exists k. split; [|apply String.eqb_refl].
    apply filter_In. now split.
  - apply existsb_exists. exists k. split; [|apply String.eqb_refl].
    apply filter_In. split; [assumption|]. apply negb_true_iff, not_true_is_false.
    intros H. apply existsb_exists in H as (k' & Hk' & E).
    apply String.eqb_eq in E. subst k'. apply filter_In in Hk' as [_ Hc]. congruence.
Qed.

Lemma query_true_value (o : Controller) (d : list (string * value)) (w : world) :
  query_true o d w = query_value o d.
Proof.
  unfold query_true. destruct (query_total o d w) as [logs ->]. cbn [fst].
  now destruct (query_value o d).
Qed.

Lemma query_filter (net : pp_net) (d : list (string * value)) (l : list Z) :
  incl l (ctrl_index_of (controller net)) ->
  forall w, exists logs,
    filterM (fun i => o <- lift (object_at net i) ;; _controller_attributes_query o d) l w =
    (Ok (filter (accepts net (fun o => query_value o d)) l), add_log w logs).
Proof.
  intros Hl. apply filterM_logging. intros i w Hi.
  destruct (object_at_in net i (Hl i Hi)) as (o & E & E').
  destruct (query_total o d w) as [logs Q]. exists logs.
  unfold bind, lift, accepts. now rewrite E, E', Q.
Qed.

Lemma columns_equal_rows (t : ctrl_table) (parameters : list (string * value))
    (r : ctrl_row) :
  NoDup (ctrl_index_of t) -> In r (ct_rows t) ->
  column_values_scalar t parameters = true ->
  (forall k, In k (column_keys t parameters) ->
     exists r' s, In r' (ct_rows t) /\ row_index r' = row_index r
                  /\ lookup k parameters = Some (VScalar s)
                  /\ cell_eq (row_cell r' k) s = true)
  <-> columns_equal t parameters r = true.
Proof.
  intros Hnd Hr Hsc. unfold columns_equal, column_values_scalar in *.
  rewrite forallb_forall in *. split.
  - intros H k Hk. destruct (H k Hk) as (r' & s & Hr' & E & Hl & Hc).
    assert (r' = r) as ->.
    { pose proof (find_row_unique t r' Hnd Hr') as F. rewrite E in F.
      rewrite (find_row_unique t r Hnd Hr) in F. congruence. }
    specialize (Hsc k Hk). rewrite Hl in *. cbn [plain_scalar] in Hsc.
    apply negb_true_iff in Hsc. now rewrite <- cell_eq_plain.
  - intros H k Hk. specialize (H k Hk). specialize (Hsc k Hk).
    destruct (lookup k parameters) as [[s | l | l]|]; try discriminate.
    cbn [plain_scalar] in Hsc. apply negb_true_iff in Hsc.
    exists r, s. rewrite cell_eq_plain by assumption. auto.
Qed.

Lemma column_keys_scalar (t : ctrl_table) (parameters : list (string * value)) :
  column_values_scalar t parameters = true ->
  forall k, In k (column_keys t parameters) ->
            exists s, lookup k parameters = Some (VScalar s).
Proof.
  unfold column_values_scalar. rewrite forallb_forall. intros H k Hk.
  specialize (H k Hk).
  assert (Hin : In k (keys parameters)) by (apply filter_In in Hk; tauto).
  destruct (lookup_keys parameters k Hin) as [v Hv]. rewrite Hv in *.
  destruct v; try discriminate. eauto.
Qed.

(** The query of [get_controller_index], for scalar values under the
    column keys. *)
Lemma get_controller_index_selected (w : world) (ctrl_type : option type_spec)
    (parameters : list (string * value)) (idx : list Z) :
  NoDup (ctrl_index_of (controller (w_net w))) ->
  incl idx (ctrl_index_of (controller (w_net w))) ->
  column_values_scalar (controller (w_net w)) parameters = true ->
  exists l logs,
    get_controller_index ctrl_type (Some parameters) idx w = (Ok l, add_log w logs)
    /\ query_spec w ctrl_type parameters idx l.
Proof.
  intros Hnd Hidx Hsc. set (net := w_net w). set (t := controller net).
  pose proof (searched_incl _ Hidx) as Hs. fold net in Hs.
  destruct (column_fold net parameters (column_keys t parameters)
              (filter (accepts net (type_matches ctrl_type)) (searched net idx)) w
              (column_keys_scalar t parameters Hsc)) as (idx2 & E2 & H2).
  assert (Hidx2 : incl idx2 (ctrl_index_of t)).
  { intros i Hi. apply H2 in Hi as [Hi _]. apply filter_In in Hi as [Hi _]. now apply Hs. }
  destruct (query_filter net (attribute_part t parameters) Hidx2 w) as [logs E3].
  exists (filter (accepts net (fun o => query_value o (attribute_part t parameters))) idx2),
    logs.
  split.
  - unfold get_controller_index, bind at 1, get_net. fold net. fold (searched net idx).
    unfold bind at 1. unfold net at 1 2 3. rewrite (narrow_filter ctrl_type w Hidx).
    fold net. fold t. cbn iota. rewrite attributes_dict_part.
    unfold bind at 1. fold (column_keys t parameters). rewrite E2. exact E3.
  - intros i. rewrite filter_In, H2, filter_In. unfold selected. fold net. fold t.
    split.
    + intros [[[Hi Hty] Hcols] Hq]. split; [assumption|].
      destruct (find_row_in t i (Hs i Hi)) as [r F].
      destruct (find_row_some t i F) as [Hr Er]. rewrite F.
      unfold accepts, object_of in Hty, Hq. fold t in Hty, Hq. rewrite F in Hty, Hq.
      cbn [option_map] in Hty, Hq. rewrite Hty, query_true_value, Hq.
      rewrite andb_true_r. cbn [andb].
      apply (columns_equal_rows t parameters r Hnd Hr Hsc).
      intros k Hk. rewrite Er. now apply Hcols.
    + intros [Hi Hsel].
      destruct (find_row_in t i (Hs i Hi)) as [r F].
      destruct (find_row_some t i F) as [Hr Er]. rewrite F in Hsel.
      apply andb_true_iff in Hsel as [Hsel Hq].
      apply andb_true_iff in Hsel as [Hty Hcols].
      rewrite query_true_value in Hq.
      unfold accepts, object_of. fold t. rewrite F. cbn [option_map].
      repeat split; try assumption.
      intros k Hk.
      destruct (proj2 (columns_equal_rows t parameters r Hnd Hr Hsc) Hcols k Hk)
        as (r' & s & H). rewrite Er in H. eauto.
Qed.

(** *** The claim on [get_controller_index] with parameters *)

(** C1 (amended).  On a controller table with distinct labels, for a
    searched index subset of the table and a parameter mapping whose values
    under column keys are scalars other than None, [get_controller_index]
    returns exactly the searched labels that pass the type specifier, whose
    cells equal the values of the mapping under every column key, and on
    whose controller [_controller_attributes_query] returns true for the
    other keys.  The network model is left as it was.  (The table need not
    be non-empty.) *)
Theorem get_controller_index_parameters :
  forall (w : world) (ctrl_type : option type_spec)
         (parameters : list (string * value)) (idx : list Z),
    NoDup (ctrl_index_of (controller (w_net w))) ->
    incl idx (ctrl_index_of (controller (w_net w))) ->
    column_values_scalar (controller (w_net w)) parameters = true ->
    exists l logs,
      get_controller_index ctrl_type (Some parameters) idx w = (Ok l, add_log w logs)
      /\ forall i, In i l <->
           In i (searched (w_net w) idx) /\ selected w ctrl_type parameters i = true.
Proof.
  intros w ctrl_type parameters idx Hnd Hidx Hsc.
  now apply get_controller_index_selected.
Qed.

Lemma fixture_labels_distinct : NoDup (ctrl_index_of (controller (w_net Fixture.start))).
Proof. repeat constructor; simpl; intuition discriminate. Qed.

Lemma get_controller_index_parameters_witness :
  NoDup (ctrl_index_of (controller (w_net Fixture.start)))
  /\ incl [] (ctrl_index_of (controller (w_net Fixture.start)))
  /\ column_values_scalar (controller (w_net Fixture.start)) Positional.in_service_gen = true
  /\ exists l logs,
       get_controller_index None (Some Positional.in_service_gen) [] Fixture.start =
       (Ok l, add_log Fixture.start logs)
       /\ forall i, In i l <->
            In i (searched (w_net Fixture.start) [])
            /\ selected Fixture.start None Positional.in_service_gen i = true.
Proof.
  split; [exact fixture_labels_distinct|].
  split; [apply incl_nil_l|].
  split; [reflexivity|].
  exact (@get_controller_index_parameters Fixture.start None Positional.in_service_gen []
           fixture_labels_distinct (incl_nil_l _) eq_refl).
Defined.

(** C1 as stated fails: a list under a column key is compared with the
    column by position, so both rows are returned although no cell equals
    the list; with a list of another length the comparison raises. *)
Lemma list_under_column_key_by_position :
  get_controller_index None (Some Positional.by_position) [] Fixture.start =
    (Ok [0; 1], Fixture.start)
  /\ selected Fixture.start None Positional.by_position 0 = false
  /\ selected Fixture.start None Positional.by_position 1 = false
  /\ ~ query_spec Fixture.start None Positional.by_position [] [0; 1]
  /\ get_controller_index None (Some Positional.too_long) [] Fixture.start =
    (Raise ValueError, Fixture.start).
Proof.
  split; [reflexivity|]. split; [reflexivity|]. split; [reflexivity|].
  split; [|reflexivity].
  intros H. destruct (proj1 (H 0) (or_introl eq_refl)) as [_ Hsel]. discriminate.
Qed.

(** None under a column key selects no row, even where the cell is null:
    an element-wise comparison with a missing value is false. *)
Lemma none_under_column_key :
  get_controller_index None (Some Positional.recycle_none) [] Fixture.start =
    (Ok [], Fixture.start)
  /\ selected Fixture.start None Positional.recycle_none 0 = true
  /\ selected Fixture.start None Positional.recycle_none 1 = true.
Proof. repeat split. Qed.

(** *** The claim on an empty [idx] *)

(** C10.  An empty [idx] is no restriction: the whole controller table is
    searched.  On [idx = []] the two type queries return exactly the labels
    of the table whose controller passes the test, [get_controller_index]
    without parameters returns exactly the labels of the table whose
    controller passes the type specifier, every label of the table when
    there is none, and with parameters whose values under column keys are
    scalars other than None it returns exactly the labels of the table that
    the query selects.  Each of the three functions returns, and logs, on
    [idx = []] what it does on the full index of the controller table. *)
Theorem empty_idx_is_full_index :
  forall (w : world) (ctrl_type : string) (typename : string) (case_sensitive : bool)
         (spec : option type_spec) (parameters : option (list (string * value))),
    let index := ctrl_index_of (controller (w_net w)) in
    get_controller_index_by_type ctrl_type [] w =
      (Ok (filter (accepts (w_net w) (fun o => isinstance o ctrl_type)) index), w)
    /\ get_controller_index_by_typename typename [] case_sensitive w =
      (Ok (filter (accepts (w_net w) (typename_matches case_sensitive typename)) index), w)
    /\ get_controller_index spec None [] w =
      (Ok (filter (accepts (w_net w) (type_matches spec)) index), w)
    /\ get_controller_index None None [] w = (Ok index, w)
    /\ (forall ps : list (string * value),
          NoDup index ->
          column_values_scalar (controller (w_net w)) ps = true ->
          exists l logs,
            get_controller_index spec (Some ps) [] w = (Ok l, add_log w logs)
            /\ forall i, In i l <-> In i index /\ selected w spec ps i = true)
    /\ get_controller_index_by_type ctrl_type [] w =
      get_controller_index_by_type ctrl_type index w
    /\ get_controller_index_by_typename typename [] case_sensitive w =
      get_controller_index_by_typename typename index case_sensitive w
    /\ get_controller_index spec parameters [] w =
      get_controller_index spec parameters index w.
Proof.
  intros w ctrl_type typename case_sensitive spec parameters index.
  assert (Hnil : incl [] (ctrl_index_of (controller (w_net w)))) by apply incl_nil_l.
  split; [exact (by_type_filter ctrl_type w Hnil)|].
  split; [exact (by_typename_filter typename case_sensitive w Hnil)|].
  split.
  { unfold get_controller_index, bind at 1, get_net. fold (searched (w_net w) []).
    unfold bind. rewrite (narrow_filter spec w Hnil). reflexivity. }
  split; [reflexivity|].
  split.
  { intros ps Hnd Hsc.
    destruct (@get_controller_index_selected w spec ps [] Hnd Hnil Hsc)
      as (l & logs & E & S).
    exists l, logs. split; [exact E | exact S]. }
  unfold get_controller_index_by_type, get_controller_index_by_typename,
    get_controller_index, bind at 1 3 5 7 9 11, get_net.
  cbn [nonempty List.length Nat.eqb negb]. fold index.
  destruct (nonempty index); repeat split.
Qed.

(** ** The labels that a query returns *)

Lemma accept_filter_incl (net : pp_net) (f : Controller -> bool) (l : list Z)
    (w : world) (l' : list Z) (w' : world) :
  filterM (fun i => o <- lift (object_at net i) ;; ret (f o)) l w = (Ok l', w') ->
  incl l' l.
Proof. apply filterM_incl. Qed.

Lemma narrow_incl (ctrl_type : option type_spec) (idx : list Z) (w : world)
    (l : list Z) (w' : world) :
  narrow_by_type ctrl_type (searched (w_net w) idx) w = (Ok l, w') ->
  incl l (searched (w_net w) idx).
Proof.
  unfold narrow_by_type. destruct ctrl_type as [[typename | cls]|].
  - unfold get_controller_index_by_typename, bind at 1, get_net.
    rewrite searched_idem. apply filterM_incl.
  - unfold get_controller_index_by_type, bind at 1, get_net.
    rewrite searched_idem. apply filterM_incl.
  - intros [= <- _]. apply incl_refl.
Qed.

Lemma get_controller_index_incl (ctrl_type : option type_spec)
    (parameters : option (list (string * value))) (idx : list Z)
    (w : world) (l : list Z) (w' : world) :
  get_controller_index ctrl_type parameters idx w = (Ok l, w') ->
  incl l (searched (w_net w) idx).
Proof.
  unfold get_controller_index, bind at 1, get_net. fold (searched (w_net w) idx).
  unfold bind at 1.
  destruct (narrow_by_type ctrl_type (searched (w_net w) idx) w) as [[idx1 | e] w1] eqn:N;
    [|discriminate].
  apply narrow_incl in N.
  destruct parameters as [parameters|].
  - unfold bind at 1.
    destruct (foldM _ _ idx1 w1) as [[idx2 | e] w2] eqn:F; [|discriminate].
    apply foldM_narrow_incl in F. intros H. apply filterM_incl in H.
    intros i Hi. auto.
  - intros [= <- _]. assumption.
Qed.

Lemma filter_no_labels (rows : list ctrl_row) :
  filter (fun r => negb (memZ (row_index r) [])) rows = rows.
Proof. apply forallb_filter_id, forallb_forall. reflexivity. Qed.

(** *** The claim on [drop_same_type_existing_controllers] *)

(** C7.  With a [matching_params] dictionary, whenever the query for the
    given type and parameters returns the labels [l], the call removes from
    the controller table exactly the rows labelled in [l]: the rows kept are
    the other rows, unchanged and in their order, and the columns and the
    other tables are as before.  When the query raises, so does the call,
    with the network model as the query left it.  Without [matching_params]
    nothing is searched: the call only logs one info line. *)
Theorem drop_same_type_removes_matches :
  forall (w : world) (this_ctrl_type : option type_spec) (index : option Z),
    (forall (matching_params : list (string * value)) (l : list Z) (w1 : world),
       get_controller_index this_ctrl_type (Some matching_params) [] w = (Ok l, w1) ->
       exists w2,
         drop_same_type_existing_controllers this_ctrl_type index (Some matching_params) w
         = (Ok tt, w2)
         /\ ct_rows (controller (w_net w2))
            = filter (fun r => negb (memZ (row_index r) l)) (ct_rows (controller (w_net w)))
         /\ ct_columns (controller (w_net w2)) = ct_columns (controller (w_net w))
         /\ trafo (w_net w2) = trafo (w_net w)
         /\ trafo3w (w_net w2) = trafo3w (w_net w)
         /\ characteristic (w_net w2) = characteristic (w_net w))
    /\ (forall (matching_params : list (string * value)) (e : exn) (w1 : world),
          get_controller_index this_ctrl_type (Some matching_params) [] w = (Raise e, w1) ->
          drop_same_type_existing_controllers this_ctrl_type index (Some matching_params) w
          = (Raise e, w1)
          /\ w_net w1 = w_net w)
    /\ drop_same_type_existing_controllers this_ctrl_type index None w
       = (Ok tt, add_log w [info (CreatingNoDrop index this_ctrl_type)]).
Proof.
  intros w this_ctrl_type index. split; [|split; [|reflexivity]].
  - intros matching_params l w1 H.
    pose proof (preserving_get_controller_index _ _ _ _ H) as Hnet.
    pose proof (get_controller_index_incl _ _ _ _ H) as Hincl.
    rewrite searched_nil in Hincl.
    unfold drop_same_type_existing_controllers, bind at 1. rewrite H.
    unfold when. destruct (nonempty l) eqn:Hl.
    + unfold bind at 1, drop, bind at 1, get_net. rewrite Hnet.
      assert (Hall : forallb (fun i => memZ i (ctrl_index_of (controller (w_net w)))) l
                     = true).
      { apply forallb_forall. intros i Hi. apply memZ_In. now apply Hincl. }
      rewrite Hall. eexists. split; [reflexivity|]. cbn. repeat split.
    + exists w1. split; [reflexivity|]. rewrite Hnet.
      destruct l; [|discriminate]. rewrite filter_no_labels. repeat split.
  - intros matching_params e w1 H. split.
    + unfold drop_same_type_existing_controllers, bind at 1. now rewrite H.
    + exact (preserving_get_controller_index _ _ _ _ H).
Qed.

Lemma drop_same_type_removes_matches_witness :
  get_controller_index (Some (TypeName "ConstControl"))
    (Some [("element", VScalar (SStr "gen"))]) [] Fixture.start = (Ok [0], Fixture.start)
  /\ exists w2,
       drop_same_type_existing_controllers (Some (TypeName "ConstControl")) (Some 2)
         (Some [("element", VScalar (SStr "gen"))]) Fixture.start = (Ok tt, w2)
       /\ ct_rows (controller (w_net w2))
          = filter (fun r => negb (memZ (row_index r) [0]))
                   (ct_rows (controller (w_net Fixture.start)))
       /\ ct_columns (controller (w_net w2)) = ct_columns (controller (w_net Fixture.start))
       /\ trafo (w_net w2) = trafo (w_net Fixture.start)
       /\ trafo3w (w_net w2) = trafo3w (w_net Fixture.start)
       /\ characteristic (w_net w2) = characteristic (w_net Fixture.start).
Proof.
  split; [reflexivity|].
  exact (proj1 (drop_same_type_removes_matches Fixture.start
                  (Some (TypeName "ConstControl")) (Some 2))
               [("element", VScalar (SStr "gen"))] [0] Fixture.start eq_refl).
Defined.

(** ** Tables, columns and the registry *)

Lemma net_table_set_table (net : pp_net) (t : trafotable) (tbl : trafo_table) :
  net_table (set_table net t tbl) t = tbl.
Proof. now destruct t. Qed.

Lemma characteristic_set_table (net : pp_net) (t : trafotable) (tbl : trafo_table) :
  characteristic (set_table net t tbl) = characteristic net.
Proof. now destruct t. Qed.

Lemma lookup_dict_set {V} (k : string) (v : V) (d : list (string * V)) :
  lookup k (dict_set k v d) = Some v.
Proof.
  induction d as [|[k' v'] d IH]; simpl.
  - now rewrite String.eqb_refl.
  - destruct (String.eqb k' k) eqn:E; simpl; now rewrite E.
Qed.



Lemma get_free_id_snoc (registry : list (Z * Characteristic)) (c : Characteristic) :
  get_free_id (registry ++ [(get_free_id registry, c)]) = get_free_id registry + 1.
Proof.
  destruct registry as [|[j c'] r]; [reflexivity|].
  cbn [get_free_id app]. rewrite map_app, fold_left_app. cbn [map fst fold_left].
  lia.
Qed.

Lemma new_ids_S (id0 : Z) (n : nat) : new_ids id0 (S n) = id0 :: new_ids (id0 + 1) n.
Proof.
  unfold new_ids. cbn [seq map]. rewrite <- seq_shift, map_map.
  f_equal; [lia|]. apply map_ext. intros j. lia.
Qed.

Lemma new_ids_length (id0 : Z) (n : nat) : List.length (new_ids id0 n) = n.
Proof. unfold new_ids. now rewrite length_map, length_seq. Qed.

Lemma in_new_ids (id0 : Z) (n : nat) (i : Z) :
  In i (new_ids id0 n) <-> exists j, (j < n)%nat /\ i = id0 + Z.of_nat j.
Proof.
  unfold new_ids. rewrite in_map_iff. split.
  - intros (j & <- & Hj). apply in_seq in Hj. exists j. split; [lia | reflexivity].
  - intros (j & Hj & ->). exists j. split; [reflexivity | apply in_seq; lia].
Qed.


(** *** The entries written by the loop *)

Lemma writes_untouched (zs : list (Z * list Q * list Q)) :
  forall (id0 : Z) (f : Z -> option Z) (i : Z),
    ~ In i (map triple_tid zs) -> writes zs id0 f i = f i.
Proof.
  induction zs as [|z zs IH]; intros id0 f i Hi; [reflexivity|].
  cbn [writes]. rewrite IH by (intros H; apply Hi; now right).
  destruct (Z.eqb i (triple_tid z)) eqn:E; [|reflexivity].
  apply Z.eqb_eq in E. exfalso. apply Hi. now left.
Qed.


(** *** One iteration of the loop and the whole loop *)

Lemma create_one_spec (t : trafotable) (col : string) (z : Z * list Q * list Q)
    (w : world) (c : column) :
  get_column (net_table (w_net w) t) col = Some c ->
  In (triple_tid z) (tt_index (net_table (w_net w) t)) ->
  exists w',
    create_one t col z w = (Ok tt, w')
    /\ characteristic (w_net w') =
       (characteristic (w_net w)
          ++ [(get_free_id (characteristic (w_net w)), spline_of z)])%list
    /\ tt_index (net_table (w_net w') t) = tt_index (net_table (w_net w) t)
    /\ tt_tap_dependent_impedance (net_table (w_net w') t) =
       tt_tap_dependent_impedance (net_table (w_net w) t)
    /\ get_column (net_table (w_net w') t) col =
       Some {| col_dtype := col_dtype c;
               col_at := fun i => if Z.eqb i (triple_tid z)
                                  then Some (get_free_id (characteristic (w_net w)))
                                  else col_at c i |}
    /\ controller (w_net w') = controller (w_net w)
    /\ w_log w' = w_log w.
Proof.
  destruct z as [[tid x_p] y_p]. intros Hc Hin.
  apply memZ_In in Hin. cbn [triple_tid fst] in *.
  unfold create_one, add_to_net, at_set, bind, get_net, put_net, ret.
  cbn [w_net w_log]. eexists. split; [reflexivity|]. cbn [w_net w_log].
  rewrite !net_table_set_table, !characteristic_set_table.
  destruct t; cbn [net_table set_characteristic set_table trafo trafo3w characteristic
                    controller tt_index tt_tap_dependent_impedance tt_columns] in *;
    rewrite Hin; unfold get_column in *; cbn [tt_columns];
    rewrite lookup_dict_set, Hc; repeat split.
Qed.

Lemma create_loop_spec (t : trafotable) (col : string) :
  forall (zs : list (Z * list Q * list Q)) (w : world) (c : column),
    get_column (net_table (w_net w) t) col = Some c ->
    (forall z, In z zs -> In (triple_tid z) (tt_index (net_table (w_net w) t))) ->
    exists w',
      forM_ (create_one t col) zs w = (Ok tt, w')
      /\ characteristic (w_net w') =
         (characteristic (w_net w)
            ++ combine (new_ids (get_free_id (characteristic (w_net w))) (List.length zs))
                       (map spline_of zs))%list
      /\ get_free_id (characteristic (w_net w')) =
         get_free_id (characteristic (w_net w)) + Z.of_nat (List.length zs)
      /\ tt_index (net_table (w_net w') t) = tt_index (net_table (w_net w) t)
      /\ tt_tap_dependent_impedance (net_table (w_net w') t) =
         tt_tap_dependent_impedance (net_table (w_net w) t)
      /\ get_column (net_table (w_net w') t) col =
         Some {| col_dtype := col_dtype c;
                 col_at := writes zs (get_free_id (characteristic (w_net w))) (col_at c) |}
      /\ controller (w_net w') = controller (w_net w)
      /\ w_log w' = w_log w.
Proof.
  induction zs as [|z zs IH]; intros w c Hc Hin.
  - exists w. cbn [forM_ List.length new_ids map combine writes seq].
    rewrite app_nil_r, Z.add_0_r. destruct c. repeat split; assumption.
  - destruct (create_one_spec t col z w Hc (Hin z (or_introl eq_refl)))
      as (w1 & E1 & Hreg1 & Hidx1 & Hflag1 & Hcol1 & Hctrl1 & Hlog1).
    assert (Hin1 : forall z', In z' zs ->
                              In (triple_tid z') (tt_index (net_table (w_net w1) t))).
    { intros z' Hz'. rewrite Hidx1. apply Hin. now right. }
    destruct (IH w1 _ Hcol1 Hin1)
      as (w' & E & Hreg & Hfree & Hidx & Hflag & Hcol & Hctrl & Hlog).
    assert (Hnext : get_free_id (characteristic (w_net w1)) =
                    get_free_id (characteristic (w_net w)) + 1)
      by (rewrite Hreg1; apply get_free_id_snoc).
    exists w'. cbn [forM_]. unfold bind. rewrite E1. split; [exact E|].
    rewrite Hfree, Hreg, Hidx, Hflag, Hcol, Hctrl, Hlog, Hnext, Hreg1.
    cbn [List.length map]. rewrite new_ids_S. cbn [combine writes col_dtype col_at].
    rewrite <- app_assoc. cbn [app].
    repeat split; try assumption. lia.
Qed.


Lemma in_zip3_tid (a : list Z) (b c : list (list Q)) (z : Z * list Q * list Q) :
  In z (zip3 a b c) -> In (triple_tid z) a.
Proof.
  revert b c. induction a as [|x a IH]; intros [|y b] [|y' c]; cbn [zip3 In]; try tauto.
  intros [<- | H]; [now left | right; eauto].
Qed.

Lemma zip3_tids (a : list Z) (b c : list (list Q)) :
  List.length a = List.length b -> List.length a = List.length c ->
  map triple_tid (zip3 a b c) = a.
Proof.
  revert b c. induction a as [|x a IH]; intros [|y b] [|y' c]; cbn; try discriminate;
    [reflexivity|].
  intros [= H1] [= H2]. f_equal. now apply IH.
Qed.

(** *** What precedes the loop *)

Lemma prepare_columns_ok (t : trafotable) (trafo_index : list Z) (col : string)
    (w : world) :
  forallb (fun l => memZ l (tt_index (net_table (w_net w) t))) trafo_index = true ->
  exists w0 f c,
    prepare_columns t trafo_index col w = (Ok tt, w0)
    /\ tt_index (net_table (w_net w0) t) = tt_index (net_table (w_net w) t)
    /\ tt_tap_dependent_impedance (net_table (w_net w0) t) = Some f
    /\ (forall i, f i = if memZ i trafo_index then true
                        else flag_at (net_table (w_net w) t) i)
    /\ get_column (net_table (w_net w0) t) col = Some c
    /\ col_dtype c = dtype_object
    /\ (forall i, col_at c i = cell_at (w_net w) t col i)
    /\ characteristic (w_net w0) = characteristic (w_net w)
    /\ controller (w_net w0) = controller (w_net w)
    /\ w_log w0 = w_log w.
Proof.
  destruct w as [[ctrl tr tr3 reg] log].
  unfold prepare_columns, ensure_flag_column, loc_set_flag, ensure_object_column,
    bind, get_net, put_net, ret, raise, cell_at, flag_at, get_column.
  destruct t; cbn [w_net w_log net_table trafo trafo3w];
    [destruct tr as [idx flag cols] | destruct tr3 as [idx flag cols]];
    cbn [tt_index tt_tap_dependent_impedance tt_columns];
    intros Hall;
    destruct flag as [f0|];
    cbn [w_net w_log net_table set_table set_flag_column set_column trafo trafo3w
         tt_index tt_tap_dependent_impedance tt_columns characteristic controller];
    rewrite Hall;
    cbn [w_net w_log net_table set_table set_flag_column set_column trafo trafo3w
         tt_index tt_tap_dependent_impedance tt_columns characteristic controller];
    destruct (lookup col cols) as [[d g]|] eqn:Hc;
    try destruct d;
    cbn [w_net w_log net_table set_table set_flag_column set_column trafo trafo3w
         tt_index tt_tap_dependent_impedance tt_columns characteristic controller
         col_dtype col_at dtype_is_object negb];
    do 3 eexists; (split; [reflexivity|]);
    cbn [w_net w_log net_table set_table set_flag_column set_column trafo trafo3w
         tt_index tt_tap_dependent_impedance tt_columns characteristic controller
         col_dtype col_at];
    rewrite ?lookup_dict_set, ?Hc; repeat split.
Qed.

Lemma prepare_columns_fail (t : trafotable) (trafo_index : list Z) (col : string)
    (w : world) :
  forallb (fun l => memZ l (tt_index (net_table (w_net w) t))) trafo_index = false ->
  exists w1, prepare_columns t trafo_index col w = (Raise KeyError, w1).
Proof.
  destruct w as [[ctrl tr tr3 reg] log].
  unfold prepare_columns, ensure_flag_column, loc_set_flag,
    bind, get_net, put_net, ret, raise.
  destruct t; cbn [w_net w_log net_table trafo trafo3w];
    [destruct tr as [idx flag cols] | destruct tr3 as [idx flag cols]];
    cbn [tt_index tt_tap_dependent_impedance tt_columns];
    intros Hall;
    destruct flag as [f0|];
    cbn [w_net w_log net_table set_table set_flag_column trafo trafo3w
         tt_index tt_tap_dependent_impedance tt_columns];
    rewrite Hall; eexists; reflexivity.
Qed.

(** ** The validation error *)

Lemma nuw_ret {A} (a : A) : no_user_warning (ret a).
Proof. intros w. discriminate. Qed.

Lemma nuw_get_net : no_user_warning get_net.
Proof. intros w. discriminate. Qed.

Lemma nuw_put_net (net : pp_net) : no_user_warning (put_net net).
Proof. intros w. discriminate. Qed.

Lemma nuw_logger (l : level) (m : message) : no_user_warning (logger l m).
Proof. intros w. discriminate. Qed.

Lemma nuw_lift {A} (r : res A) : r <> Raise UserWarning -> no_user_warning (lift r).
Proof. intros H w. exact H. Qed.

Lemma nuw_raise {A} (e : exn) : e <> UserWarning -> no_user_warning (@raise A e).
Proof. intros H w. cbn. congruence. Qed.

Lemma nuw_bind {A B} (c : M A) (k : A -> M B) :
  no_user_warning c -> (forall a, no_user_warning (k a)) -> no_user_warning (bind c k).
Proof.
  intros Hc Hk w. unfold bind. specialize (Hc w).
  destruct (c w) as [[a | e] w1]; [apply Hk|].
  cbn in *. intros [= ->]. now apply Hc.
Qed.

Lemma nuw_when (b : bool) (c : M unit) : no_user_warning c -> no_user_warning (when b c).
Proof. destruct b; [trivial | intros _; apply nuw_ret]. Qed.

Lemma nuw_filterM {A} (p : A -> M bool) (l : list A) :
  (forall x, no_user_warning (p x)) -> no_user_warning (filterM p l).
Proof.
  intros H. induction l as [|x l IH]; cbn [filterM]; [apply nuw_ret|].
  apply nuw_bind; [apply H | intros b].
  apply nuw_bind; [apply IH | intros r; apply nuw_ret].
Qed.

Lemma nuw_foldM {A B} (f : B -> A -> M B) (l : list A) :
  (forall b x, no_user_warning (f b x)) -> forall acc, no_user_warning (foldM f l acc).
Proof.
  intros H. induction l as [|x l IH]; intros acc; cbn [foldM]; [apply nuw_ret|].
  apply nuw_bind; [apply H | apply IH].
Qed.

Lemma nuw_forM_ {A} (f : A -> M unit) (l : list A) :
  (forall x, no_user_warning (f x)) -> no_user_warning (forM_ f l).
Proof.
  intros H. induction l as [|x l IH]; cbn [forM_]; [apply nuw_ret|].
  apply nuw_bind; [apply H | intros _; apply IH].
Qed.

Lemma object_at_not_warning (net : pp_net) (i : Z) : object_at net i <> Raise UserWarning.
Proof. unfold object_at. destruct (find_row _ _); discriminate. Qed.

Lemma getitem_not_warning (d : list (string * value)) (k : string) :
  getitem d k <> Raise UserWarning.
Proof. unfold getitem. destruct (lookup _ _); discriminate. Qed.

Lemma getattribute_not_warning (c : Controller) (k : string) :
  getattribute c k <> Raise UserWarning.
Proof. unfold getattribute. destruct (lookup _ _); discriminate. Qed.

Lemma attr_match_not_warning (a p : value) : attr_match a p <> Raise UserWarning.
Proof. rewrite attr_match_ok. discriminate. Qed.

Lemma series_eq_not_warning (cells : list cell) (v : value) :
  series_eq cells v <> Raise UserWarning.
Proof. destruct v; cbn; try destruct (Nat.eqb _ _); discriminate. Qed.

Create HintDb nuw.
#[export] Hint Resolve nuw_ret nuw_get_net nuw_put_net nuw_logger nuw_when
  object_at_not_warning getitem_not_warning getattribute_not_warning
  attr_match_not_warning series_eq_not_warning : nuw.

Ltac no_warning :=
  repeat first
    [ apply nuw_bind; [|intros ?]
    | apply nuw_filterM; intros ?
    | apply nuw_foldM; intros ? ?
    | apply nuw_forM_; intros ?
    | apply nuw_lift; solve [auto with nuw]
    | apply nuw_raise; discriminate
    | solve [auto with nuw]
    | match goal with
      | |- no_user_warning (if ?b then _ else _) => destruct b
      | |- no_user_warning (match ?x with _ => _ end) => destruct x
      | |- no_user_warning (let '(_, _) := ?x in _) => destruct x
      end ].

Lemma nuw_query (controller : Controller) (parameters : list (string * value)) :
  no_user_warning (_controller_attributes_query controller parameters).
Proof.
  intros w. destruct (query_total controller parameters w) as [logs ->]. discriminate.
Qed.

Lemma nuw_by_type (ctrl_type : string) (idx : list Z) :
  no_user_warning (get_controller_index_by_type ctrl_type idx).
Proof. unfold get_controller_index_by_type. no_warning. Qed.

Lemma nuw_by_typename (typename : string) (idx : list Z) (case_sensitive : bool) :
  no_user_warning (get_controller_index_by_typename typename idx case_sensitive).
Proof. unfold get_controller_index_by_typename. no_warning. Qed.

Lemma nuw_get_controller_index (ctrl_type : option type_spec)
    (parameters : option (list (string * value))) (idx : list Z) :
  no_user_warning (get_controller_index ctrl_type parameters idx).
Proof.
  unfold get_controller_index.
  apply nuw_bind; [apply nuw_get_net | intros net].
  apply nuw_bind.
  - unfold narrow_by_type. destruct ctrl_type as [[typename | cls]|];
      [apply nuw_by_typename | apply nuw_by_type | apply nuw_ret].
  - intros idx1. destruct parameters as [parameters|]; [|apply nuw_ret].
    apply nuw_bind.
    + apply nuw_foldM. intros acc k. unfold narrow_by_column. no_warning.
    + intros idx2. apply nuw_filterM. intros i.
      apply nuw_bind; [apply nuw_lift; auto with nuw | intros o; apply nuw_query].
Qed.

Lemma nuw_log_same_type (this_ctrl_type : option type_spec) (index : option Z)
    (matching_params : option (list (string * value))) :
  no_user_warning (log_same_type_existing_controllers this_ctrl_type index matching_params).
Proof.
  unfold log_same_type_existing_controllers. destruct matching_params as [ps|].
  - apply nuw_bind; [apply nuw_get_controller_index | intros same; no_warning].
  - no_warning.
Qed.

Lemma nuw_drop_same_type (this_ctrl_type : option type_spec) (index : option Z)
    (matching_params : option (list (string * value))) :
  no_user_warning (drop_same_type_existing_controllers this_ctrl_type index matching_params).
Proof.
  unfold drop_same_type_existing_controllers. destruct matching_params as [ps|].
  - apply nuw_bind; [apply nuw_get_controller_index | intros same].
    apply nuw_when. unfold drop. no_warning.
  - no_warning.
Qed.

Lemma nuw_diagnostic : no_user_warning trafo_characteristics_diagnostic.
Proof.
  unfold trafo_characteristics_diagnostic, check_table, check_column. no_warning.
Qed.

Lemma nuw_create_body (t : trafotable) (trafo_index : list Z) (col : string)
    (zs : list (Z * list Q * list Q)) :
  no_user_warning (prepare_columns t trafo_index col ;; forM_ (create_one t col) zs).
Proof.
  unfold prepare_columns, ensure_flag_column, loc_set_flag, ensure_object_column,
    create_one, add_to_net, at_set.
  no_warning.
Qed.

Lemma lengths_differ (a b c : nat) :
  negb (Nat.eqb a b) || negb (Nat.eqb a c) = true <-> ~ (a = b /\ a = c).
Proof.
  rewrite orb_true_iff, !negb_true_iff, !Nat.eqb_neq. lia.
Qed.

(** *** The claim on the validation error *)

(** C3.  [create_trafo_characteristics] raises the validation error
    (UserWarning) exactly when the lengths of [trafo_index], [x_points] and
    [y_points] are not all equal, and then the network model and the log
    are exactly as before the call.  No other function of the module raises
    that error. *)
Theorem create_trafo_characteristics_validation :
  forall (w : world) (t : trafotable) (trafo_index : list Z) (variable : string)
         (x_points y_points : list (list Q)),
    (fst (create_trafo_characteristics t trafo_index variable x_points y_points w)
       = Raise UserWarning
     <-> ~ (List.length trafo_index = List.length x_points
            /\ List.length trafo_index = List.length y_points))
    /\ (fst (create_trafo_characteristics t trafo_index variable x_points y_points w)
          = Raise UserWarning ->
        snd (create_trafo_characteristics t trafo_index variable x_points y_points w) = w)
    /\ (forall controller parameters,
          no_user_warning (_controller_attributes_query controller parameters))
    /\ (forall ctrl_type idx, no_user_warning (get_controller_index_by_type ctrl_type idx))
    /\ (forall typename idx case_sensitive,
          no_user_warning (get_controller_index_by_typename typename idx case_sensitive))
    /\ (forall ctrl_type parameters idx,
          no_user_warning (get_controller_index ctrl_type parameters idx))
    /\ (forall this_ctrl_type index matching_params,
          no_user_warning
            (log_same_type_existing_controllers this_ctrl_type index matching_params))
    /\ (forall this_ctrl_type index matching_params,
          no_user_warning
            (drop_same_type_existing_controllers this_ctrl_type index matching_params))
    /\ no_user_warning trafo_characteristics_diagnostic.
Proof.
  intros w t trafo_index variable x_points y_points.
  assert (Hraise :
    fst (create_trafo_characteristics t trafo_index variable x_points y_points w)
      = Raise UserWarning ->
    negb (Nat.eqb (List.length trafo_index) (List.length x_points))
    || negb (Nat.eqb (List.length trafo_index) (List.length y_points)) = true).
  { unfold create_trafo_characteristics. destruct (_ || _); [reflexivity|].
    intros H. exfalso. exact (nuw_create_body _ _ _ _ w H). }
  split; [split|split].
  - intros H. apply lengths_differ. now apply Hraise.
  - intros H. apply lengths_differ in H. unfold create_trafo_characteristics.
    now rewrite H.
  - intros H. apply Hraise in H. unfold create_trafo_characteristics. now rewrite H.
  - repeat split; intros.
    + apply nuw_query.
    + apply nuw_by_type.
    + apply nuw_by_typename.
    + apply nuw_get_controller_index.
    + apply nuw_log_same_type.
    + apply nuw_drop_same_type.
    + apply nuw_diagnostic.
Qed.

(** ** The effect of [create_trafo_characteristics] *)

Lemma create_runs (t : trafotable) (trafo_index : list Z) (variable : string)
    (x_points y_points : list (list Q)) (w w' : world) :
  create_trafo_characteristics t trafo_index variable x_points y_points w = (Ok tt, w') ->
  List.length trafo_index = List.length x_points
  /\ List.length trafo_index = List.length y_points
  /\ forallb (fun l => memZ l (tt_index (net_table (w_net w) t))) trafo_index = true
  /\ (prepare_columns t trafo_index (characteristic_column variable) ;;
      forM_ (create_one t (characteristic_column variable))
            (zip3 trafo_index x_points y_points)) w = (Ok tt, w').
Proof.
  unfold create_trafo_characteristics.
  destruct (negb _ || negb _) eqn:L; [discriminate|].
  apply orb_false_iff in L as [L1 L2].
  apply negb_false_iff, Nat.eqb_eq in L1. apply negb_false_iff, Nat.eqb_eq in L2.
  intros H. repeat split; try assumption.
  destruct (forallb _ trafo_index) eqn:F; [reflexivity|].
  destruct (prepare_columns_fail t trafo_index (characteristic_column variable) w F)
    as [w1 E].
  unfold bind in H. rewrite E in H. discriminate.
Qed.





(** *** The claim on the effect of [create_trafo_characteristics] *)



(** The example of the specification: both rows are flagged, the column
    holds two distinct ids of the registry, which gained two entries. *)
Lemma create_example :
  let w' := snd (create_trafo_characteristics TTrafo Example.trafo_index "vk_percent"
                   Example.x_points Example.y_points Fixture.start) in
  map (flag_at (trafo (w_net w'))) [1; 3; 7] = [false; true; true]
  /\ map (cell_at (w_net w') TTrafo "vk_percent_characteristic") [1; 3; 7]
     = [None; Some 0; Some 1]
  /\ map fst (characteristic (w_net w')) = [0; 1].
Proof. repeat split. Qed.

(** With the same transformer twice, both characteristics are registered
    and the row keeps the id of the second. *)
Lemma create_twice :
  let w' := snd (create_trafo_characteristics TTrafo Example.twice "vk_percent"
                   Example.x_points Example.y_points Fixture.start) in
  cell_at (w_net w') TTrafo "vk_percent_characteristic" 3 = Some 1
  /\ map fst (characteristic (w_net w')) = [0; 1].
Proof. repeat split. Qed.

(** A transformer that is not in the table: KeyError, after the flag column
    has been created. *)
Lemma create_unknown_transformer :
  let r := create_trafo_characteristics TTrafo [5] "vk_percent" [[0; 1]%Q] [[0; 1]%Q]
             Fixture.start in
  fst r = Raise KeyError
  /\ is_some (tt_tap_dependent_impedance (trafo (w_net (snd r)))) = true.
Proof. repeat split. Qed.

(** ** The diagnostic *)

Lemma check_column_logs (t : trafotable) (mask : Z -> bool) (col : string) (w : world) :
  exists m, check_column t mask col w = (Ok tt, add_log w [info m]).
Proof.
  unfold check_column, bind, get_net.
  destruct (get_column _ col) as [c|]; [|eexists; reflexivity].
  destruct (negb (dtype_is_object _)); [eexists; reflexivity|].
  destruct (existsb _ _); [eexists; reflexivity|].
  destruct (nonempty _); eexists; reflexivity.
Qed.

Lemma check_columns_logs (t : trafotable) (mask : Z -> bool) (cols : list string) :
  forall w, exists logs,
    forM_ (check_column t mask) cols w = (Ok tt, add_log w logs)
    /\ List.length logs = List.length cols
    /\ Forall (fun r => lvl r = INFO) logs.
Proof.
  induction cols as [|col cols IH]; intros w.
  - exists []. now rewrite add_log_nil.
  - destruct (check_column_logs t mask col w) as [m E1].
    destruct (IH (add_log w [info m])) as (l2 & E2 & Hlen & Hinfo).
    exists (info m :: l2). cbn [forM_]. unfold bind. rewrite E1, E2, add_log_app.
    cbn [List.length app]. repeat split; auto.
Qed.

Lemma check_table_logs (t : trafotable) (cols : list string) (w : world) :
  exists logs,
    check_table (t, cols) w = (Ok tt, add_log w logs)
    /\ Forall (fun r => lvl r = INFO) logs
    /\ (no_tap_dependent (net_table (w_net w) t) = true ->
        logs = [info (NoTapDependent (table_name t))])
    /\ (no_tap_dependent (net_table (w_net w) t) = false ->
        exists n rest, logs = info (FoundTapDependent (table_name t) n) :: rest
                       /\ List.length rest = List.length cols).
Proof.
  unfold check_table, bind at 1, get_net, no_tap_dependent.
  destruct (tt_tap_dependent_impedance (net_table (w_net w) t)) as [mask|].
  - destruct (Nat.eqb _ 0 || negb _) eqn:C.
    + eexists. split; [reflexivity|].
      split; [repeat constructor|]. split; [reflexivity | discriminate].
    + destruct (check_columns_logs t mask cols
                  (add_log w [info (FoundTapDependent (table_name t)
                     (List.length (filter mask (tt_index (net_table (w_net w) t)))))]))
        as (rest & E & Hlen & Hinfo).
      eexists. split; [|split; [|split; [discriminate|]]].
      * unfold bind. rewrite logger_add_log.
        fold (info (FoundTapDependent (table_name t)
                (List.length (filter mask (tt_index (net_table (w_net w) t)))))).
        rewrite E, add_log_app. reflexivity.
      * constructor; [reflexivity | assumption].
      * intros _. do 2 eexists. split; [reflexivity | assumption].
  - rewrite orb_true_r. eexists. split; [reflexivity|].
    split; [repeat constructor|]. split; [reflexivity | discriminate].
Qed.

Lemma no_tap_dependent_cases (tbl : trafo_table) :
  no_tap_dependent tbl = true <->
  tt_index tbl = []
  \/ tt_tap_dependent_impedance tbl = None
  \/ (forall i, In i (tt_index tbl) -> flag_at tbl i = false).
Proof.
  unfold no_tap_dependent, flag_at. rewrite orb_true_iff, Nat.eqb_eq, length_zero_iff_nil.
  destruct (tt_tap_dependent_impedance tbl) as [f|].
  - rewrite negb_true_iff. split.
    + intros [E | H]; [now left|]. right. right. intros i Hi.
      apply not_true_is_false. intros Hf.
      assert (Hex : existsb f (tt_index tbl) = true)
        by (apply existsb_exists; eauto).
      congruence.
    + intros [E | [E | H]]; [now left | discriminate |]. right.
      apply not_true_is_false. intros Hex. apply existsb_exists in Hex as (i & Hi & Hf).
      rewrite (H i Hi) in Hf. discriminate.
  - split; auto.
Qed.

(** *** The claim on the diagnostic *)

(** C8.  [trafo_characteristics_diagnostic] returns without raising and
    leaves the network model as it was: it only adds info lines to the log,
    the opening line and then the lines of the iteration for the
    two-winding table and of the iteration for the three-winding table.
    For each of the two tables, when the table is empty, has no
    [tap_dependent_impedance] column or has it false at every row, the only
    line of its iteration is the one saying that no transformer with
    tap-dependent impedance was found: no column is checked. *)
Theorem trafo_characteristics_diagnostic_observational :
  forall w : world,
    exists logs2w logs3w,
      trafo_characteristics_diagnostic w =
      (Ok tt, add_log w (info CheckingTrafoCharacteristics :: logs2w ++ logs3w))
      /\ check_table (TTrafo, cols2w) (add_log w [info CheckingTrafoCharacteristics]) =
         (Ok tt, add_log w (info CheckingTrafoCharacteristics :: logs2w))
      /\ check_table (TTrafo3w, cols3w)
           (add_log w (info CheckingTrafoCharacteristics :: logs2w)) =
         (Ok tt, add_log w (info CheckingTrafoCharacteristics :: logs2w ++ logs3w))
      /\ Forall (fun r => lvl r = INFO) (logs2w ++ logs3w)
      /\ (tt_index (trafo (w_net w)) = []
          \/ tt_tap_dependent_impedance (trafo (w_net w)) = None
          \/ (forall i, In i (tt_index (trafo (w_net w))) ->
                        flag_at (trafo (w_net w)) i = false) ->
          logs2w = [info (NoTapDependent "trafo")])
      /\ (tt_index (trafo3w (w_net w)) = []
          \/ tt_tap_dependent_impedance (trafo3w (w_net w)) = None
          \/ (forall i, In i (tt_index (trafo3w (w_net w))) ->
                        flag_at (trafo3w (w_net w)) i = false) ->
          logs3w = [info (NoTapDependent "trafo3w")]).
Proof.
  intros w.
  set (w1 := add_log w [info CheckingTrafoCharacteristics]).
  destruct (check_table_logs TTrafo cols2w w1) as (l2 & E2 & I2 & S2 & _).
  destruct (check_table_logs TTrafo3w cols3w (add_log w1 l2)) as (l3 & E3 & I3 & S3 & _).
  unfold w1 in E2, E3. rewrite add_log_app in E2. rewrite !add_log_app in E3.
  cbn [app] in E2, E3.
  exists l2, l3. split; [|split; [|split; [|split; [|split]]]].
  - unfold trafo_characteristics_diagnostic, bind at 1. rewrite logger_add_log.
    fold (info CheckingTrafoCharacteristics).
    cbn [forM_]. unfold bind. now rewrite E2, E3.
  - exact E2.
  - exact E3.
  - apply Forall_app. now split.
  - intros H. apply S2. now apply no_tap_dependent_cases.
  - intros H. apply S3. now apply no_tap_dependent_cases.
Qed.

(** ** Further properties of the specification *)






(** X2.  The attribute query is total: it returns a boolean, the conjunction of
    the presence of every key, of the matches of the keys other than
    [element_index] and of the match of [element_index], and it only adds
    log lines. *)
Theorem controller_attributes_query_total :
  forall (controller : Controller) (parameters : list (string * value)) (w : world),
    exists logs,
      _controller_attributes_query controller parameters w =
      (Ok (all_present controller parameters
           && (others_match controller parameters
               && element_index_match controller parameters)),
       add_log w logs).
Proof. intros controller parameters w. exact (query_total controller parameters w). Qed.

Lemma preserving_log_same_type (this_ctrl_type : option type_spec) (index : option Z)
    (matching_params : option (list (string * value))) :
  net_preserving (log_same_type_existing_controllers this_ctrl_type index matching_params).
Proof.
  unfold log_same_type_existing_controllers. destruct matching_params as [ps|].
  - apply preserving_bind; [apply preserving_get_controller_index | intros same].
    auto with preserving.
  - preserve.
Qed.

(** X3.  The logging variant leaves the network model untouched, whatever it
    finds, and so do the three query functions. *)
Theorem queries_leave_network_untouched :
  forall (w : world) (this_ctrl_type : option type_spec) (index : option Z)
         (parameters : option (list (string * value))) (idx : list Z)
         (ctrl_type typename : string) (case_sensitive : bool),
    w_net (snd (log_same_type_existing_controllers this_ctrl_type index parameters w))
      = w_net w
    /\ w_net (snd (get_controller_index this_ctrl_type parameters idx w)) = w_net w
    /\ w_net (snd (get_controller_index_by_type ctrl_type idx w)) = w_net w
    /\ w_net (snd (get_controller_index_by_typename typename idx case_sensitive w))
       = w_net w.
Proof.
  intros w this_ctrl_type index parameters idx ctrl_type typename case_sensitive.
  repeat split.
  - destruct (log_same_type_existing_controllers _ _ _ w) as [r w'] eqn:E.
    exact (preserving_log_same_type _ _ _ _ E).
  - destruct (get_controller_index _ _ _ w) as [r w'] eqn:E.
    exact (preserving_get_controller_index _ _ _ _ E).
  - destruct (get_controller_index_by_type _ _ w) as [r w'] eqn:E.
    exact (preserving_by_type _ _ _ E).
  - destruct (get_controller_index_by_typename _ _ _ w) as [r w'] eqn:E.
    exact (preserving_by_typename _ _ _ _ E).
Qed.

Lemma existsb_mapped {A B} (f : B -> bool) (g : A -> B) (l : list A) :
  existsb f (map g l) = existsb (fun x => f (g x)) l.
Proof. induction l as [|x l IH]; [reflexivity|]. cbn [map existsb]. now rewrite IH. Qed.

Lemma check_column_report (t : trafotable) (mask : Z -> bool) (col : string) (w : world) :
  tt_tap_dependent_impedance (net_table (w_net w) t) = Some mask ->
  check_column t mask col w = (Ok tt, add_log w [info (column_report (w_net w) t col)]).
Proof.
  intros Hflag.
  assert (Hmask : filter (flag_at (net_table (w_net w) t)) (tt_index (net_table (w_net w) t))
                  = filter mask (tt_index (net_table (w_net w) t))).
  { apply filter_ext. intros i. unfold flag_at. now rewrite Hflag. }
  unfold check_column, bind at 1, get_net, column_report. rewrite Hmask.
  destruct (get_column (net_table (w_net w) t) col) as [c|] eqn:Hc; [|reflexivity].
  destruct (negb (dtype_is_object (col_dtype c))); [reflexivity|].
  rewrite existsb_mapped.
  destruct (existsb _ (filter mask _)); [reflexivity|].
  rewrite nonempty_filter, existsb_mapped.
  destruct (existsb _ (filter mask _)); [reflexivity|].
  rewrite logger_add_log. do 3 f_equal. unfold info. do 2 f_equal.
  unfold count_entries. do 2 f_equal. apply map_ext. intros i.
  unfold cell_at. now rewrite Hc.
Qed.

Lemma check_columns_report (t : trafotable) (mask : Z -> bool) (cols : list string) :
  forall w,
    tt_tap_dependent_impedance (net_table (w_net w) t) = Some mask ->
    forM_ (check_column t mask) cols w
    = (Ok tt, add_log w (map (fun col => info (column_report (w_net w) t col)) cols)).
Proof.
  induction cols as [|col cols IH]; intros w Hflag.
  - cbn [forM_ map]. now rewrite add_log_nil.
  - cbn [forM_ map]. unfold bind. rewrite (@check_column_report t mask col w Hflag).
    rewrite (IH (add_log w [info (column_report (w_net w) t col)]) Hflag).
    now rewrite add_log_app.
Qed.

Lemma check_table_report (t : trafotable) (cols : list string) (w : world) :
  no_tap_dependent (net_table (w_net w) t) = false ->
  check_table (t, cols) w = (Ok tt, add_log w (table_report (w_net w) t cols)).
Proof.
  intros Hsome. unfold no_tap_dependent in Hsome.
  destruct (tt_tap_dependent_impedance (net_table (w_net w) t)) as [mask|] eqn:Hflag;
    [|now rewrite orb_true_r in Hsome].
  unfold check_table, bind at 1, get_net. rewrite Hflag, Hsome.
  unfold bind. rewrite logger_add_log.
  match goal with
  | |- context [forM_ _ cols ?w0] => rewrite (@check_columns_report t mask cols w0 Hflag)
  end.
  rewrite add_log_app. unfold table_report, info. cbn [w_net add_log app].
  assert (Hmask : filter mask (tt_index (net_table (w_net w) t))
                  = filter (flag_at (net_table (w_net w) t))
                           (tt_index (net_table (w_net w) t))).
  { apply filter_ext. intros i. unfold flag_at. now rewrite Hflag. }
  now rewrite Hmask.
Qed.

(** X4.  For a transformer table that the diagnostic does not skip, its
    lines are exactly: one info line with the number of tap-dependent rows
    of the table, then, for each expected characteristic column in turn
    (two for the two-winding table, six for the three-winding table), the
    one info line that reports that column: missing, not of the object
    type, null at a tap-dependent row, an id that is not registered at a
    tap-dependent row, or else its number of entries. *)
Theorem trafo_characteristics_diagnostic_lines :
  forall w : world,
    exists logs2w logs3w,
      trafo_characteristics_diagnostic w =
      (Ok tt, add_log w (info CheckingTrafoCharacteristics :: logs2w ++ logs3w))
      /\ check_table (TTrafo, cols2w) (add_log w [info CheckingTrafoCharacteristics]) =
         (Ok tt, add_log w (info CheckingTrafoCharacteristics :: logs2w))
      /\ check_table (TTrafo3w, cols3w)
           (add_log w (info CheckingTrafoCharacteristics :: logs2w)) =
         (Ok tt, add_log w (info CheckingTrafoCharacteristics :: logs2w ++ logs3w))
      /\ (no_tap_dependent (trafo (w_net w)) = false ->
          logs2w = table_report (w_net w) TTrafo cols2w)
      /\ (no_tap_dependent (trafo3w (w_net w)) = false ->
          logs3w = table_report (w_net w) TTrafo3w cols3w)
      /\ Forall (fun r => lvl r = INFO) (logs2w ++ logs3w)
      /\ List.length cols2w = 2%nat
      /\ List.length cols3w = 6%nat.
Proof.
  intros w.
  set (w1 := add_log w [info CheckingTrafoCharacteristics]).
  assert (T2 : exists l2, check_table (TTrafo, cols2w) w1 = (Ok tt, add_log w1 l2)
                          /\ Forall (fun r => lvl r = INFO) l2
                          /\ (no_tap_dependent (trafo (w_net w)) = false ->
                              l2 = table_report (w_net w) TTrafo cols2w)).
  { destruct (no_tap_dependent (trafo (w_net w))) eqn:N.
    - destruct (check_table_logs TTrafo cols2w w1) as (l2 & E2 & I2 & _).
      exists l2. split; [exact E2|]. split; [exact I2 | discriminate].
    - destruct (check_table_logs TTrafo cols2w w1) as (l2 & E2 & I2 & _).
      pose proof (@check_table_report TTrafo cols2w w1 N) as R.
      rewrite R in E2. injection E2 as E2. apply app_inv_head in E2. subst l2.
      eexists. split; [exact R|]. split; [exact I2 | reflexivity]. }
  destruct T2 as (l2 & E2 & I2 & S2).
  assert (T3 : exists l3, check_table (TTrafo3w, cols3w) (add_log w1 l2)
                          = (Ok tt, add_log (add_log w1 l2) l3)
                          /\ Forall (fun r => lvl r = INFO) l3
                          /\ (no_tap_dependent (trafo3w (w_net w)) = false ->
                              l3 = table_report (w_net w) TTrafo3w cols3w)).
  { destruct (no_tap_dependent (trafo3w (w_net w))) eqn:N.
    - destruct (check_table_logs TTrafo3w cols3w (add_log w1 l2)) as (l3 & E3 & I3 & _).
      exists l3. split; [exact E3|]. split; [exact I3 | discriminate].
    - destruct (check_table_logs TTrafo3w cols3w (add_log w1 l2)) as (l3 & E3 & I3 & _).
      pose proof (@check_table_report TTrafo3w cols3w (add_log w1 l2) N) as R.
      rewrite R in E3. injection E3 as E3. apply app_inv_head in E3. subst l3.
      eexists. split; [exact R|]. split; [exact I3 | reflexivity]. }
  destruct T3 as (l3 & E3 & I3 & S3).
  unfold w1 in E2, E3. rewrite add_log_app in E2. rewrite !add_log_app in E3.
  cbn [app] in E2, E3.
  exists l2, l3. split; [|split; [|split; [|split; [|split; [|split; [|split]]]]]].
  - unfold trafo_characteristics_diagnostic, bind at 1. rewrite logger_add_log.
    fold (info CheckingTrafoCharacteristics).
    cbn [forM_]. unfold bind. now rewrite E2, E3.
  - exact E2.
  - exact E3.
  - exact S2.
  - exact S3.
  - apply Forall_app. now split.
  - reflexivity.
  - reflexivity.
Qed.

(** The lines of the diagnostic on the fixture after the example call. *)
Lemma diagnostic_lines_example :
  let w' := snd (create_trafo_characteristics TTrafo Example.trafo_index "vk_percent"
                   Example.x_points Example.y_points Fixture.start) in
  map msg (table_report (w_net w') TTrafo cols2w)
  = [FoundTapDependent "trafo" 2;
     ColumnHas "trafo" "vk_percent_characteristic" 2;
     ColumnMissing "trafo" "vkr_percent_characteristic"].
Proof. reflexivity. Qed.

(** With an empty [idx] the whole table is searched, so the result need not
    be empty. *)
Lemma empty_idx_example :
  get_controller_index None None [] Fixture.start = (Ok [0; 1], Fixture.start)
  /\ get_controller_index_by_type "Controller" [] Fixture.start
     = (Ok [0; 1], Fixture.start)
  /\ get_controller_index_by_typename "DISCRETETAPCONTROL" [] false Fixture.start
     = (Ok [1], Fixture.start).
Proof. repeat split. Qed.

(** ** Labels that are not in the controller table *)

Lemma object_at_unknown (net : pp_net) (i : Z) :
  ~ In i (ctrl_index_of (controller net)) -> object_at net i = Raise KeyError.
Proof.
  intros H. unfold object_at. destruct (find_row (controller net) i) as [r|] eqn:F;
    [|reflexivity].
  destruct (find_row_some _ _ F) as [Hr <-]. exfalso. apply H.
  unfold ctrl_index_of. now apply in_map.
Qed.

Lemma filterM_unknown (net : pp_net) (k : Controller -> M bool) (l : list Z) :
  (forall o w, exists b logs, k o w = (Ok b, add_log w logs)) ->
  (exists i, In i l /\ ~ In i (ctrl_index_of (controller net))) ->
  forall w, exists logs,
    filterM (fun i => o <- lift (object_at net i) ;; k o) l w
    = (Raise KeyError, add_log w logs).
Proof.
  intros Hk. induction l as [|i0 l IH]; intros (i & Hi & Hun) w; [destruct Hi|].
  destruct (in_dec Z.eq_dec i0 (ctrl_index_of (controller net))) as [Hin | Hout].
  - destruct (object_at_in net i0 Hin) as (o & E & _).
    destruct (Hk o w) as (b & l1 & Ek).
    assert (Hp : (o <- lift (object_at net i0) ;; k o) w = (Ok b, add_log w l1))
      by (unfold bind, lift; now rewrite E).
    assert (Htail : exists j, In j l /\ ~ In j (ctrl_index_of (controller net))).
    { destruct Hi as [<- | Hi]; [contradiction | eauto]. }
    destruct (IH Htail (add_log w l1)) as [l2 E2].
    exists (l1 ++ l2)%list. cbn [filterM]. unfold bind at 1. rewrite Hp.
    unfold bind at 1. rewrite E2. now rewrite add_log_app.
  - exists []. cbn [filterM]. unfold bind at 1, bind at 1, lift.
    rewrite (object_at_unknown net i0 Hout). now rewrite add_log_nil.
Qed.

Lemma filterM_unknown_quiet (net : pp_net) (f : Controller -> bool) (l : list Z)
    (w : world) :
  (exists i, In i l /\ ~ In i (ctrl_index_of (controller net))) ->
  filterM (fun i => o <- lift (object_at net i) ;; ret (f o)) l w = (Raise KeyError, w).
Proof.
  induction l as [|i0 l IH]; intros (i & Hi & Hun); [destruct Hi|].
  destruct (in_dec Z.eq_dec i0 (ctrl_index_of (controller net))) as [Hin | Hout].
  - destruct (object_at_in net i0 Hin) as (o & E & _).
    assert (Hp : (o <- lift (object_at net i0) ;; ret (f o)) w = (Ok (f o), w))
      by (unfold bind, lift; now rewrite E).
    assert (Htail : exists j, In j l /\ ~ In j (ctrl_index_of (controller net))).
    { destruct Hi as [<- | Hi]; [contradiction | eauto]. }
    cbn [filterM]. unfold bind at 1. rewrite Hp.
    unfold bind at 1. now rewrite (IH Htail).
  - cbn [filterM]. unfold bind at 1, bind at 1, lift.
    now rewrite (object_at_unknown net i0 Hout).
Qed.

Lemma searched_nonempty (net : pp_net) (idx : list Z) (i : Z) :
  In i idx -> searched net idx = idx.
Proof. unfold searched. destruct idx; [intros [] | reflexivity]. Qed.

Lemma by_type_unknown (ctrl_type : string) (idx : list Z) (w : world) :
  (exists i, In i idx /\ ~ In i (ctrl_index_of (controller (w_net w)))) ->
  get_controller_index_by_type ctrl_type idx w = (Raise KeyError, w).
Proof.
  intros H. unfold get_controller_index_by_type, bind at 1, get_net.
  fold (searched (w_net w) idx). destruct H as (i & Hi & Hun).
  rewrite (searched_nonempty _ _ _ Hi). apply filterM_unknown_quiet. eauto.
Qed.

Lemma by_typename_unknown (typename : string) (idx : list Z) (case_sensitive : bool)
    (w : world) :
  (exists i, In i idx /\ ~ In i (ctrl_index_of (controller (w_net w)))) ->
  get_controller_index_by_typename typename idx case_sensitive w = (Raise KeyError, w).
Proof.
  intros H. unfold get_controller_index_by_typename, bind at 1, get_net.
  fold (searched (w_net w) idx). destruct H as (i & Hi & Hun).
  rewrite (searched_nonempty _ _ _ Hi).
  destruct case_sensitive;
    [apply (filterM_unknown_quiet (w_net w)
              (fun o => String.eqb (split_space_first (ctrl_str o)) typename))
    |apply (filterM_unknown_quiet (w_net w)
              (fun o => String.eqb (lower (split_space_first (ctrl_str o)))
                                   (lower typename)))]; eauto.
Qed.

Lemma mask_select_incl (index : list Z) (mask : list bool) :
  incl (mask_select index mask) index.
Proof.
  revert mask. induction index as [|i index IH]; intros [|b mask]; cbn [mask_select];
    try (intros x []).
  destruct b; [apply incl_cons; [now left | apply incl_tl, IH] | apply incl_tl, IH].
Qed.

Lemma narrow_by_column_cases (net : pp_net) (parameters : list (string * value))
    (idx : list Z) (k : string) (w : world) :
  In k (keys parameters) ->
  (exists idx', narrow_by_column net parameters idx k w = (Ok idx', w)
                /\ incl idx' idx
                /\ incl idx' (ctrl_index_of (controller net)))
  \/ narrow_by_column net parameters idx k w = (Raise ValueError, w).
Proof.
  intros Hk. destruct (lookup_keys parameters k Hk) as [v Hv].
  unfold narrow_by_column, bind, lift, ret, getitem. rewrite Hv.
  destruct (series_eq (series (controller net) k) v) as [mask | e] eqn:S.
  - left. eexists. split; [reflexivity|]. split; intros i Hi;
      apply in_intersection in Hi as [H1 H2]; [assumption|].
    exact (mask_select_incl _ _ _ H2).
  - right. destruct v; cbn in S; try discriminate;
      destruct (Nat.eqb _ _); now inversion S.
Qed.

Lemma column_fold_cases (net : pp_net) (parameters : list (string * value)) :
  forall (ks : list string) (idx : list Z) (w : world),
    (forall k, In k ks -> In k (keys parameters)) ->
    (exists idx', foldM (narrow_by_column net parameters) ks idx w = (Ok idx', w)
                  /\ incl idx' idx
                  /\ (ks <> [] -> incl idx' (ctrl_index_of (controller net))))
    \/ foldM (narrow_by_column net parameters) ks idx w = (Raise ValueError, w).
Proof.
  induction ks as [|k ks IH]; intros idx w Hks.
  - left. exists idx. split; [reflexivity|]. split; [apply incl_refl | congruence].
  - cbn [foldM]. unfold bind.
    destruct (narrow_by_column_cases net parameters idx k w (Hks k (or_introl eq_refl)))
      as [(idx1 & E1 & H1 & H1') | E1]; rewrite E1; [|now right].
    destruct (IH idx1 w (fun k' Hk' => Hks k' (or_intror Hk')))
      as [(idx2 & E2 & H2 & _) | E2]; rewrite E2; [|now right].
    left. exists idx2. split; [reflexivity|]. split; intros i Hi; auto.
Qed.

Lemma column_keys_in_keys (t : ctrl_table) (parameters : list (string * value)) (k : string) :
  In k (column_keys t parameters) -> In k (keys parameters).
Proof. unfold column_keys. intros H. now apply filter_In in H. Qed.

(** The run of [get_controller_index] after the narrowing by type, from
    the labels [idx1]. *)
Lemma parameters_part (w : world) (ctrl_type : option type_spec)
    (parameters : list (string * value)) (idx idx1 : list Z) (w1 : world) :
  narrow_by_type ctrl_type (searched (w_net w) idx) w = (Ok idx1, w1) ->
  get_controller_index ctrl_type (Some parameters) idx w =
  (idx2 <- foldM (narrow_by_column (w_net w) parameters)
                 (column_keys (controller (w_net w)) parameters) idx1 ;;
   filterM (fun i => o <- lift (object_at (w_net w) i) ;;
                     _controller_attributes_query o
                       (attribute_part (controller (w_net w)) parameters)) idx2) w1.
Proof.
  intros N. unfold get_controller_index, bind at 1, get_net.
  fold (searched (w_net w) idx). unfold bind at 1. rewrite N.
  cbn iota. now rewrite attributes_dict_part.
Qed.

Lemma no_parameters_part (w : world) (ctrl_type : option type_spec)
    (idx idx1 : list Z) (w1 : world) :
  narrow_by_type ctrl_type (searched (w_net w) idx) w = (Ok idx1, w1) ->
  get_controller_index ctrl_type None idx w = (Ok idx1, w1).
Proof.
  intros N. unfold get_controller_index, bind at 1, get_net.
  fold (searched (w_net w) idx). unfold bind. now rewrite N.
Qed.

Lemma narrow_none (idx : list Z) (w : world) :
  narrow_by_type None idx w = (Ok idx, w).
Proof. reflexivity. Qed.

(** *** Error behaviour on unknown labels *)

(** X5.  When [idx] names a label that is not in the controller table, the
    two type queries raise KeyError, and so does [get_controller_index] with
    a type specifier, or with parameters none of which is a column key;
    the network model and, for the first three, the log are as before.
    With at least one column key and no type specifier the unknown labels
    are dropped by the intersection instead and nothing raises KeyError;
    with neither type nor parameters [idx] is returned as it is. *)
Theorem unknown_label_raises_key_error :
  forall (w : world) (idx : list Z),
    (exists i, In i idx /\ ~ In i (ctrl_index_of (controller (w_net w)))) ->
    (forall ctrl_type, get_controller_index_by_type ctrl_type idx w = (Raise KeyError, w))
    /\ (forall typename case_sensitive,
          get_controller_index_by_typename typename idx case_sensitive w
          = (Raise KeyError, w))
    /\ (forall spec parameters,
          get_controller_index (Some spec) parameters idx w = (Raise KeyError, w))
    /\ (forall parameters,
          column_keys (controller (w_net w)) parameters = [] ->
          exists logs,
            get_controller_index None (Some parameters) idx w
            = (Raise KeyError, add_log w logs))
    /\ (forall parameters,
          column_keys (controller (w_net w)) parameters <> [] ->
          fst (get_controller_index None (Some parameters) idx w) <> Raise KeyError)
    /\ get_controller_index None None idx w = (Ok idx, w).
Proof.
  intros w idx Hun. pose proof Hun as (i0 & Hi0 & _).
  pose proof (searched_nonempty (w_net w) idx i0 Hi0) as Hs.
  split; [intros; now apply by_type_unknown|].
  split; [intros; now apply by_typename_unknown|].
  split; [|split; [|split]].
  - intros spec parameters. unfold get_controller_index, bind at 1, get_net.
    fold (searched (w_net w) idx). rewrite Hs. unfold bind at 1, narrow_by_type.
    destruct spec as [typename | cls];
      [rewrite by_typename_unknown | rewrite by_type_unknown]; auto.
  - intros parameters Hcols.
    rewrite (parameters_part w None parameters idx (narrow_none _ w)).
    rewrite Hcols, Hs. cbn [foldM]. unfold bind at 1, ret at 1. cbv beta iota.
    apply filterM_unknown; [|exact Hun].
    intros o w'. destruct (query_total o (attribute_part (controller (w_net w)) parameters) w')
      as [logs E]. eauto.
  - intros parameters Hcols.
    rewrite (parameters_part w None parameters idx (narrow_none _ w)).
    unfold bind at 1.
    destruct (column_fold_cases (w_net w) parameters
                (column_keys (controller (w_net w)) parameters) (searched (w_net w) idx) w
                (column_keys_in_keys _ parameters))
      as [(idx2 & E & _ & Hin) | E]; rewrite E; cbv beta iota; [|discriminate].
    destruct (query_filter (w_net w) (attribute_part (controller (w_net w)) parameters)
                (Hin Hcols) w) as [logs Q].
    rewrite Q. discriminate.
  - unfold get_controller_index, bind, get_net, narrow_by_type, ret.
    fold (searched (w_net w) idx). now rewrite Hs.
Qed.

Lemma unknown_label_raises_key_error_witness :
  (exists i, In i Labels.with_unknown
             /\ ~ In i (ctrl_index_of (controller (w_net Fixture.start))))
  /\ get_controller_index_by_type "Controller" Labels.with_unknown Fixture.start
     = (Raise KeyError, Fixture.start)
  /\ fst (get_controller_index None (Some Labels.in_service) Labels.with_unknown
            Fixture.start) = Ok [0].
Proof.
  assert (H : exists i, In i Labels.with_unknown
                        /\ ~ In i (ctrl_index_of (controller (w_net Fixture.start)))).
  { exists 5. split; [simpl; tauto|]. simpl. intuition discriminate. }
  split; [exact H|]. split; [|reflexivity].
  exact (proj1 (@unknown_label_raises_key_error Fixture.start Labels.with_unknown H)
               "Controller").
Defined.

(** *** The labels returned are searched labels *)

Lemma by_type_incl (ctrl_type : string) (idx : list Z) (w : world) (l : list Z)
    (w' : world) :
  get_controller_index_by_type ctrl_type idx w = (Ok l, w') ->
  incl l (searched (w_net w) idx).
Proof.
  unfold get_controller_index_by_type, bind at 1, get_net. apply filterM_incl.
Qed.

Lemma by_typename_incl (typename : string) (idx : list Z) (case_sensitive : bool)
    (w : world) (l : list Z) (w' : world) :
  get_controller_index_by_typename typename idx case_sensitive w = (Ok l, w') ->
  incl l (searched (w_net w) idx).
Proof.
  unfold get_controller_index_by_typename, bind at 1, get_net.
  destruct case_sensitive; apply filterM_incl.
Qed.

(** X6.  Whatever the type specifier and the parameters are, also list-like
    values under column keys, the labels that a query returns are among the
    labels it searched: those of [idx], or of the whole table when [idx] is
    empty. *)
Theorem query_results_within_searched :
  forall (w w' : world) (ctrl_type : option type_spec)
         (parameters : option (list (string * value))) (idx l : list Z),
    get_controller_index ctrl_type parameters idx w = (Ok l, w') ->
    forall i, In i l -> In i (searched (w_net w) idx).
Proof.
  intros w w' ctrl_type parameters idx l H.
  exact (get_controller_index_incl _ _ _ _ H).
Qed.

Lemma query_results_within_searched_witness :
  get_controller_index None (Some Positional.by_position) [1] Fixture.start
    = (Ok [1], Fixture.start)
  /\ forall i, In i [1] -> In i (searched (w_net Fixture.start) [1]).
Proof.
  split; [reflexivity|].
  exact (@query_results_within_searched Fixture.start Fixture.start None
           (Some Positional.by_position) [1] [1] eq_refl).
Defined.

(** *** An empty parameter dictionary, and narrowing in two calls *)

Lemma query_on_empty (o : Controller) (w : world) :
  _controller_attributes_query o [] w = (Ok true, w).
Proof. reflexivity. Qed.

(** X7.  On labels of the table, an empty parameter dictionary narrows
    nothing: the result, the log and the network model are those of the
    call without parameters. *)
Theorem empty_parameters_narrow_nothing :
  forall (w : world) (ctrl_type : option type_spec) (idx : list Z),
    incl idx (ctrl_index_of (controller (w_net w))) ->
    get_controller_index ctrl_type (Some []) idx w
    = get_controller_index ctrl_type None idx w.
Proof.
  intros w ctrl_type idx Hidx.
  pose proof (narrow_filter ctrl_type w Hidx) as N.
  rewrite (parameters_part w ctrl_type [] idx N), (no_parameters_part w ctrl_type idx N).
  cbn [column_keys keys map filter foldM attribute_part].
  unfold bind at 1, ret at 1. cbv beta iota.
  rewrite (filterM_quiet _ (fun _ => true)).
  - f_equal. f_equal. apply forallb_filter_id, forallb_forall. reflexivity.
  - intros i Hi. apply filter_In in Hi as [Hi _].
    destruct (object_at_in (w_net w) i (searched_incl _ Hidx i Hi)) as (o & E & _).
    unfold bind, lift. now rewrite E.
Qed.

Lemma empty_parameters_narrow_nothing_witness :
  incl [1] (ctrl_index_of (controller (w_net Fixture.start)))
  /\ get_controller_index (Some (TypeClass "Controller")) (Some []) [1] Fixture.start
     = get_controller_index (Some (TypeClass "Controller")) None [1] Fixture.start.
Proof.
  assert (H : incl [1] (ctrl_index_of (controller (w_net Fixture.start)))).
  { intros i [<- | []]. simpl. tauto. }
  split; [exact H|].
  exact (@empty_parameters_narrow_nothing Fixture.start
           (Some (TypeClass "Controller")) [1] H).
Defined.

(** X8.  Narrowing by type and then, in a second call restricted to the
    labels found, by parameters gives what the single call with both gives,
    provided the first call found a label.  (When it found none, the second
    call's empty [idx] makes it search the whole table.) *)
Theorem narrowing_in_two_calls :
  forall (w : world) (spec : type_spec) (parameters : option (list (string * value)))
         (idx l : list Z),
    get_controller_index (Some spec) None idx w = (Ok l, w) ->
    l <> [] ->
    get_controller_index None parameters l w
    = get_controller_index (Some spec) parameters idx w.
Proof.
  intros w spec parameters idx l H Hl.
  assert (Hs : searched (w_net w) l = l)
    by (destruct l; [congruence | reflexivity]).
  assert (N0 : narrow_by_type None (searched (w_net w) l) w = (Ok l, w))
    by (now rewrite Hs).
  destruct (narrow_by_type (Some spec) (searched (w_net w) idx) w) as [[l1 | e] w1] eqn:N.
  - rewrite (no_parameters_part w (Some spec) idx N) in H. injection H as -> ->.
    destruct parameters as [parameters|].
    + now rewrite (parameters_part w None parameters l N0),
        (parameters_part w (Some spec) parameters idx N).
    + now rewrite (no_parameters_part w None l N0),
        (no_parameters_part w (Some spec) idx N).
  - exfalso. unfold get_controller_index, bind at 1, get_net in H.
    fold (searched (w_net w) idx) in H. unfold bind in H. rewrite N in H. discriminate.
Qed.

Lemma narrowing_in_two_calls_witness :
  get_controller_index (Some (TypeName "ConstControl")) None [] Fixture.start
    = (Ok [0], Fixture.start)
  /\ [0] <> []
  /\ get_controller_index None (Some Labels.element_gen) [0] Fixture.start
     = get_controller_index (Some (TypeName "ConstControl")) (Some Labels.element_gen) []
         Fixture.start.
Proof.
  split; [reflexivity|]. split; [discriminate|].
  assert (H : [0] <> @nil Z) by discriminate.
  exact (@narrowing_in_two_calls Fixture.start (TypeName "ConstControl")
           (Some Labels.element_gen) [] [0] eq_refl H).
Defined.

(** When the first call finds nothing, the second call searches every
    controller. *)
Lemma narrowing_in_two_calls_pitfall :
  get_controller_index (Some Labels.no_such_type) None [] Fixture.start
    = (Ok [], Fixture.start)
  /\ get_controller_index (Some Labels.no_such_type) (Some Labels.in_service) []
       Fixture.start = (Ok [], Fixture.start)
  /\ get_controller_index None (Some Labels.in_service) [] Fixture.start
     = (Ok [0], Fixture.start).
Proof. repeat split. Qed.

(** ** A list-like value of the wrong length under a column key *)

Lemma narrow_by_column_bad (net : pp_net) (parameters : list (string * value))
    (idx : list Z) (k : string) (v : value) (n : nat) (w : world) :
  lookup k parameters = Some v ->
  seq_length v = Some n ->
  n <> List.length (ct_rows (controller net)) ->
  narrow_by_column net parameters idx k w = (Raise ValueError, w).
Proof.
  intros Hv Hn Hlen. unfold narrow_by_column, bind, lift, getitem. rewrite Hv.
  assert (Hs : List.length (series (controller net) k)
               = List.length (ct_rows (controller net)))
    by (unfold series; apply length_map).
  destruct v as [s | l | l]; cbn in Hn; try discriminate; injection Hn as <-;
    cbn [series_eq]; rewrite Hs;
    assert (E : Nat.eqb (List.length (ct_rows (controller net))) (List.length l) = false)
      by (apply Nat.eqb_neq; congruence);
    now rewrite E.
Qed.

Lemma column_fold_bad (net : pp_net) (parameters : list (string * value)) :
  forall (ks : list string) (idx : list Z) (w : world),
    (forall k, In k ks -> In k (keys parameters)) ->
    (exists k v n, In k ks /\ lookup k parameters = Some v /\ seq_length v = Some n
                   /\ n <> List.length (ct_rows (controller net))) ->
    foldM (narrow_by_column net parameters) ks idx w = (Raise ValueError, w).
Proof.
  induction ks as [|k0 ks IH]; intros idx w Hks (k & v & n & Hk & Hv & Hn & Hlen);
    [destruct Hk|].
  cbn [foldM]. unfold bind.
  destruct (narrow_by_column_cases net parameters idx k0 w (Hks k0 (or_introl eq_refl)))
    as [(idx1 & E1 & _) | E1]; rewrite E1; [|reflexivity].
  destruct Hk as [-> | Hk].
  - rewrite (narrow_by_column_bad net parameters idx k w Hv Hn Hlen) in E1. discriminate.
  - apply IH; [intros k' Hk'; apply Hks; now right | eauto 8].
Qed.

(** X9.  On labels of the table, a list-like value under a column key whose
    length is not the number of rows of the controller table makes
    [get_controller_index] raise ValueError, whatever the other parameters
    are; the network model and the log are as before. *)
Theorem wrong_length_under_column_key :
  forall (w : world) (ctrl_type : option type_spec)
         (parameters : list (string * value)) (idx : list Z),
    incl idx (ctrl_index_of (controller (w_net w))) ->
    (exists k v n,
        In k (column_keys (controller (w_net w)) parameters)
        /\ lookup k parameters = Some v
        /\ seq_length v = Some n
        /\ n <> List.length (ct_rows (controller (w_net w)))) ->
    get_controller_index ctrl_type (Some parameters) idx w = (Raise ValueError, w).
Proof.
  intros w ctrl_type parameters idx Hidx Hbad.
  rewrite (parameters_part w ctrl_type parameters idx (narrow_filter ctrl_type w Hidx)).
  unfold bind at 1.
  now rewrite (column_fold_bad (w_net w) parameters _ _ w
                 (column_keys_in_keys _ parameters) Hbad).
Qed.

Lemma wrong_length_under_column_key_witness :
  incl [] (ctrl_index_of (controller (w_net Fixture.start)))
  /\ (exists k v n,
         In k (column_keys (controller (w_net Fixture.start)) Positional.too_long)
         /\ lookup k Positional.too_long = Some v
         /\ seq_length v = Some n
         /\ n <> List.length (ct_rows (controller (w_net Fixture.start))))
  /\ get_controller_index None (Some Positional.too_long) [] Fixture.start
     = (Raise ValueError, Fixture.start).
Proof.
  assert (H : exists k v n,
             In k (column_keys (controller (w_net Fixture.start)) Positional.too_long)
             /\ lookup k Positional.too_long = Some v
             /\ seq_length v = Some n
             /\ n <> List.length (ct_rows (controller (w_net Fixture.start)))).
  { exists "in_service", (VList [SBool true; SBool false; SBool true]), 3%nat.
    repeat split; [simpl; tauto | discriminate]. }
  split; [apply incl_nil_l|]. split; [exact H|].
  exact (@wrong_length_under_column_key Fixture.start None Positional.too_long []
           (incl_nil_l _) H).
Defined.

(** ** Dictionaries put together, and reordered *)

Lemma lookup_app_l {V} (d1 d2 : list (string * V)) (k : string) :
  In k (keys d1) -> lookup k (d1 ++ d2) = lookup k d1.
Proof.
  induction d1 as [|[k' v'] d1 IH]; cbn; [tauto|].
  intros [-> | H]; [now rewrite String.eqb_refl|].
  destruct (String.eqb k' k); [reflexivity | now apply IH].
Qed.

Lemma lookup_app_r {V} (d1 d2 : list (string * V)) (k : string) :
  ~ In k (keys d1) -> lookup k (d1 ++ d2) = lookup k d2.
Proof.
  induction d1 as [|[k' v'] d1 IH]; cbn; [reflexivity|].
  intros H. destruct (String.eqb k' k) eqn:E.
  - apply String.eqb_eq in E. exfalso. apply H. now left.
  - apply IH. intros H'. apply H. now right.
Qed.

Lemma keys_app {V} (d1 d2 : list (string * V)) : keys (d1 ++ d2) = (keys d1 ++ keys d2)%list.
Proof. apply map_app. Qed.

Lemma key_match_app_l (c : Controller) (A B : list (string * value)) (k : string) :
  In k (keys A) -> key_match c (A ++ B) k = key_match c A k.
Proof. intros H. unfold key_match. now rewrite lookup_app_l. Qed.

Lemma key_match_app_r (c : Controller) (A B : list (string * value)) (k : string) :
  ~ In k (keys A) -> key_match c (A ++ B) k = key_match c B k.
Proof. intros H. unfold key_match. now rewrite lookup_app_r. Qed.

Lemma forallb_ext_in {A} (f g : A -> bool) (l : list A) :
  (forall x, In x l -> f x = g x) -> forallb f l = forallb g l.
Proof.
  induction l as [|x l IH]; intros H; [reflexivity|]. cbn.
  rewrite (H x (or_introl eq_refl)), IH; [reflexivity|].
  intros y Hy. apply H. now right.
Qed.

Lemma existsb_in (ks : list string) (k : string) :
  existsb (fun k' => String.eqb k' k) ks = true <-> In k ks.
Proof.
  rewrite existsb_exists. split.
  - intros (x & Hx & E). apply String.eqb_eq in E. now subst.
  - intros H. exists k. split; [assumption | apply String.eqb_refl].
Qed.

Lemma element_index_in (ks : list string) :
  existsb is_element_index ks = true <-> In "element_index" ks.
Proof. apply existsb_in. Qed.

Lemma query_value_app (c : Controller) (A B : list (string * value)) :
  disjoint_keys A B ->
  query_value c (A ++ B) = query_value c A && query_value c B.
Proof.
  intros Hd. unfold query_value, all_present, others_match, element_index_match.
  rewrite keys_app, filter_app, !forallb_app, existsb_app.
  rewrite (forallb_ext_in (key_match c (A ++ B)) (key_match c A)
             (filter (fun k => negb (is_element_index k)) (keys A)))
    by (intros k Hk; apply filter_In in Hk as [Hk _]; now apply key_match_app_l).
  rewrite (forallb_ext_in (key_match c (A ++ B)) (key_match c B)
             (filter (fun k => negb (is_element_index k)) (keys B)))
    by (intros k Hk; apply filter_In in Hk as [Hk _]; apply key_match_app_r;
        intros HA; exact (Hd k HA Hk)).
  destruct (existsb is_element_index (keys A)) eqn:EA.
  - pose proof (proj1 (element_index_in _) EA) as HA.
    rewrite (key_match_app_l c A B _ HA).
    assert (EB : existsb is_element_index (keys B) = false).
    { apply not_true_is_false. intros EB. apply element_index_in in EB.
      exact (Hd _ HA EB). }
    rewrite EB. cbn [orb].
    repeat match goal with |- context [forallb ?f ?l] =>
      let b := fresh "b" in generalize (forallb f l); intros b end.
    generalize (key_match c A "element_index"). intros e.
    destruct b, b0, b1, b2, e; reflexivity.
  - cbn [orb].
    assert (HA : ~ In "element_index" (keys A)).
    { intros HA. apply element_index_in in HA. congruence. }
    rewrite (key_match_app_r c A B _ HA).
    repeat match goal with |- context [forallb ?f ?l] =>
      let b := fresh "b" in generalize (forallb f l); intros b end.
    destruct (existsb is_element_index (keys B));
      [generalize (key_match c B "element_index"); intros e;
       destruct b, b0, b1, b2, e; reflexivity
      |destruct b, b0, b1, b2; reflexivity].
Qed.

Lemma column_keys_app (t : ctrl_table) (A B : list (string * value)) :
  column_keys t (A ++ B) = (column_keys t A ++ column_keys t B)%list.
Proof. unfold column_keys. now rewrite keys_app, filter_app. Qed.

Lemma attribute_part_app (t : ctrl_table) (A B : list (string * value)) :
  attribute_part t (A ++ B) = (attribute_part t A ++ attribute_part t B)%list.
Proof. apply filter_app. Qed.

Lemma attribute_part_keys (t : ctrl_table) (A : list (string * value)) (k : string) :
  In k (keys (attribute_part t A)) -> In k (keys A).
Proof.
  unfold keys, attribute_part. intros H. apply in_map_iff in H as (kv & <- & Hkv).
  apply filter_In in Hkv as [Hkv _]. now apply in_map.
Qed.

Lemma attribute_part_disjoint (t : ctrl_table) (A B : list (string * value)) :
  disjoint_keys A B -> disjoint_keys (attribute_part t A) (attribute_part t B).
Proof.
  intros Hd k HA HB. apply (Hd k); eauto using attribute_part_keys.
Qed.

Lemma columns_equal_app (t : ctrl_table) (A B : list (string * value)) (r : ctrl_row) :
  disjoint_keys A B ->
  columns_equal t (A ++ B) r = columns_equal t A r && columns_equal t B r.
Proof.
  intros Hd. unfold columns_equal. rewrite column_keys_app, forallb_app. f_equal.
  - apply forallb_ext_in. intros k Hk. apply column_keys_in_keys in Hk.
    now rewrite lookup_app_l.
  - apply forallb_ext_in. intros k Hk. apply column_keys_in_keys in Hk.
    rewrite lookup_app_r; [reflexivity|]. intros HA. exact (Hd k HA Hk).
Qed.

Lemma column_values_scalar_app (t : ctrl_table) (A B : list (string * value)) :
  disjoint_keys A B ->
  column_values_scalar t A = true -> column_values_scalar t B = true ->
  column_values_scalar t (A ++ B) = true.
Proof.
  intros Hd HA HB. unfold column_values_scalar in *.
  rewrite column_keys_app, forallb_app. apply andb_true_iff. split.
  - etransitivity; [|exact HA]. apply forallb_ext_in. intros k Hk.
    apply column_keys_in_keys in Hk. now rewrite lookup_app_l.
  - etransitivity; [|exact HB]. apply forallb_ext_in. intros k Hk.
    apply column_keys_in_keys in Hk.
    rewrite lookup_app_r; [reflexivity|]. intros H. exact (Hd k H Hk).
Qed.

Lemma selected_app (w : world) (ctrl_type : option type_spec)
    (A B : list (string * value)) (i : Z) :
  disjoint_keys A B ->
  selected w ctrl_type (A ++ B) i = selected w ctrl_type A i && selected w ctrl_type B i.
Proof.
  intros Hd. unfold selected.
  destruct (find_row (controller (w_net w)) i) as [r|]; [|reflexivity].
  rewrite columns_equal_app by assumption.
  rewrite !query_true_value, attribute_part_app.
  rewrite query_value_app by (now apply attribute_part_disjoint).
  destruct (type_matches ctrl_type (row_object r)), (columns_equal _ A r),
    (columns_equal _ B r), (query_value _ (attribute_part _ A)),
    (query_value _ (attribute_part _ B)); reflexivity.
Qed.

(** X10.  The keys of a parameter mapping are combined by conjunction: for
    two mappings without a common key whose values under column keys are
    scalars other than None, the labels returned for the two mappings put
    together are exactly the labels returned for the first and also for the
    second. *)
Theorem parameters_are_conjoined :
  forall (w : world) (ctrl_type : option type_spec) (A B : list (string * value))
         (idx : list Z),
    NoDup (ctrl_index_of (controller (w_net w))) ->
    incl idx (ctrl_index_of (controller (w_net w))) ->
    disjoint_keys A B ->
    column_values_scalar (controller (w_net w)) A = true ->
    column_values_scalar (controller (w_net w)) B = true ->
    exists lA lB lAB wA wB wAB,
      get_controller_index ctrl_type (Some A) idx w = (Ok lA, wA)
      /\ get_controller_index ctrl_type (Some B) idx w = (Ok lB, wB)
      /\ get_controller_index ctrl_type (Some (A ++ B)%list) idx w = (Ok lAB, wAB)
      /\ forall i, In i lAB <-> In i lA /\ In i lB.
Proof.
  intros w ctrl_type A B idx Hnd Hidx Hd HA HB.
  destruct (@get_controller_index_selected w ctrl_type A idx Hnd Hidx HA)
    as (lA & logsA & EA & SA).
  destruct (@get_controller_index_selected w ctrl_type B idx Hnd Hidx HB)
    as (lB & logsB & EB & SB).
  destruct (@get_controller_index_selected w ctrl_type (A ++ B) idx Hnd Hidx
              (@column_values_scalar_app _ A B Hd HA HB))
    as (lAB & logsAB & EAB & SAB).
  exists lA, lB, lAB. do 3 eexists.
  split; [exact EA|]. split; [exact EB|]. split; [exact EAB|].
  intros i. rewrite (SAB i), (SA i), (SB i).
  rewrite selected_app by assumption. rewrite andb_true_iff. tauto.
Qed.

Lemma merge_disjoint : disjoint_keys Merge.first Merge.second.
Proof. intros k H1 H2. simpl in *. intuition (subst; discriminate). Qed.

Lemma parameters_are_conjoined_witness :
  NoDup (ctrl_index_of (controller (w_net Fixture.start)))
  /\ incl [] (ctrl_index_of (controller (w_net Fixture.start)))
  /\ disjoint_keys Merge.first Merge.second
  /\ column_values_scalar (controller (w_net Fixture.start)) Merge.first = true
  /\ column_values_scalar (controller (w_net Fixture.start)) Merge.second = true
  /\ exists lA lB lAB wA wB wAB,
       get_controller_index None (Some Merge.first) [] Fixture.start = (Ok lA, wA)
       /\ get_controller_index None (Some Merge.second) [] Fixture.start = (Ok lB, wB)
       /\ get_controller_index None (Some (Merge.first ++ Merge.second)%list) []
            Fixture.start = (Ok lAB, wAB)
       /\ forall i, In i lAB <-> In i lA /\ In i lB.
Proof.
  split; [exact fixture_labels_distinct|]. split; [apply incl_nil_l|].
  split; [exact merge_disjoint|]. split; [reflexivity|]. split; [reflexivity|].
  exact (@parameters_are_conjoined Fixture.start None Merge.first Merge.second []
           fixture_labels_distinct (incl_nil_l _) merge_disjoint eq_refl eq_refl).
Defined.

(** *** The order of the keys *)

Lemma lookup_perm {V} (d d' : list (string * V)) :
  Permutation d d' -> NoDup (keys d) -> forall k, lookup k d = lookup k d'.
Proof.
  induction 1 as [| [k0 v0] l l' Hp IH | [k1 v1] [k2 v2] l | l l' l'' H1 IH1 H2 IH2];
    intros Hnd k.
  - reflexivity.
  - cbn in *. inversion Hnd; subst. now rewrite IH.
  - cbn in *. inversion Hnd as [|? ? Hnot _]; subst.
    destruct (String.eqb k1 k) eqn:E1, (String.eqb k2 k) eqn:E2; try reflexivity.
    apply String.eqb_eq in E1, E2. subst. exfalso. apply Hnot. now left.
  - rewrite IH1 by assumption. apply IH2.
    apply (Permutation_NoDup (Permutation_map fst H1) Hnd).
Qed.

Lemma forallb_perm {A} (f : A -> bool) (l l' : list A) :
  Permutation l l' -> forallb f l = forallb f l'.
Proof.
  induction 1 as [| x l l' _ IH | x y l | l l' l'' _ IH1 _ IH2]; cbn.
  - reflexivity.
  - now rewrite IH.
  - now rewrite !andb_assoc, (andb_comm (f y)).
  - now rewrite IH1.
Qed.

Lemma existsb_perm {A} (f : A -> bool) (l l' : list A) :
  Permutation l l' -> existsb f l = existsb f l'.
Proof.
  induction 1 as [| x l l' _ IH | x y l | l l' l'' _ IH1 _ IH2]; cbn.
  - reflexivity.
  - now rewrite IH.
  - now rewrite !orb_assoc, (orb_comm (f y)).
  - now rewrite IH1.
Qed.

Lemma forallb_filter {A} (f g : A -> bool) (l : list A) :
  forallb f (filter g l) = forallb (fun x => negb (g x) || f x) l.
Proof.
  induction l as [|x l IH]; [reflexivity|]. cbn.
  destruct (g x); cbn; now rewrite IH.
Qed.

Lemma perm_filter {A} (f : A -> bool) (l l' : list A) :
  Permutation l l' -> Permutation (filter f l) (filter f l').
Proof.
  induction 1 as [| x l l' _ IH | x y l | l l' l'' _ IH1 _ IH2]; cbn.
  - constructor.
  - destruct (f x); [now constructor | assumption].
  - destruct (f x), (f y); try apply Permutation_refl. constructor.
  - now transitivity (filter f l').
Qed.

Lemma NoDup_keys_filter {V} (f : string * V -> bool) (d : list (string * V)) :
  NoDup (keys d) -> NoDup (keys (filter f d)).
Proof.
  induction d as [|[k v] d IH]; cbn; [trivial|]. intros Hnd.
  inversion Hnd as [|? ? Hnot Hnd']; subst.
  destruct (f (k, v)); [|now apply IH]. cbn. constructor; [|now apply IH].
  intros H. apply Hnot. unfold keys in *. apply in_map_iff in H as (kv & E & Hkv).
  apply filter_In in Hkv as [Hkv _]. apply in_map_iff. eauto.
Qed.

Lemma query_value_perm (c : Controller) (ps ps' : list (string * value)) :
  NoDup (keys ps) -> Permutation ps ps' -> query_value c ps = query_value c ps'.
Proof.
  intros Hnd Hp.
  assert (Hk : Permutation (keys ps) (keys ps')) by (now apply Permutation_map).
  assert (Hm : forall k, key_match c ps k = key_match c ps' k)
    by (intros k; unfold key_match; now rewrite (lookup_perm Hp Hnd k)).
  unfold query_value, all_present, others_match, element_index_match.
  rewrite !forallb_filter.
  rewrite (forallb_perm _ Hk), (forallb_perm (fun x => _ || key_match c ps x) Hk),
    (existsb_perm _ Hk), Hm.
  f_equal. f_equal. apply forallb_ext_in. intros k _. now rewrite Hm.
Qed.

Lemma selected_perm (w : world) (ctrl_type : option type_spec)
    (ps ps' : list (string * value)) (i : Z) :
  NoDup (keys ps) -> Permutation ps ps' ->
  selected w ctrl_type ps i = selected w ctrl_type ps' i.
Proof.
  intros Hnd Hp. unfold selected.
  destruct (find_row (controller (w_net w)) i) as [r|]; [|reflexivity].
  assert (Hk : Permutation (keys ps) (keys ps')) by (now apply Permutation_map).
  f_equal; [f_equal|].
  - unfold columns_equal, column_keys. rewrite !forallb_filter.
    rewrite (forallb_perm _ Hk). apply forallb_ext_in. intros k _.
    now rewrite (lookup_perm Hp Hnd k).
  - rewrite !query_true_value. apply query_value_perm.
    + now apply NoDup_keys_filter.
    + now apply perm_filter.
Qed.

Lemma column_values_scalar_perm (t : ctrl_table) (ps ps' : list (string * value)) :
  NoDup (keys ps) -> Permutation ps ps' ->
  column_values_scalar t ps = column_values_scalar t ps'.
Proof.
  intros Hnd Hp.
  assert (Hk : Permutation (keys ps) (keys ps')) by (now apply Permutation_map).
  unfold column_values_scalar, column_keys. rewrite !forallb_filter.
  rewrite (forallb_perm _ Hk). apply forallb_ext_in. intros k _.
  now rewrite (lookup_perm Hp Hnd k).
Qed.

(** X11.  The order of the entries of a parameter dictionary does not
    matter (the source collects the attribute keys in a set, whose order is
    not fixed): [_controller_attributes_query] returns the same boolean
    for a dictionary and for any reordering of it, and for scalar values
    other than None under column keys [get_controller_index] returns the
    same labels. *)
Theorem parameter_order_is_irrelevant :
  forall (parameters parameters' : list (string * value)),
    NoDup (keys parameters) ->
    Permutation parameters parameters' ->
    (forall (controller : Controller) (w w' : world),
        fst (_controller_attributes_query controller parameters w)
        = fst (_controller_attributes_query controller parameters' w'))
    /\ (forall (w : world) (ctrl_type : option type_spec) (idx : list Z),
          NoDup (ctrl_index_of (controller (w_net w))) ->
          incl idx (ctrl_index_of (controller (w_net w))) ->
          column_values_scalar (controller (w_net w)) parameters = true ->
          exists l l' w1 w1',
            get_controller_index ctrl_type (Some parameters) idx w = (Ok l, w1)
            /\ get_controller_index ctrl_type (Some parameters') idx w = (Ok l', w1')
            /\ forall i, In i l <-> In i l').
Proof.
  intros parameters parameters' Hnd Hp. split.
  - intros c w w'.
    destruct (query_total c parameters w) as [logs ->].
    destruct (query_total c parameters' w') as [logs' ->].
    cbn [fst]. now rewrite (query_value_perm c Hnd Hp).
  - intros w ctrl_type idx Hlab Hidx Hsc.
    assert (Hsc' : column_values_scalar (controller (w_net w)) parameters' = true)
      by (now rewrite <- (column_values_scalar_perm _ Hnd Hp)).
    destruct (@get_controller_index_selected w ctrl_type parameters idx Hlab Hidx Hsc)
      as (l & logs & E & S).
    destruct (@get_controller_index_selected w ctrl_type parameters' idx Hlab Hidx Hsc')
      as (l' & logs' & E' & S').
    exists l, l'. do 2 eexists. split; [exact E|]. split; [exact E'|].
    intros i. rewrite (S i), (S' i). now rewrite (selected_perm w ctrl_type i Hnd Hp).
Qed.

Lemma parameter_order_is_irrelevant_witness :
  NoDup (keys Merge.second)
  /\ Permutation Merge.second Merge.second_reversed
  /\ fst (_controller_attributes_query Fixture.const_control Merge.second Fixture.start)
     = fst (_controller_attributes_query Fixture.const_control Merge.second_reversed
              Fixture.start).
Proof.
  assert (Hnd : NoDup (keys Merge.second)).
  { repeat constructor; simpl; intuition discriminate. }
  assert (Hp : Permutation Merge.second Merge.second_reversed) by apply perm_swap.
  split; [exact Hnd|]. split; [exact Hp|].
  exact (proj1 (@parameter_order_is_irrelevant Merge.second Merge.second_reversed Hnd Hp)
               Fixture.const_control Fixture.start Fixture.start).
Defined.

(** ** After a drop *)

Lemma drop_same_type_run (w : world) (this_ctrl_type : option type_spec)
    (index : option Z) (matching_params : list (string * value)) (l : list Z) (w1 : world) :
  get_controller_index this_ctrl_type (Some matching_params) [] w = (Ok l, w1) ->
  exists w2,
    drop_same_type_existing_controllers this_ctrl_type index (Some matching_params) w
    = (Ok tt, w2)
    /\ ct_rows (controller (w_net w2))
       = filter (fun r => negb (memZ (row_index r) l)) (ct_rows (controller (w_net w)))
    /\ ct_columns (controller (w_net w2)) = ct_columns (controller (w_net w)).
Proof.
  intros H.
  pose proof (preserving_get_controller_index _ _ _ _ H) as Hnet.
  pose proof (get_controller_index_incl _ _ _ _ H) as Hincl.
  rewrite searched_nil in Hincl.
  unfold drop_same_type_existing_controllers, bind at 1. rewrite H.
  unfold when. destruct (nonempty l) eqn:Hl.
  - unfold bind at 1, drop, bind at 1, get_net. rewrite Hnet.
    assert (Hall : forallb (fun i => memZ i (ctrl_index_of (controller (w_net w)))) l
                   = true).
    { apply forallb_forall. intros i Hi. apply memZ_In. now apply Hincl. }
    rewrite Hall. eexists. split; [reflexivity|]. cbn. now split.
  - exists w1. split; [reflexivity|]. rewrite Hnet.
    destruct l; [|discriminate]. rewrite filter_no_labels. now split.
Qed.

Lemma labels_distinct_after_filter (keep : ctrl_row -> bool) (rows : list ctrl_row) :
  NoDup (map row_index rows) -> NoDup (map row_index (filter keep rows)).
Proof.
  intros Hnd. induction rows as [|r rows IH]; cbn [filter map]; [constructor|].
  cbn [map] in Hnd. inversion Hnd as [|? ? Hnot Hnd']; subst.
  destruct (keep r); [|now apply IH]. cbn [map]. constructor; [|now apply IH].
  intros H. apply Hnot. apply in_map_iff in H as (r' & E & Hr').
  apply filter_In in Hr' as [Hr' _]. apply in_map_iff. eauto.
Qed.

Lemma is_column_columns (t t' : ctrl_table) (k : string) :
  ct_columns t' = ct_columns t -> is_column t' k = is_column t k.
Proof. unfold is_column, columns. now intros ->. Qed.

Lemma column_keys_columns (t t' : ctrl_table) (ps : list (string * value)) :
  ct_columns t' = ct_columns t -> column_keys t' ps = column_keys t ps.
Proof.
  intros H. unfold column_keys. apply filter_ext. intros k. now apply is_column_columns.
Qed.

Lemma attribute_part_columns (t t' : ctrl_table) (ps : list (string * value)) :
  ct_columns t' = ct_columns t -> attribute_part t' ps = attribute_part t ps.
Proof.
  intros H. unfold attribute_part. apply filter_ext. intros kv.
  now rewrite (@is_column_columns _ _ _ H).
Qed.

Lemma selected_after_drop (w w2 : world) (ctrl_type : option type_spec)
    (ps : list (string * value)) (l : list Z) (i : Z) :
  NoDup (ctrl_index_of (controller (w_net w))) ->
  ct_rows (controller (w_net w2))
  = filter (fun r => negb (memZ (row_index r) l)) (ct_rows (controller (w_net w))) ->
  ct_columns (controller (w_net w2)) = ct_columns (controller (w_net w)) ->
  selected w2 ctrl_type ps i = true ->
  In i (ctrl_index_of (controller (w_net w)))
  /\ selected w ctrl_type ps i = true /\ ~ In i l.
Proof.
  intros Hnd Hrows Hcols. unfold selected.
  destruct (find_row (controller (w_net w2)) i) as [r|] eqn:F; [|discriminate].
  apply find_row_some in F as [Hin Hi]. rewrite Hrows in Hin.
  apply filter_In in Hin as [Hin Hl]. subst i.
  rewrite (@find_row_unique _ r Hnd Hin).
  unfold columns_equal. rewrite (@column_keys_columns _ _ _ Hcols),
    (@attribute_part_columns _ _ _ Hcols), !query_true_value.
  intros H. split; [|split; [exact H|]].
  - unfold ctrl_index_of. now apply in_map.
  - intros Hn. apply memZ_In in Hn. rewrite Hn in Hl. discriminate.
Qed.

(** X12.  What the drop is for.  On a controller table with distinct labels
    and for [matching_params] whose values under column keys are scalars
    other than None, [drop_same_type_existing_controllers] returns, keeps
    the labels of the table distinct, and leaves no controller behind that
    the same query selects: asked again with the same type and parameters,
    [get_controller_index] returns the empty list, and a second drop changes
    nothing in the network model. *)
Theorem drop_same_type_leaves_no_match :
  forall (w : world) (this_ctrl_type : option type_spec) (index : option Z)
         (matching_params : list (string * value)),
    NoDup (ctrl_index_of (controller (w_net w))) ->
    column_values_scalar (controller (w_net w)) matching_params = true ->
    exists w2 w3,
      drop_same_type_existing_controllers this_ctrl_type index (Some matching_params) w
      = (Ok tt, w2)
      /\ NoDup (ctrl_index_of (controller (w_net w2)))
      /\ get_controller_index this_ctrl_type (Some matching_params) [] w2 = (Ok [], w3)
      /\ drop_same_type_existing_controllers this_ctrl_type index (Some matching_params) w2
         = (Ok tt, w3)
      /\ w_net w3 = w_net w2.
Proof.
  intros w this_ctrl_type index matching_params Hnd Hsc.
  destruct (@get_controller_index_selected w this_ctrl_type matching_params []
              Hnd (incl_nil_l _) Hsc) as (l & logs & E & S).
  destruct (@drop_same_type_run _ _ index _ _ _ E) as (w2 & D & Hrows & Hcols).
  assert (Hnd2 : NoDup (ctrl_index_of (controller (w_net w2)))).
  { unfold ctrl_index_of. rewrite Hrows. now apply labels_distinct_after_filter. }
  assert (Hsc2 : column_values_scalar (controller (w_net w2)) matching_params = true).
  { unfold column_values_scalar. now rewrite (@column_keys_columns _ _ _ Hcols). }
  destruct (@get_controller_index_selected w2 this_ctrl_type matching_params []
              Hnd2 (incl_nil_l _) Hsc2) as (l2 & logs2 & E2 & S2).
  assert (Hl2 : l2 = []).
  { destruct l2 as [|i l2]; [reflexivity|]. exfalso.
    destruct (proj1 (S2 i) (or_introl eq_refl)) as [_ Hsel].
    destruct (@selected_after_drop _ _ _ _ _ _ Hnd Hrows Hcols Hsel) as (Hin & Hsel' & Hnot).
    apply Hnot. apply (S i). split; [|exact Hsel']. now rewrite searched_nil. }
  subst l2. exists w2, (add_log w2 logs2).
  split; [exact D|]. split; [exact Hnd2|]. split; [exact E2|]. split; [|reflexivity].
  unfold drop_same_type_existing_controllers, bind at 1. now rewrite E2.
Qed.

Lemma drop_same_type_leaves_no_match_witness :
  exists w2 w3,
    drop_same_type_existing_controllers (Some (TypeName "ConstControl")) (Some 2)
      (Some [("element", VScalar (SStr "gen"))]) Fixture.start = (Ok tt, w2)
    /\ NoDup (ctrl_index_of (controller (w_net w2)))
    /\ get_controller_index (Some (TypeName "ConstControl"))
         (Some [("element", VScalar (SStr "gen"))]) [] w2 = (Ok [], w3)
    /\ drop_same_type_existing_controllers (Some (TypeName "ConstControl")) (Some 2)
         (Some [("element", VScalar (SStr "gen"))]) w2 = (Ok tt, w3)
    /\ w_net w3 = w_net w2.
Proof.
  apply (@drop_same_type_leaves_no_match Fixture.start (Some (TypeName "ConstControl"))
           (Some 2) [("element", VScalar (SStr "gen"))]).
  - exact fixture_labels_distinct.
  - reflexivity.
Defined.

(** ** Type names *)

Lemma split_space_first_no_space (s : string) :
  contains_space (split_space_first s) = false.
Proof.
  induction s as [|c s IH]; [reflexivity|]. cbn [split_space_first].
  destruct (Ascii.eqb c " ") eqn:E; [reflexivity|]. cbn [contains_space].
  now rewrite E, IH.
Qed.

Lemma lower_ascii_space (c : ascii) :
  Ascii.eqb (lower_ascii c) " " = Ascii.eqb c " ".
Proof.
  destruct c as [b0 b1 b2 b3 b4 b5 b6 b7].
  destruct b0, b1, b2, b3, b4, b5, b6, b7; reflexivity.
Qed.

Lemma contains_space_lower (s : string) : contains_space (lower s) = contains_space s.
Proof.
  induction s as [|c s IH]; [reflexivity|]. cbn [lower contains_space].
  now rewrite lower_ascii_space, IH.
Qed.

Lemma typename_space_no_match (case_sensitive : bool) (typename : string) (o : Controller) :
  contains_space typename = true -> typename_matches case_sensitive typename o = false.
Proof.
  intros H. unfold typename_matches.
  destruct case_sensitive; apply not_true_is_false; intros E; apply String.eqb_eq in E.
  - pose proof (split_space_first_no_space (ctrl_str o)) as N. rewrite E in N. congruence.
  - pose proof (split_space_first_no_space (ctrl_str o)) as N.
    rewrite <- contains_space_lower, E, contains_space_lower in N. congruence.
Qed.

Lemma filter_none {A} (f : A -> bool) (l : list A) :
  (forall x, f x = false) -> filter f l = [].
Proof. intros H. induction l as [|x l IH]; [reflexivity|]. cbn. now rewrite H. Qed.

Lemma accepts_none (net : pp_net) (f : Controller -> bool) (i : Z) :
  (forall o, f o = false) -> accepts net f i = false.
Proof. intros H. unfold accepts. destruct (object_of net i); auto. Qed.

Lemma typename_matches_finer (typename : string) (o : Controller) :
  typename_matches true typename o = true -> typename_matches false typename o = true.
Proof.
  unfold typename_matches. intros E. apply String.eqb_eq in E. rewrite E.
  apply String.eqb_refl.
Qed.

(** X13.  The display name is cut at its first space before it is compared,
    so a type name with a space in it (the whole display name of a
    controller, say) selects no controller: on labels of the table
    [get_controller_index_by_typename] returns the empty list in both
    modes, and so does [get_controller_index] with a string as type. *)
Theorem typename_with_space_selects_nothing :
  forall (w : world) (typename : string) (idx : list Z) (case_sensitive : bool),
    contains_space typename = true ->
    incl idx (ctrl_index_of (controller (w_net w))) ->
    get_controller_index_by_typename typename idx case_sensitive w = (Ok [], w)
    /\ get_controller_index (Some (TypeName typename)) None idx w = (Ok [], w).
Proof.
  intros w typename idx case_sensitive Hsp Hidx. split.
  - rewrite by_typename_filter by assumption. f_equal. f_equal.
    apply filter_none. intros i. apply accepts_none. intros o.
    now apply typename_space_no_match.
  - unfold get_controller_index, bind at 1, get_net. fold (searched (w_net w) idx).
    unfold bind at 1. rewrite narrow_filter by assumption. unfold ret. f_equal. f_equal.
    apply filter_none. intros i. apply accepts_none. intros o.
    exact (@typename_space_no_match false typename o Hsp).
Qed.

Lemma typename_with_space_selects_nothing_witness :
  get_controller_index_by_typename "ConstControl of gen" [] true Fixture.start
  = (Ok [], Fixture.start)
  /\ get_controller_index (Some (TypeName "ConstControl of gen")) None [] Fixture.start
     = (Ok [], Fixture.start).
Proof.
  apply (@typename_with_space_selects_nothing Fixture.start "ConstControl of gen" [] true).
  - reflexivity.
  - apply incl_nil_l.
Defined.

(** X14.  The case-sensitive comparison is the finer one: on labels of the
    table both modes of [get_controller_index_by_typename] return, in the
    order of the searched labels, and every label returned with
    [case_sensitive=True] is also returned with the default
    [case_sensitive=False]. *)
Theorem typename_case_sensitive_is_finer :
  forall (w : world) (typename : string) (idx : list Z),
    incl idx (ctrl_index_of (controller (w_net w))) ->
    exists exact folded,
      get_controller_index_by_typename typename idx true w = (Ok exact, w)
      /\ get_controller_index_by_typename typename idx false w = (Ok folded, w)
      /\ incl exact folded.
Proof.
  intros w typename idx Hidx. do 2 eexists.
  split; [now apply by_typename_filter|]. split; [now apply by_typename_filter|].
  intros i Hi. apply filter_In in Hi as [Hs Ha]. apply filter_In. split; [assumption|].
  unfold accepts in *. destruct (object_of (w_net w) i) as [o|]; [|discriminate].
  now apply typename_matches_finer.
Qed.

Lemma typename_case_sensitive_is_finer_witness :
  exists exact folded,
    get_controller_index_by_typename "constcontrol" [] true Fixture.start
    = (Ok exact, Fixture.start)
    /\ get_controller_index_by_typename "constcontrol" [] false Fixture.start
       = (Ok folded, Fixture.start)
    /\ incl exact folded.
Proof.
  apply (@typename_case_sensitive_is_finer Fixture.start "constcontrol" []).
  apply incl_nil_l.
Defined.

(** ** More on the tap-characteristic manager *)

Lemma lookup_dict_set_other {V} (k key : string) (v : V) (d : list (string * V)) :
  k <> key -> lookup k (dict_set key v d) = lookup k d.
Proof.
  intros Hk. induction d as [|[k' v'] d IH]; cbn [dict_set lookup].
  - destruct (String.eqb key k) eqn:E; [|reflexivity].
    apply String.eqb_eq in E. congruence.
  - destruct (String.eqb k' key) eqn:E; cbn [lookup].
    + apply String.eqb_eq in E. subst k'.
      destruct (String.eqb key k) eqn:E'; [|reflexivity].
      apply String.eqb_eq in E'. congruence.
    + now rewrite IH.
Qed.

Lemma same_elsewhere_refl (t : trafotable) (col : string) (w : world) :
  same_elsewhere t col w w.
Proof. repeat split. Qed.

Lemma same_elsewhere_trans (t : trafotable) (col : string) (w1 w2 w3 : world) :
  same_elsewhere t col w1 w2 -> same_elsewhere t col w2 w3 -> same_elsewhere t col w1 w3.
Proof.
  intros (A1 & B1 & C1 & D1) (A2 & B2 & C2 & D2). repeat split; try congruence.
  intros col' H. now rewrite D2, D1.
Qed.

Lemma create_one_elsewhere (t : trafotable) (col : string) (z : Z * list Q * list Q)
    (w : world) :
  exists w1, create_one t col z w = (Ok tt, w1) /\ same_elsewhere t col w w1.
Proof.
  destruct z as [[tid x_p] y_p].
  unfold create_one, add_to_net, at_set, bind, get_net, put_net, ret.
  cbn [w_net w_log]. eexists. split; [reflexivity|].
  unfold same_elsewhere, get_column. cbn [w_net w_log].
  destruct t; cbn [net_table other_table set_characteristic set_table trafo trafo3w
                    characteristic controller tt_columns];
    repeat split; intros col' H; now apply lookup_dict_set_other.
Qed.

Lemma create_loop_elsewhere (t : trafotable) (col : string)
    (zs : list (Z * list Q * list Q)) :
  forall w, exists w1,
    forM_ (create_one t col) zs w = (Ok tt, w1) /\ same_elsewhere t col w w1.
Proof.
  induction zs as [|z zs IH]; intros w.
  - exists w. split; [reflexivity | apply same_elsewhere_refl].
  - destruct (create_one_elsewhere t col z w) as (w1 & E1 & S1).
    destruct (IH w1) as (w2 & E2 & S2).
    exists w2. cbn [forM_]. unfold bind. rewrite E1. split; [exact E2|].
    now apply same_elsewhere_trans with w1.
Qed.

Lemma prepare_columns_elsewhere (t : trafotable) (trafo_index : list Z) (col : string)
    (w : world) :
  exists r w0,
    prepare_columns t trafo_index col w = (r, w0)
    /\ same_elsewhere t col w w0
    /\ characteristic (w_net w0) = characteristic (w_net w)
    /\ tt_index (net_table (w_net w0) t) = tt_index (net_table (w_net w) t)
    /\ (r <> Ok tt ->
        r = Raise KeyError
        /\ tt_columns (net_table (w_net w0) t) = tt_columns (net_table (w_net w) t)
        /\ forall i, flag_at (net_table (w_net w0) t) i = flag_at (net_table (w_net w) t) i).
Proof.
  destruct w as [[ctrl tr tr3 reg] log].
  unfold prepare_columns, ensure_flag_column, loc_set_flag, ensure_object_column,
    bind, get_net, put_net, ret, raise, same_elsewhere, flag_at, get_column.
  destruct t; cbn [w_net w_log net_table other_table trafo trafo3w];
    [destruct tr as [idx flag cols] | destruct tr3 as [idx flag cols]];
    cbn [tt_index tt_tap_dependent_impedance tt_columns];
    destruct flag as [f0|];
    cbn [w_net w_log net_table set_table set_flag_column set_column trafo trafo3w
         tt_index tt_tap_dependent_impedance tt_columns characteristic controller];
    destruct (forallb _ trafo_index);
    cbn [w_net w_log net_table set_table set_flag_column set_column trafo trafo3w
         tt_index tt_tap_dependent_impedance tt_columns characteristic controller];
    try (do 2 eexists; split; [reflexivity|]; repeat split; congruence);
    destruct (lookup col cols) as [[d g]|] eqn:Hc;
    try destruct d;
    cbn [w_net w_log net_table set_table set_flag_column set_column trafo trafo3w
         tt_index tt_tap_dependent_impedance tt_columns characteristic controller
         col_dtype col_at dtype_is_object negb];
    do 2 eexists; (split; [reflexivity|]);
    cbn [w_net w_log net_table set_table set_flag_column set_column trafo trafo3w
         tt_index tt_tap_dependent_impedance tt_columns characteristic controller
         col_dtype col_at];
    repeat split; try congruence;
    intros col' H; now apply lookup_dict_set_other.
Qed.

Lemma forallb_unknown (trafo_index index : list Z) :
  (exists tid, In tid trafo_index /\ ~ In tid index) ->
  forallb (fun l => memZ l index) trafo_index = false.
Proof.
  intros (tid & Hin & Hnot). apply not_true_is_false. intros H.
  rewrite forallb_forall in H. apply Hnot, memZ_In. now apply H.
Qed.

(** X15.  A label of [trafo_index] that is not in the transformer table
    makes the call raise KeyError, and nothing has been registered by then:
    the characteristic registry, the index and the columns of the table, its
    tap-dependent flags, the other tables and the log are as before.  (The
    one trace the call may leave is the flag column itself, created all
    false when the table had none.) *)
Theorem create_unknown_transformer_registers_nothing :
  forall (w : world) (t : trafotable) (trafo_index : list Z) (variable : string)
         (x_points y_points : list (list Q)),
    List.length trafo_index = List.length x_points ->
    List.length trafo_index = List.length y_points ->
    (exists tid, In tid trafo_index /\ ~ In tid (tt_index (net_table (w_net w) t))) ->
    exists w',
      create_trafo_characteristics t trafo_index variable x_points y_points w
      = (Raise KeyError, w')
      /\ characteristic (w_net w') = characteristic (w_net w)
      /\ tt_index (net_table (w_net w') t) = tt_index (net_table (w_net w) t)
      /\ tt_columns (net_table (w_net w') t) = tt_columns (net_table (w_net w) t)
      /\ (forall i, flag_at (net_table (w_net w') t) i = flag_at (net_table (w_net w) t) i)
      /\ net_table (w_net w') (other_table t) = net_table (w_net w) (other_table t)
      /\ controller (w_net w') = controller (w_net w)
      /\ w_log w' = w_log w.
Proof.
  intros w t trafo_index variable x_points y_points Hx Hy Hun.
  apply forallb_unknown in Hun.
  destruct (prepare_columns_fail t trafo_index (characteristic_column variable) w Hun)
    as [w1 E].
  destruct (prepare_columns_elsewhere t trafo_index (characteristic_column variable) w)
    as (r & w0 & E0 & (Hother & Hctrl & Hlog & _) & Hreg & Hidx & Hfail).
  rewrite E in E0. injection E0 as <- <-.
  destruct (Hfail ltac:(discriminate)) as (_ & Hcols & Hflag).
  exists w1. split.
  - unfold create_trafo_characteristics.
    rewrite <- Hx, <- Hy, Nat.eqb_refl. cbn [negb orb].
    unfold bind. now rewrite E.
  - repeat split; assumption.
Qed.

Lemma create_unknown_transformer_registers_nothing_witness :
  exists w',
    create_trafo_characteristics TTrafo [3; 5] "vk_percent"
      Example.x_points Example.y_points Fixture.start = (Raise KeyError, w')
    /\ characteristic (w_net w') = characteristic (w_net Fixture.start)
    /\ tt_index (net_table (w_net w') TTrafo)
       = tt_index (net_table (w_net Fixture.start) TTrafo)
    /\ tt_columns (net_table (w_net w') TTrafo)
       = tt_columns (net_table (w_net Fixture.start) TTrafo)
    /\ (forall i, flag_at (net_table (w_net w') TTrafo) i
                  = flag_at (net_table (w_net Fixture.start) TTrafo) i)
    /\ net_table (w_net w') (other_table TTrafo)
       = net_table (w_net Fixture.start) (other_table TTrafo)
    /\ controller (w_net w') = controller (w_net Fixture.start)
    /\ w_log w' = w_log Fixture.start.
Proof.
  apply (@create_unknown_transformer_registers_nothing Fixture.start TTrafo [3; 5]
           "vk_percent" Example.x_points Example.y_points eq_refl eq_refl).
  exists 5. split; [simpl; auto|]. simpl. intuition discriminate.
Defined.

(** *** The state after a successful call *)

Lemma writes_ext (zs : list (Z * list Q * list Q)) :
  forall (id0 : Z) (f g : Z -> option Z) (i : Z),
    (forall j, f j = g j) -> writes zs id0 f i = writes zs id0 g i.
Proof.
  induction zs as [|z zs IH]; intros id0 f g i H; [apply H|].
  cbn [writes]. apply IH. intros j. now rewrite H.
Qed.

Lemma writes_in (zs : list (Z * list Q * list Q)) :
  forall (id0 : Z) (f : Z -> option Z) (i : Z),
    In i (map triple_tid zs) ->
    exists j, (j < List.length zs)%nat /\ writes zs id0 f i = Some (id0 + Z.of_nat j).
Proof.
  induction zs as [|z zs IH]; intros id0 f i Hi; [contradiction|].
  cbn [writes List.length].
  destruct (in_dec Z.eq_dec i (map triple_tid zs)) as [Hin | Hnot].
  - destruct (IH (id0 + 1) (fun k => if Z.eqb k (triple_tid z) then Some id0 else f k)
                i Hin) as (j & Hj & E).
    exists (S j). split; [lia|]. rewrite E. f_equal. lia.
  - rewrite writes_untouched by assumption.
    destruct Hi as [E | Hi]; [|contradiction]. subst i. rewrite Z.eqb_refl.
    exists 0%nat. split; [lia|]. f_equal. lia.
Qed.

Lemma map_fst_combine_same {A B} (a : list A) (b : list B) :
  List.length a = List.length b -> map fst (combine a b) = a.
Proof.
  revert b. induction a as [|x a IH]; intros [|y b]; cbn; try discriminate;
    [reflexivity|].
  intros [= H]. f_equal. now apply IH.
Qed.

Lemma create_state (t : trafotable) (trafo_index : list Z) (variable : string)
    (x_points y_points : list (list Q)) (w w' : world) :
  create_trafo_characteristics t trafo_index variable x_points y_points w = (Ok tt, w') ->
  let col := characteristic_column variable in
  let zs := zip3 trafo_index x_points y_points in
  let id0 := get_free_id (characteristic (w_net w)) in
  map triple_tid zs = trafo_index
  /\ incl trafo_index (tt_index (net_table (w_net w) t))
  /\ same_elsewhere t col w w'
  /\ tt_index (net_table (w_net w') t) = tt_index (net_table (w_net w) t)
  /\ map fst (characteristic (w_net w'))
     = (map fst (characteristic (w_net w)) ++ new_ids id0 (List.length trafo_index))%list
  /\ exists f c,
       tt_tap_dependent_impedance (net_table (w_net w') t) = Some f
       /\ (forall i, f i = if memZ i trafo_index then true
                           else flag_at (net_table (w_net w) t) i)
       /\ get_column (net_table (w_net w') t) col = Some c
       /\ col_dtype c = dtype_object
       /\ (forall i, col_at c i = writes zs id0 (cell_at (w_net w) t col) i).
Proof.
  intros H col zs id0.
  destruct (create_runs _ _ _ _ _ _ H) as (Hx & Hy & Hall & Hrun).
  fold col in Hrun. fold zs in Hrun.
  pose proof (zip3_tids trafo_index x_points y_points Hx Hy) as Htids. fold zs in Htids.
  assert (Hincl : incl trafo_index (tt_index (net_table (w_net w) t))).
  { intros i Hi. apply memZ_In. rewrite forallb_forall in Hall. now apply Hall. }
  destruct (prepare_columns_ok t trafo_index col w Hall)
    as (w0 & f & c & E0 & Hidx0 & Hflag0 & Hf & Hcol0 & Hd & Hc & Hreg0 & _ & _).
  destruct (prepare_columns_elsewhere t trafo_index col w)
    as (r & w0' & E0' & S0 & _).
  rewrite E0 in E0'. injection E0' as <- <-.
  unfold bind in Hrun. rewrite E0 in Hrun.
  assert (Hin0 : forall z, In z zs -> In (triple_tid z) (tt_index (net_table (w_net w0) t))).
  { intros z Hz. rewrite Hidx0. apply Hincl. now apply in_zip3_tid in Hz. }
  destruct (create_loop_spec t col zs w0 Hcol0 Hin0)
    as (w1 & E1 & Hreg1 & _ & Hidx1 & Hflag1 & Hcol1 & _ & _).
  destruct (create_loop_elsewhere t col zs w0) as (w1' & E1' & S1).
  rewrite E1 in E1'. injection E1' as <-.
  rewrite E1 in Hrun. injection Hrun as <-.
  assert (Hlen : List.length zs = List.length trafo_index)
    by (rewrite <- (length_map triple_tid zs); now rewrite Htids).
  split; [exact Htids|]. split; [exact Hincl|].
  split; [now apply same_elsewhere_trans with w0|].
  split; [congruence|]. split.
  - rewrite Hreg1, Hreg0, map_app, Hlen. f_equal. fold id0.
    apply map_fst_combine_same. now rewrite new_ids_length, length_map.
  - exists f. eexists. split; [congruence|]. split; [exact Hf|].
    split; [exact Hcol1|]. split; [exact Hd|].
    intros i. cbn [col_at]. rewrite Hreg0. fold id0. now apply writes_ext.
Qed.

(** X16.  What a successful call leaves alone: the other transformer
    table, the controller table and the log (it logs nothing), every column
    of the table other than [<variable>_characteristic] and the flag column,
    the index of the table, and, at the rows that [trafo_index] does not
    name, the entry of [<variable>_characteristic] and the flag; the ids
    registered before are still registered. *)
Theorem create_trafo_characteristics_frame :
  forall (w w' : world) (t : trafotable) (trafo_index : list Z) (variable : string)
         (x_points y_points : list (list Q)),
    create_trafo_characteristics t trafo_index variable x_points y_points w = (Ok tt, w') ->
    let col := characteristic_column variable in
    net_table (w_net w') (other_table t) = net_table (w_net w) (other_table t)
    /\ controller (w_net w') = controller (w_net w)
    /\ w_log w' = w_log w
    /\ tt_index (net_table (w_net w') t) = tt_index (net_table (w_net w) t)
    /\ (forall col', col' <> col ->
                     get_column (net_table (w_net w') t) col'
                     = get_column (net_table (w_net w) t) col')
    /\ (forall i, ~ In i trafo_index ->
                  cell_at (w_net w') t col i = cell_at (w_net w) t col i
                  /\ flag_at (net_table (w_net w') t) i = flag_at (net_table (w_net w) t) i)
    /\ (forall id, In id (map fst (characteristic (w_net w))) ->
                   In id (map fst (characteristic (w_net w')))).
Proof.
  intros w w' t trafo_index variable x_points y_points H col.
  destruct (@create_state _ _ _ _ _ _ _ H)
    as (Htids & _ & (Hother & Hctrl & Hlog & Hcols) & Hidx & Hreg
        & f & c & Hflag & Hf & Hcol & _ & Hc).
  fold col in Hcols, Hcol, Hc.
  repeat split; try assumption.
  - unfold cell_at at 1. rewrite Hcol, Hc. apply writes_untouched. now rewrite Htids.
  - unfold flag_at at 1. rewrite Hflag, Hf.
    destruct (memZ i trafo_index) eqn:M; [|reflexivity].
    apply memZ_In in M. contradiction.
  - intros id Hid. rewrite Hreg. apply in_or_app. now left.
Qed.

Lemma create_trafo_characteristics_frame_witness :
  exists w',
    create_trafo_characteristics TTrafo Example.trafo_index "vk_percent"
      Example.x_points Example.y_points Fixture.start = (Ok tt, w')
    /\ net_table (w_net w') (other_table TTrafo)
       = net_table (w_net Fixture.start) (other_table TTrafo)
    /\ controller (w_net w') = controller (w_net Fixture.start)
    /\ w_log w' = w_log Fixture.start
    /\ cell_at (w_net w') TTrafo "vk_percent_characteristic" 1 = None.
Proof.
  set (w' := snd (create_trafo_characteristics TTrafo Example.trafo_index "vk_percent"
                   Example.x_points Example.y_points Fixture.start)).
  assert (E : create_trafo_characteristics TTrafo Example.trafo_index "vk_percent"
                Example.x_points Example.y_points Fixture.start = (Ok tt, w'))
    by reflexivity.
  exists w'. split; [exact E|].
  destruct (@create_trafo_characteristics_frame Fixture.start w' TTrafo
              Example.trafo_index "vk_percent" Example.x_points Example.y_points E)
    as (Hother & Hctrl & Hlog & _ & _ & Hrows & _).
  split; [exact Hother|]. split; [exact Hctrl|]. split; [exact Hlog|].
  reflexivity.
Defined.

(** ** The diagnostic after a registration *)

Lemma check_column_has (net : pp_net) (t : trafotable) (mask : Z -> bool) (col : string)
    (c : column) :
  get_column (net_table net t) col = Some c ->
  col_dtype c = dtype_object ->
  (forall i, In i (tt_index (net_table net t)) -> mask i = true ->
             exists id, col_at c i = Some id /\ In id (map fst (characteristic net))) ->
  forall w, w_net w = net ->
    check_column t mask col w
    = (Ok tt, add_log w [info (ColumnHas (table_name t) col
                                 (List.length (filter is_some
                                    (map (col_at c) (tt_index (net_table net t))))))]).
Proof.
  intros Hc Hd Hvalid w Hw.
  unfold check_column, bind at 1, get_net. rewrite Hw, Hc, Hd.
  cbn [dtype_is_object negb].
  assert (Hnull : existsb (fun v => negb (is_some v))
                    (map (col_at c) (filter mask (tt_index (net_table net t)))) = false).
  { apply not_true_is_false. intros H. apply existsb_exists in H as (v & Hv & Hn).
    apply in_map_iff in Hv as (i & <- & Hi). apply filter_In in Hi as [Hi Hm].
    destruct (Hvalid i Hi Hm) as (id & E & _). rewrite E in Hn. discriminate. }
  assert (Hreg : filter (fun v => negb (opt_memZ v (map fst (characteristic net))))
                   (map (col_at c) (filter mask (tt_index (net_table net t)))) = []).
  { destruct (filter _ (map _ _)) as [|v l] eqn:F; [reflexivity|]. exfalso.
    assert (Hv : In v (v :: l)) by now left. rewrite <- F in Hv.
    apply filter_In in Hv as [Hv Hn].
    apply in_map_iff in Hv as (i & <- & Hi). apply filter_In in Hi as [Hi Hm].
    destruct (Hvalid i Hi Hm) as (id & E & Hid). rewrite E in Hn. cbn [opt_memZ] in Hn.
    apply memZ_In in Hid. rewrite Hid in Hn. discriminate. }
  rewrite Hnull, Hreg. reflexivity.
Qed.

Lemma check_columns_in (net : pp_net) (t : trafotable) (mask : Z -> bool) (col : string)
    (m : message) :
  (forall w, w_net w = net -> check_column t mask col w = (Ok tt, add_log w [info m])) ->
  forall cols, In col cols ->
  forall w, w_net w = net ->
    exists logs, forM_ (check_column t mask) cols w = (Ok tt, add_log w logs)
                 /\ In (info m) logs.
Proof.
  intros Hcol cols. induction cols as [|c cols IH]; intros Hin w Hw; [contradiction|].
  cbn [forM_]. unfold bind.
  destruct (string_dec c col) as [-> | Hne].
  - rewrite (Hcol w Hw).
    destruct (check_columns_logs t mask cols (add_log w [info m])) as (rest & E & _).
    rewrite E, add_log_app. exists ([info m] ++ rest)%list. split; [reflexivity|].
    now left.
  - destruct Hin as [E | Hin]; [contradiction|].
    destruct (check_column_logs t mask c w) as [m' E']. rewrite E'.
    destruct (IH Hin (add_log w [info m']) Hw) as (rest & E & Hrest).
    rewrite E, add_log_app. exists ([info m'] ++ rest)%list. split; [reflexivity|].
    now right.
Qed.

Lemma check_table_in (net : pp_net) (t : trafotable) (mask : Z -> bool) (col : string)
    (m : message) (cols : list string) (w : world) :
  w_net w = net ->
  tt_tap_dependent_impedance (net_table net t) = Some mask ->
  no_tap_dependent (net_table net t) = false ->
  (forall w, w_net w = net -> check_column t mask col w = (Ok tt, add_log w [info m])) ->
  In col cols ->
  exists logs, check_table (t, cols) w = (Ok tt, add_log w logs) /\ In (info m) logs.
Proof.
  intros Hw Hflag Hsome Hcol Hin.
  unfold no_tap_dependent in Hsome. rewrite Hflag in Hsome.
  unfold check_table, bind at 1, get_net. rewrite Hw, Hflag, Hsome.
  unfold bind. rewrite logger_add_log.
  destruct (@check_columns_in net t mask col m Hcol cols Hin
              (add_log w [{| lvl := INFO;
                             msg := FoundTapDependent (table_name t)
                                      (List.length (filter mask
                                         (tt_index (net_table net t)))) |}]) Hw)
    as (rest & E & Hrest).
  rewrite E, add_log_app. eexists. split; [reflexivity|].
  apply in_or_app. now right.
Qed.

Lemma diagnostic_in (net : pp_net) (t : trafotable) (mask : Z -> bool) (col : string)
    (m : message) (w : world) :
  w_net w = net ->
  tt_tap_dependent_impedance (net_table net t) = Some mask ->
  no_tap_dependent (net_table net t) = false ->
  (forall w, w_net w = net -> check_column t mask col w = (Ok tt, add_log w [info m])) ->
  In col (expected_columns t) ->
  exists logs, trafo_characteristics_diagnostic w = (Ok tt, add_log w logs)
               /\ In (info m) logs.
Proof.
  intros Hw Hflag Hsome Hcol Hin.
  unfold trafo_characteristics_diagnostic, bind at 1. rewrite logger_add_log.
  fold (info CheckingTrafoCharacteristics).
  set (w1 := add_log w [info CheckingTrafoCharacteristics]).
  cbn [forM_]. unfold bind. destruct t; cbn [expected_columns] in Hin.
  - destruct (@check_table_in net TTrafo mask col m cols2w w1 Hw Hflag Hsome Hcol Hin)
      as (l2 & E2 & H2).
    destruct (check_table_logs TTrafo3w cols3w (add_log w1 l2)) as (l3 & E3 & _).
    rewrite E2, E3. unfold w1, ret. rewrite !add_log_app.
    eexists. split; [reflexivity|].
    apply in_or_app. right. apply in_or_app. now left.
  - destruct (check_table_logs TTrafo cols2w w1) as (l2 & E2 & _).
    destruct (@check_table_in net TTrafo3w mask col m cols3w (add_log w1 l2) Hw Hflag
                Hsome Hcol Hin) as (l3 & E3 & H3).
    rewrite E2, E3. unfold w1, ret. rewrite !add_log_app.
    eexists. split; [reflexivity|].
    apply in_or_app. right. apply in_or_app. now right.
Qed.

(** X17.  What [create_trafo_characteristics] writes is what the diagnostic
    checks.  Take a table whose tap-dependent rows, those of [trafo_index]
    apart, hold ids of registered characteristics in the column
    [<variable>_characteristic], one of the columns the diagnostic looks
    for.  After a successful call with a non-empty [trafo_index] every
    tap-dependent row of the table holds the id of a registered
    characteristic, and [trafo_characteristics_diagnostic] reports the column
    with its number of entries: none of its four complaints about that
    column is logged for it. *)
Theorem diagnostic_after_create :
  forall (w w' : world) (t : trafotable) (trafo_index : list Z) (variable : string)
         (x_points y_points : list (list Q)),
    create_trafo_characteristics t trafo_index variable x_points y_points w = (Ok tt, w') ->
    trafo_index <> [] ->
    In (characteristic_column variable) (expected_columns t) ->
    valid_refs (w_net w) t (characteristic_column variable) trafo_index ->
    valid_refs (w_net w') t (characteristic_column variable) []
    /\ exists logs,
         trafo_characteristics_diagnostic w' = (Ok tt, add_log w' logs)
         /\ In (info (ColumnHas (table_name t) (characteristic_column variable)
                        (count_entries (w_net w') t (characteristic_column variable))))
               logs.
Proof.
  intros w w' t trafo_index variable x_points y_points H Hne Hexp Hvalid.
  destruct (@create_state _ _ _ _ _ _ _ H)
    as (Htids & Hincl & _ & Hidx & Hreg & f & c & Hflag & Hf & Hcol & Hd & Hc).
  set (col := characteristic_column variable) in *.
  set (zs := zip3 trafo_index x_points y_points) in *.
  assert (Hlen : List.length zs = List.length trafo_index)
    by (rewrite <- (length_map triple_tid zs); now rewrite Htids).
  assert (Hafter : forall i, In i (tt_index (net_table (w_net w') t)) -> f i = true ->
                     exists id, col_at c i = Some id
                                /\ In id (map fst (characteristic (w_net w')))).
  { intros i Hi Hfi. rewrite Hc, Hreg.
    destruct (in_dec Z.eq_dec i trafo_index) as [Hin | Hnot].
    - rewrite <- Htids in Hin.
      destruct (writes_in zs (get_free_id (characteristic (w_net w)))
                  (cell_at (w_net w) t col) i Hin) as (j & Hj & E).
      rewrite E. eexists. split; [reflexivity|]. apply in_or_app. right.
      apply in_new_ids. exists j. split; [lia | reflexivity].
    - rewrite writes_untouched by (now rewrite Htids).
      rewrite Hf in Hfi. destruct (memZ i trafo_index) eqn:M;
        [apply memZ_In in M; contradiction|].
      rewrite Hidx in Hi. destruct (Hvalid i Hi Hfi Hnot) as (id & E & Hid).
      exists id. split; [exact E|]. apply in_or_app. now left. }
  split.
  - intros i Hi Hfi _. unfold flag_at in Hfi. rewrite Hflag in Hfi.
    unfold cell_at. rewrite Hcol. now apply Hafter.
  - assert (Hsome : no_tap_dependent (net_table (w_net w') t) = false).
    { unfold no_tap_dependent. rewrite Hflag.
      destruct trafo_index as [|x rest]; [contradiction|].
      assert (Hx : In x (tt_index (net_table (w_net w') t)))
        by (rewrite Hidx; apply Hincl; now left).
      assert (Hfx : f x = true).
      { rewrite Hf. cbn [memZ existsb]. unfold memZ. cbn [existsb].
        now rewrite Z.eqb_refl. }
      apply orb_false_iff. split.
      - destruct (tt_index (net_table (w_net w') t)); [contradiction | reflexivity].
      - apply negb_false_iff, existsb_exists. eauto. }
    assert (Hcount : count_entries (w_net w') t col
                     = List.length (filter is_some
                                      (map (col_at c) (tt_index (net_table (w_net w') t))))).
    { unfold count_entries. f_equal. f_equal. apply map_ext. intros i.
      unfold cell_at. now rewrite Hcol. }
    rewrite Hcount.
    apply (@diagnostic_in (w_net w') t f col _ w' eq_refl Hflag Hsome); [|exact Hexp].
    intros w0 Hw0. now apply check_column_has.
Qed.

Lemma diagnostic_after_create_witness :
  exists w',
    create_trafo_characteristics TTrafo Example.trafo_index "vk_percent"
      Example.x_points Example.y_points Fixture.start = (Ok tt, w')
    /\ valid_refs (w_net w') TTrafo (characteristic_column "vk_percent") []
    /\ exists logs,
         trafo_characteristics_diagnostic w' = (Ok tt, add_log w' logs)
         /\ In (info (ColumnHas (table_name TTrafo) (characteristic_column "vk_percent")
                        (count_entries (w_net w') TTrafo
                           (characteristic_column "vk_percent"))))
               logs.
Proof.
  set (w' := snd (create_trafo_characteristics TTrafo Example.trafo_index "vk_percent"
                   Example.x_points Example.y_points Fixture.start)).
  assert (E : create_trafo_characteristics TTrafo Example.trafo_index "vk_percent"
                Example.x_points Example.y_points Fixture.start = (Ok tt, w'))
    by reflexivity.
  exists w'. split; [exact E|].
  apply (@diagnostic_after_create Fixture.start w' TTrafo Example.trafo_index
           "vk_percent" Example.x_points Example.y_points E).
  - discriminate.
  - simpl. auto.
  - intros i _ Hflag. discriminate.
Defined.

(** The example of the specification, then the diagnostic: the column that
    was written is reported with its two entries, the other expected column
    as missing. *)
Lemma diagnostic_after_create_example :
  let w' := snd (create_trafo_characteristics TTrafo Example.trafo_index "vk_percent"
                   Example.x_points Example.y_points Fixture.start) in
  map msg (w_log (snd (trafo_characteristics_diagnostic w')))
  = [CheckingTrafoCharacteristics;
     FoundTapDependent "trafo" 2;
     ColumnHas "trafo" "vk_percent_characteristic" 2;
     ColumnMissing "trafo" "vkr_percent_characteristic";
     NoTapDependent "trafo3w"].
Proof. reflexivity. Qed.

(** ** A null value under a column key *)

Lemma lookup_in_keys {V} (k : string) (d : list (string * V)) (v : V) :
  lookup k d = Some v -> In k (keys d).
Proof.
  induction d as [|[k' v'] d IH]; cbn [lookup keys map fst]; [discriminate|].
  destruct (String.eqb k' k) eqn:E.
  - apply String.eqb_eq in E. now left.
  - intros H. right. now apply IH.
Qed.

Lemma cell_eq_null (c : cell) (s : scalar) : is_null s = true -> cell_eq c s = false.
Proof.
  intros H. destruct c as [o | x]; [reflexivity|]. cbn [cell_eq]. unfold pd_eq.
  now rewrite H, orb_true_r.
Qed.

Lemma incl_nil_eq {A} (l : list A) : incl l [] -> l = [].
Proof. destruct l as [|x l]; [reflexivity|]. intros H. destruct (H x (or_introl eq_refl)). Qed.

Lemma column_fold_null (net : pp_net) (parameters : list (string * value)) (k : string)
    (s : scalar) :
  lookup k parameters = Some (VScalar s) ->
  is_null s = true ->
  forall (ks : list string) (idx : list Z) (w : world) (idx' : list Z) (w' : world),
    In k ks ->
    foldM (narrow_by_column net parameters) ks idx w = (Ok idx', w') -> idx' = [].
Proof.
  intros Hk Hs. induction ks as [|k0 ks IH]; intros idx w idx' w' Hin; [contradiction|].
  cbn [foldM]. unfold bind at 1.
  destruct (string_dec k0 k) as [-> | Hne].
  - destruct (narrow_by_column_scalar net parameters idx k w Hk) as (idx1 & E1 & H1).
    rewrite E1. intros H. apply foldM_narrow_incl in H.
    assert (E : idx1 = []).
    { destruct idx1 as [|i idx1]; [reflexivity|]. exfalso.
      destruct (proj1 (H1 i) (or_introl eq_refl)) as (_ & r & _ & _ & C).
      rewrite cell_eq_null in C by assumption. discriminate. }
    subst idx1. now apply incl_nil_eq.
  - destruct Hin as [E | Hin]; [contradiction|].
    destruct (narrow_by_column net parameters idx k0 w) as [[idx1 | e] w1];
      [|discriminate].
    now apply IH.
Qed.

(** X18.  A None under a column key selects nothing.  The comparison of a
    column with None is false at every row, also at the rows whose cell is
    null, so whenever [get_controller_index] returns for such parameters it
    returns the empty list, whatever the type specifier, the other
    parameters and [idx] are. *)
Theorem none_under_column_key_selects_nothing :
  forall (w w' : world) (ctrl_type : option type_spec)
         (parameters : list (string * value)) (idx l : list Z) (k : string),
    is_column (controller (w_net w)) k = true ->
    lookup k parameters = Some (VScalar SNone) ->
    get_controller_index ctrl_type (Some parameters) idx w = (Ok l, w') ->
    l = [].
Proof.
  intros w w' ctrl_type parameters idx l k Hcol Hk H.
  destruct (narrow_by_type ctrl_type (searched (w_net w) idx) w) as [[idx1 | e] w1] eqn:N.
  - rewrite (@parameters_part _ _ parameters _ _ _ N) in H. unfold bind at 1 in H.
    destruct (foldM _ _ idx1 w1) as [[idx2 | e] w2] eqn:F; [|discriminate].
    assert (Hin : In k (column_keys (controller (w_net w)) parameters)).
    { apply filter_In. split; [|exact Hcol]. now apply lookup_in_keys in Hk. }
    apply (@column_fold_null _ _ _ _ Hk eq_refl _ _ _ _ _ Hin) in F. subst idx2.
    cbn in H. now injection H as <- _.
  - unfold get_controller_index, bind at 1, get_net in H.
    fold (searched (w_net w) idx) in H. unfold bind at 1 in H. rewrite N in H.
    discriminate.
Qed.

Lemma none_under_column_key_selects_nothing_witness :
  get_controller_index None (Some Positional.recycle_none) [] Fixture.start
  = (Ok [], Fixture.start).
Proof.
  destruct (get_controller_index None (Some Positional.recycle_none) [] Fixture.start)
    as [[l | e] w'] eqn:E; [|discriminate].
  rewrite (@none_under_column_key_selects_nothing Fixture.start w' None
             Positional.recycle_none [] l "recycle" eq_refl eq_refl E).
  vm_compute in E. now injection E as _ <-.
Defined.

(** ** What is logged and what is dropped *)

Lemma index_after_filter (rows : list ctrl_row) (l : list Z) :
  map row_index (filter (fun r => negb (memZ (row_index r) l)) rows)
  = filter (fun i => negb (memZ i l)) (map row_index rows).
Proof.
  induction rows as [|r rows IH]; [reflexivity|]. cbn [filter map].
  destruct (negb (memZ (row_index r) l)); cbn [map]; now rewrite IH.
Qed.

(** X19.  [log_same_type_existing_controllers] announces what
    [drop_same_type_existing_controllers] removes.  Both run the same
    query; whenever it returns the labels [l], the former adds to the lines
    of the query one info line naming [l] when [l] is not empty and no line
    otherwise, and leaves the network model as it was; the latter leaves a
    controller table whose labels are the former ones without those of [l],
    in their order, and adds one debug line naming [l] when [l] is not
    empty and no line otherwise. *)
Theorem log_announces_what_drop_removes :
  forall (w w1 : world) (this_ctrl_type : option type_spec) (index : option Z)
         (matching_params : list (string * value)) (l : list Z),
    get_controller_index this_ctrl_type (Some matching_params) [] w = (Ok l, w1) ->
    log_same_type_existing_controllers this_ctrl_type index (Some matching_params) w
    = (Ok tt, add_log w1 (if nonempty l then [info (SameTypeExisting index l)] else []))
    /\ w_net w1 = w_net w
    /\ exists w2,
         drop_same_type_existing_controllers this_ctrl_type index (Some matching_params) w
         = (Ok tt, w2)
         /\ ctrl_index_of (controller (w_net w2))
            = filter (fun i => negb (memZ i l)) (ctrl_index_of (controller (w_net w)))
         /\ w_log w2
            = (w_log w1
                 ++ if nonempty l then [debug (ControllersRemoved l index)] else [])%list.
Proof.
  intros w w1 this_ctrl_type index matching_params l H.
  pose proof (preserving_get_controller_index _ _ _ _ H) as Hnet.
  pose proof (get_controller_index_incl _ _ _ _ H) as Hincl.
  rewrite searched_nil in Hincl.
  split; [|split; [exact Hnet|]].
  - unfold log_same_type_existing_controllers, bind at 1. rewrite H. unfold when.
    destruct (nonempty l); [reflexivity | now rewrite add_log_nil].
  - unfold drop_same_type_existing_controllers, bind at 1. rewrite H. unfold when.
    destruct (nonempty l) eqn:Hl.
    + unfold bind at 1, drop, bind at 1, get_net. rewrite Hnet.
      assert (Hall : forallb (fun i => memZ i (ctrl_index_of (controller (w_net w)))) l
                     = true).
      { apply forallb_forall. intros i Hi. apply memZ_In. now apply Hincl. }
      rewrite Hall. eexists. split; [reflexivity|]. cbn. split; [|reflexivity].
      apply index_after_filter.
    + exists w1. split; [reflexivity|]. rewrite Hnet, app_nil_r. split; [|reflexivity].
      destruct l; [|discriminate]. symmetry. apply forallb_filter_id, forallb_forall.
      reflexivity.
Qed.

Lemma log_announces_what_drop_removes_witness :
  log_same_type_existing_controllers (Some (TypeName "ConstControl")) (Some 2)
    (Some Labels.element_gen) Fixture.start
  = (Ok tt, add_log Fixture.start [info (SameTypeExisting (Some 2) [0])])
  /\ w_net Fixture.start = w_net Fixture.start
  /\ exists w2,
       drop_same_type_existing_controllers (Some (TypeName "ConstControl")) (Some 2)
         (Some Labels.element_gen) Fixture.start = (Ok tt, w2)
       /\ ctrl_index_of (controller (w_net w2))
          = filter (fun i => negb (memZ i [0]))
                   (ctrl_index_of (controller (w_net Fixture.start)))
       /\ w_log w2
          = (w_log Fixture.start ++ [debug (ControllersRemoved [0] (Some 2))])%list.
Proof.
  exact (@log_announces_what_drop_removes Fixture.start Fixture.start
           (Some (TypeName "ConstControl")) (Some 2) Labels.element_gen [0] eq_refl).
Defined.

(** ** The lines of the attribute query *)

(** X20.  A match is silent.  [_controller_attributes_query] adds at most
    one line to the log, and none at all when it returns true: the debug
    line belongs to a missing attribute and the info line to a mismatch of
    [element_index], and both make the result false. *)
Theorem controller_attributes_query_silent_on_match :
  forall (controller : Controller) (parameters : list (string * value)) (w : world),
    exists logs,
      _controller_attributes_query controller parameters w
      = (Ok (query_value controller parameters), add_log w logs)
      /\ (List.length logs <= 1)%nat
      /\ (query_value controller parameters = true -> logs = []).
Proof.
  intros c parameters w. unfold query_value.
  destruct (all_present c parameters) eqn:Hall.
  - rewrite query_present by assumption. eexists. split; [reflexivity|].
    unfold query_info. cbn [andb].
    destruct (others_match c parameters), (element_index_match c parameters);
      cbn [andb negb]; try (split; [cbn; lia | reflexivity]).
    destruct (nonempty _); split; cbn; try lia; discriminate.
  - destruct (query_absent c parameters w Hall) as (k & _ & _ & ->).
    eexists. split; [reflexivity|]. split; [cbn; lia | discriminate].
Qed.
